(** * Product search-and-cache synchronisation: [ProductReadService]

    A shallow embedding of [src/modules/product/services/product-read.service.ts]
    and the properties its specification states about it.

    JavaScript strings are sequences of UTF-16 code units, so a string is a
    [list N]; the regular expressions of the source work on code units (none
    has the [u] flag).  Numbers of the request and of the records are the
    integral values, the two infinities and NaN.  [JSON.parse], the MD5 of a
    request and the conversion of a string to a number are parameters.

    An asynchronous method is a program ([prog]) that logs, awaits calls to
    its collaborators (the Redis client, Prisma, the detail cache) and
    returns or throws; [run] plays it against a handler that settles every
    call, and yields the outcome, the final state of the stores and the trace
    of what happened. *)

From Stdlib Require Import ZArith NArith List Ascii String Bool Lia.
From Stdlib Require DecimalPos.
From stdpp Require Import base option list gmap.
Import ListNotations.

Set Default Proof Using "Type".
Set Warnings "-register-all".

(** ** The JavaScript runtime the service relies on *)

Module JS.

(** *** Strings *)

Definition jsstring := list N.

Definition cu (a : ascii) : N := N_of_ascii a.

(** A string literal of the source, as code units. *)
Definition lit (s : string) : jsstring := map cu (list_ascii_of_string s).

Definition str_eqb (a b : jsstring) : bool := bool_decide (a = b).

Definition mem_cu (c : N) (cls : jsstring) : bool := existsb (N.eqb c) cls.

(** [\s] of a regular expression, which is also what [String.prototype.trim]
    strips: WhiteSpace and LineTerminator. *)
Definition is_space (c : N) : bool :=
  ((9 <=? c) && (c <=? 13) || (c =? 32) || (c =? 160) || (c =? 5760)
   || (8192 <=? c) && (c <=? 8202) || (c =? 8232) || (c =? 8233)
   || (c =? 8239) || (c =? 8287) || (c =? 12288) || (c =? 65279))%N.

(** [.] of a regular expression matches all but the line terminators. *)
Definition is_line_terminator (c : N) : bool :=
  ((c =? 10) || (c =? 13) || (c =? 8232) || (c =? 8233))%N.

Fixpoint trimStart (s : jsstring) : jsstring :=
  match s with
  | c :: s' => if is_space c then trimStart s' else s
  | [] => []
  end.

Definition trimEnd (s : jsstring) : jsstring := rev (trimStart (rev s)).

Definition trim (s : jsstring) : jsstring := trimEnd (trimStart s).

(** A string that does not start with white space. *)
Definition head_nonspace (s : jsstring) : Prop :=
  match s with
  | [] => True
  | c :: _ => is_space c = false
  end.

(** [s.replace(/[cls]/g, ' ')]. *)
Definition blank_class (cls : jsstring) (s : jsstring) : jsstring :=
  map (fun c => if mem_cu c cls then 32%N else c) s.

(** [s.replace(/\s+/g, ' ')]: [in_run] tells that the previous code unit
    belonged to the run of white space being replaced. *)
Fixpoint collapse_from (in_run : bool) (s : jsstring) : jsstring :=
  match s with
  | [] => []
  | c :: s' =>
      if is_space c
      then (if in_run then collapse_from true s' else 32%N :: collapse_from true s')
      else c :: collapse_from false s'
  end.

Definition collapse_spaces (s : jsstring) : jsstring := collapse_from false s.

Fixpoint starts_with (p s : jsstring) : option jsstring :=
  match p, s with
  | [], _ => Some s
  | a :: p', b :: s' => if (a =? b)%N then starts_with p' s' else None
  | _ :: _, [] => None
  end.

(** [(\?|&)word] matched at the head of [s]; the rest of [s] on success. *)
Definition sep_word_here (word s : jsstring) : option jsstring :=
  match s with
  | c :: s' => if ((c =? 63) || (c =? 38))%N then starts_with word s' else None
  | [] => None
  end.

(** [/.*(\?|&)word/] matched at the head of [s]: the star is greedy, so the
    dot takes a code unit whenever the rest still matches, and gives it back
    otherwise. *)
Fixpoint dotstar_sep_word (word s : jsstring) : option jsstring :=
  match s with
  | [] => None
  | c :: s' =>
      if is_line_terminator c then sep_word_here word s
      else match dotstar_sep_word word s' with
           | Some r => Some r
           | None => sep_word_here word s
           end
  end.

(** [s.replace(/.*(\?|&)word/, '')]: the leftmost match is removed. *)
Fixpoint strip_upto_param (word s : jsstring) : jsstring :=
  match dotstar_sep_word word s with
  | Some r => r
  | None => match s with
            | [] => []
            | c :: s' => c :: strip_upto_param word s'
            end
  end.

(** [l.join(sep)]. *)
Fixpoint join (sep : jsstring) (l : list jsstring) : jsstring :=
  match l with
  | [] => []
  | [x] => x
  | x :: l' => x ++ sep ++ join sep l'
  end.

(** [Array.from(new Set(l))]: a value is inserted unless the set has it. *)
Definition set_add (acc : list jsstring) (x : jsstring) : list jsstring :=
  if existsb (str_eqb x) acc then acc else acc ++ [x].

Definition array_from_set (l : list jsstring) : list jsstring :=
  fold_left set_add l [].

(** [s.split(',')]. *)
Fixpoint split_on (d : N) (s : jsstring) : list jsstring :=
  match s with
  | [] => [[]]
  | c :: s' =>
      if (c =? d)%N then [] :: split_on d s'
      else match split_on d s' with
           | x :: l => (c :: x) :: l
           | [] => [[c]]
           end
  end.

(** The elements of a comma-joined string, as a reader of the tag field
    separates them; the empty string has none. *)
Definition tag_elements (s : jsstring) : list jsstring :=
  match s with
  | [] => []
  | _ => split_on 44%N s
  end.

(** [s.split(/\s+/)]: every maximal run of white space separates two
    tokens; the empty string gives one empty token. *)
Fixpoint split_spaces_from (in_run : bool) (s : jsstring) : list jsstring :=
  match s with
  | [] => [[]]
  | c :: s' =>
      if is_space c
      then (if in_run then split_spaces_from true s' else [] :: split_spaces_from true s')
      else match split_spaces_from false s' with
           | x :: l => (c :: x) :: l
           | [] => [[c]]
           end
  end.

Definition split_spaces (s : jsstring) : list jsstring := split_spaces_from false s.

(** [s.includes(p)]. *)
Fixpoint includes (p s : jsstring) : bool :=
  match starts_with p s with
  | Some _ => true
  | None => match s with
            | [] => false
            | _ :: s' => includes p s'
            end
  end.

(** *** Numbers *)

Inductive number := NaN | PosInf | NegInf | Int (z : Z).

Definition num_truthy (n : number) : bool :=
  match n with
  | NaN => false
  | Int z => negb (z =? 0)%Z
  | _ => true
  end.

(** [a || b] on numbers. *)
Definition num_or (a b : number) : number := if num_truthy a then a else b.

(** [Number(x)] of an optional numeric field: [undefined] gives NaN. *)
Definition Number_of (x : option number) : number := default NaN x.

Definition Math_max (a b : number) : number :=
  match a, b with
  | NaN, _ | _, NaN => NaN
  | PosInf, _ | _, PosInf => PosInf
  | NegInf, x | x, NegInf => x
  | Int x, Int y => Int (Z.max x y)
  end.

Definition num_sub (a b : number) : number :=
  match a, b with
  | NaN, _ | _, NaN => NaN
  | PosInf, PosInf | NegInf, NegInf => NaN
  | PosInf, _ | _, NegInf => PosInf
  | NegInf, _ | _, PosInf => NegInf
  | Int x, Int y => Int (x - y)
  end.

Definition num_sign (a : number) : option Z :=
  match a with
  | NaN => None
  | PosInf => Some 1%Z
  | NegInf => Some (-1)%Z
  | Int z => Some (Z.sgn z)
  end.

Definition num_mul (a b : number) : number :=
  match a, b with
  | Int x, Int y => Int (x * y)
  | _, _ =>
      match num_sign a, num_sign b with
      | Some sa, Some sb =>
          if (sa * sb =? 0)%Z then NaN
          else if (0 <? sa * sb)%Z then PosInf else NegInf
      | _, _ => NaN
      end
  end.

(** [Math.ceil(a / b)]; a quotient in (-1, 0] is the integer 0. *)
Definition Math_ceil_div (a b : number) : number :=
  match a, b with
  | Int x, Int y =>
      if (y =? 0)%Z
      then (if (x =? 0)%Z then NaN else if (0 <? x)%Z then PosInf else NegInf)
      else Int (- ((- x) / y))
  | Int _, (PosInf | NegInf) => Int 0
  | (PosInf | NegInf), Int y =>
      match num_sign a with
      | Some sa => if (0 <=? sa * (if (y <? 0)%Z then -1 else 1))%Z then PosInf else NegInf
      | None => NaN
      end
  | _, _ => NaN
  end.

Definition num_gtb (a b : number) : bool :=
  match a, b with
  | NaN, _ | _, NaN => false
  | PosInf, PosInf | NegInf, _ | _, PosInf => false
  | PosInf, _ | _, NegInf => true
  | Int x, Int y => (y <? x)%Z
  end.

Fixpoint uint_digits (u : Decimal.uint) : jsstring :=
  match u with
  | Decimal.Nil => []
  | Decimal.D0 u => 48%N :: uint_digits u
  | Decimal.D1 u => 49%N :: uint_digits u
  | Decimal.D2 u => 50%N :: uint_digits u
  | Decimal.D3 u => 51%N :: uint_digits u
  | Decimal.D4 u => 52%N :: uint_digits u
  | Decimal.D5 u => 53%N :: uint_digits u
  | Decimal.D6 u => 54%N :: uint_digits u
  | Decimal.D7 u => 55%N :: uint_digits u
  | Decimal.D8 u => 56%N :: uint_digits u
  | Decimal.D9 u => 57%N :: uint_digits u
  end.

Definition show_int (z : Z) : jsstring :=
  match z with
  | Z0 => [48%N]
  | Zpos p => uint_digits (Pos.to_uint p)
  | Zneg p => 45%N :: uint_digits (Pos.to_uint p)
  end.

(** [String(n)], as a template literal and [toString] give it (decimal
    notation, which is what JavaScript prints below 10^21). *)
Definition num_toString (n : number) : jsstring :=
  match n with
  | NaN => lit "NaN"
  | PosInf => lit "Infinity"
  | NegInf => lit "-Infinity"
  | Int z => show_int z
  end.

(** *** Values *)

Inductive value :=
| VUndefined
| VNull
| VBool (b : bool)
| VNum (n : number)
| VStr (s : jsstring)
| VArr (l : list value)
| VObj (l : list (jsstring * value)).

Definition truthy (v : value) : bool :=
  match v with
  | VUndefined | VNull => false
  | VBool b => b
  | VNum n => num_truthy n
  | VStr s => negb (bool_decide (s = []))
  | VArr _ | VObj _ => true
  end.

(** *** [JSON.stringify] *)

Definition hex_digit (d : N) : N := (if d <? 10 then 48 + d else 87 + d)%N.

Definition unicode_escape (c : N) : jsstring :=
  lit "\u" ++ [hex_digit (c / 4096 mod 16); hex_digit (c / 256 mod 16);
               hex_digit (c / 16 mod 16); hex_digit (c mod 16)]%N.

Definition is_high_surrogate (c : N) : bool := ((55296 <=? c) && (c <=? 56319))%N.
Definition is_low_surrogate (c : N) : bool := ((56320 <=? c) && (c <=? 57343))%N.

Definition json_escape (c : N) : jsstring :=
  if (c =? 34)%N then [92; 34]%N
  else if (c =? 92)%N then [92; 92]%N
  else if (c =? 8)%N then lit "\b"
  else if (c =? 9)%N then lit "\t"
  else if (c =? 10)%N then lit "\n"
  else if (c =? 12)%N then lit "\f"
  else if (c =? 13)%N then lit "\r"
  else if (c <? 32)%N then unicode_escape c
  else [c].

Fixpoint json_quote_body (s : jsstring) : jsstring :=
  match s with
  | [] => []
  | c :: s' =>
      if is_high_surrogate c then
        match s' with
        | d :: s'' =>
            if is_low_surrogate d then c :: d :: json_quote_body s''
            else unicode_escape c ++ json_quote_body s'
        | [] => unicode_escape c
        end
      else if is_low_surrogate c then unicode_escape c ++ json_quote_body s'
      else json_escape c ++ json_quote_body s'
  end.

Definition json_quote (s : jsstring) : jsstring := [34%N] ++ json_quote_body s ++ [34%N].

(** [JSON.stringify(v)]; [None] is the [undefined] it gives for [undefined]. *)
Fixpoint JSON_stringify (v : value) : option jsstring :=
  match v with
  | VUndefined => None
  | VNull => Some (lit "null")
  | VBool b => Some (if b then lit "true" else lit "false")
  | VNum (Int z) => Some (show_int z)
  | VNum _ => Some (lit "null")
  | VStr s => Some (json_quote s)
  | VArr l =>
      Some (lit "[" ++ join (lit ",")
              (map (fun x => default (lit "null") (JSON_stringify x)) l) ++ lit "]")
  | VObj l =>
      Some (lit "{" ++ join (lit ",")
              (omap (fun kx => (fun s => json_quote (fst kx) ++ lit ":" ++ s)
                                 <$> JSON_stringify (snd kx)) l) ++ lit "}")
  end.

(** *** [decodeURIComponent] *)

Definition hex_value (c : N) : option N :=
  (if (48 <=? c) && (c <=? 57) then Some (c - 48)
   else if (65 <=? c) && (c <=? 70) then Some (c - 55)
   else if (97 <=? c) && (c <=? 102) then Some (c - 87)
   else None)%N.

(** One escape [%XX] at the head of [s]: the octet and the rest. *)
Definition take_octet (s : jsstring) : option (N * jsstring) :=
  match s with
  | 37%N :: h :: l :: rest =>
      match hex_value h, hex_value l with
      | Some a, Some b => Some (16 * a + b, rest)%N
      | _, _ => None
      end
  | _ => None
  end.

(** [n] continuation octets, each in [80..BF], folded into the code point. *)
Fixpoint take_continuation (n : nat) (acc : N) (s : jsstring) : option (N * jsstring) :=
  match n with
  | O => Some (acc, s)
  | S n' =>
      match take_octet s with
      | Some (b, rest) =>
          if ((128 <=? b) && (b <=? 191))%N
          then take_continuation n' (64 * acc + (b - 128))%N rest
          else None
      | None => None
      end
  end.

(** The code point of a sequence of [n] octets, when it is the UTF-8
    encoding of one: shortest form, no surrogate, at most U+10FFFF. *)
Definition utf8_valid (n : nat) (v : N) : bool :=
  match n with
  | 2%nat => (128 <=? v)%N
  | 3%nat => ((2048 <=? v) && negb ((55296 <=? v) && (v <=? 57343)))%N
  | 4%nat => ((65536 <=? v) && (v <=? 1114111))%N
  | _ => false
  end.

Definition utf16_encode (v : N) : jsstring :=
  (if v <? 65536 then [v]
   else [55296 + (v - 65536) / 1024; 56320 + (v - 65536) mod 1024])%N.

Fixpoint decode_loop (fuel : nat) (s : jsstring) : option jsstring :=
  match s with
  | [] => Some []
  | c :: s' =>
      match fuel with
      | O => None
      | S fuel' =>
          if (c =? 37)%N then
            match take_octet s with
            | None => None
            | Some (b, rest) =>
                if (b <? 128)%N then cons b <$> decode_loop fuel' rest
                else
                  let n := if (b <? 192)%N then 1%nat else if (b <? 224)%N then 2%nat
                           else if (b <? 240)%N then 3%nat else if (b <? 248)%N then 4%nat
                           else 5%nat in
                  let lead := (if (b <? 224) then b - 192 else if (b <? 240) then b - 224
                               else b - 240)%N in
                  if (n =? 1)%nat || (4 <? n)%nat then None
                  else match take_continuation (n - 1) lead rest with
                       | None => None
                       | Some (v, rest') =>
                           if utf8_valid n v
                           then app (utf16_encode v) <$> decode_loop fuel' rest'
                           else None
                       end
            end
          else cons c <$> decode_loop fuel' s'
      end
  end.

(** [decodeURIComponent(s)]; [None] is the [URIError] it throws.  Every turn
    of the loop consumes a code unit, so the length of [s] is fuel enough. *)
Definition decodeURIComponent (s : jsstring) : option jsstring :=
  decode_loop (length s) s.

End JS.

Import JS.

(** ** The sanitizers *)

Module ProductReadService.

Section Sanitizers.

(** [JSON.parse]; [None] is the [SyntaxError] it throws. *)
Context (JSON_parse : jsstring -> option value).

(** The class of the third [replace] of the tag cleaner: braces, parentheses,
    brackets, bar, at sign, exclamation mark, angle brackets, back quote,
    single quote, backslash and (code unit 34) the double quote. *)
Definition dangerous : jsstring := lit "{}()[]|@!<>`'\" ++ [34%N].

Definition clean_tag (tag : value) : jsstring :=
  match tag with
  | VStr s =>
      let clean := default s (decodeURIComponent s) in
      let clean := strip_upto_param (lit "keyword=") (strip_upto_param (lit "q=") clean) in
      let clean := blank_class dangerous clean in
      collapse_spaces (trim clean)
  | _ => []
  end.

(** Step 1 of [cleanSystemTags]: the input as a list of candidates. *)
Definition normalize_tags (inputTags : value) : list value :=
  match inputTags with
  | VArr l => l
  | VStr s =>
      match JSON_parse s with
      | Some (VArr l) => l
      | Some _ => []
      | None => map VStr (split_on 44%N s)
      end
  | _ => []
  end.

Definition keep_tag (t : jsstring) : bool := (0 <? length t)%nat && (length t <? 50)%nat.

Definition cleanedTags (inputTags : value) : list jsstring :=
  List.filter keep_tag (map clean_tag (normalize_tags inputTags)).

(** The tags that [cleanSystemTags] joins. *)
Definition cleanTagList (inputTags : value) : list jsstring :=
  match normalize_tags inputTags with
  | [] => []
  | _ => array_from_set (cleanedTags inputTags)
  end.

Definition cleanSystemTags (inputTags : value) : jsstring :=
  match normalize_tags inputTags with
  | [] => []
  | _ => join (lit ",") (array_from_set (cleanedTags inputTags))
  end.

End Sanitizers.

(** The class of [/([^a-zA-Z0-9\s\u00C0-\u1EF9\-])/g], complemented. *)
Definition allowed (c : N) : bool :=
  ((97 <=? c) && (c <=? 122) || (65 <=? c) && (c <=? 90) || (48 <=? c) && (c <=? 57)
   || is_space c || (192 <=? c) && (c <=? 7929) || (c =? 45))%N.

Definition escapeRediSearchText (str : jsstring) : jsstring :=
  trim (flat_map (fun c => if allowed c then [c] else [92%N; c]) str).

(** The class of [/[{}\|@*()\\\[\]]/g]. *)
Definition tag_meta : jsstring := lit "{}|@*()\[]".

Definition sanitizeTagKeyword (str : jsstring) : jsstring :=
  collapse_spaces (trim (blank_class tag_meta str)).

(** ** Data of the source store, of the index store and of the read API *)

(** Replies of the Redis client: nil, integer, string or array. *)
Inductive reply := RNil | RInt (z : Z) | RStr (s : jsstring) | RArr (l : list reply).

Fixpoint reply_value (r : reply) : value :=
  match r with
  | RNil => VNull
  | RInt z => VNum (Int z)
  | RStr s => VStr s
  | RArr l => VArr (map reply_value l)
  end.

(** [String(r)] of a reply; inside an array nil prints as the empty string. *)
Fixpoint reply_toString (r : reply) : jsstring :=
  match r with
  | RNil => lit "null"
  | RInt z => show_int z
  | RStr s => s
  | RArr l =>
      join (lit ",") (map (fun x => match x with RNil => [] | _ => reply_toString x end) l)
  end.

Inductive error :=
| Error (message : jsstring)
| NotFoundException (message : jsstring).

Definition message (e : error) : jsstring :=
  match e with Error m | NotFoundException m => m end.

Record Shop := { city : option jsstring }.

(** A row of the product table with the relation [shop], as far as the
    service reads it. *)
Record Product := {
  id : jsstring;
  name : jsstring;
  slug : jsstring;
  price : number;
  originalPrice : option number;
  salesCount : number;
  rating : number;
  status : jsstring;
  systemTags : value;
  images : value;
  shop : option Shop;
  createdAt : Z
}.

(** What [findMany] gives [syncAllProductsToRedis] under its [select]: the
    columns it lists, among which [createdAt] is not. *)
Record SelectedProduct := {
  sel_id : jsstring;
  sel_name : jsstring;
  sel_price : number;
  sel_salesCount : number;
  sel_status : jsstring;
  sel_slug : jsstring;
  sel_images : value;
  sel_originalPrice : option number;
  sel_systemTags : value;
  sel_rating : number;
  sel_shop : option Shop
}.

Definition select_for_sync (p : Product) : SelectedProduct :=
  {| sel_id := id p; sel_name := name p; sel_price := price p;
     sel_salesCount := salesCount p; sel_status := status p; sel_slug := slug p;
     sel_images := images p; sel_originalPrice := originalPrice p;
     sel_systemTags := systemTags p; sel_rating := rating p; sel_shop := shop p |}.

(** The request of [findAllPublic]; [rating_floor] is its field [rating]
    (the name is taken by the rating of a product). *)
Record FindAllPublicDto := {
  page : option number;
  limit : option number;
  search : option jsstring;
  categoryId : option jsstring;
  categorySlug : option jsstring;
  brandId : option number;
  minPrice : option number;
  maxPrice : option number;
  rating_floor : option number;
  sort : option jsstring;
  tag : option jsstring;
  locations : option (list jsstring)
}.

(** [Prisma.ProductWhereInput] as [findAllPublic] fills it. *)
Record PriceFilter := { gte : option number; lte : option number }.

Record ProductWhereInput := {
  where_status : jsstring;
  where_OR_contains : option jsstring;
  where_price : option PriceFilter;
  where_rating_gte : option number;
  where_shop_city_in : option (list jsstring);
  where_systemTags_contains : option jsstring
}.

Inductive OrderBy := SalesCountDesc | PriceAsc | PriceDesc | CreatedAtDesc.

(** An item of a result page: a JSON mirror payload of the index, or a row of
    the source store with the fields [findAllPublic] overwrites. *)
Record PublicProduct := {
  row : Product;
  pp_price : number;
  pp_originalPrice : number;
  pp_location : value;
  pp_images : value
}.

Inductive Item := FromIndex (payload : value) | FromSource (p : PublicProduct).

Record Meta := { total : value; meta_page : number; meta_limit : number; last_page : number }.

Record Page := { data : list Item; meta : Meta }.

(** The joined record of [findOnePublic] and what it maps it to. *)
Record Seller := { seller_name : jsstring; seller_id : jsstring; avatar : option jsstring }.
Record OptionValue := { ov_value : jsstring; ov_image : option jsstring }.
Record ProductOption := { opt_name : jsstring; opt_values : list OptionValue }.
Record Variant := {
  v_price : number; v_stock : number; sku : option jsstring;
  v_image : option jsstring; tierIndex : value
}.

Record ProductDetail := {
  product : Product;
  sellerId : option jsstring;
  detail_categoryId : option jsstring;
  seller : option Seller;
  options : list ProductOption;
  variants : list Variant
}.

Record Tier := { tier_name : jsstring; tier_options : list jsstring; tier_images : list jsstring }.

Record Variation := {
  variant : Variant; var_price : number; var_stock : number;
  var_sku : option jsstring; imageUrl : option jsstring; var_tierIndex : list value
}.

Record MappedProduct := {
  detail : ProductDetail;
  mapped_sellerId : option jsstring;
  mapped_categoryId : option jsstring;
  mapped_price : number;
  regularPrice : option number;
  tiers : list Tier;
  variations : list Variation
}.

(** A queued command of a pipeline. *)
Inductive queued :=
| Q_HSET (key : jsstring) (fields : list (jsstring * value))
| Q_SUGADD (key text score payload : jsstring).

(** ** Calls to the collaborators, and programs that make them *)

(** The calls the service makes to the Redis client, to Prisma and to the
    detail cache, each with the type of what it resolves to.  [SET_EX] is
    [set(key, JSON.stringify(val), 'EX', seconds)] and [GET] reads such a
    value back: the page stands for its JSON text. *)
Inductive command : Type -> Type :=
| FT_INFO (index : jsstring) : command reply
| FT_DROPINDEX (index : jsstring) : command reply
| FT_CREATE (index : jsstring) (args : list jsstring) : command reply
| FT_SEARCH (index query : jsstring) (offset count : number)
            (sortField sortDir : jsstring) : command reply
| FT_SUGADD (key text score payload : jsstring) : command reply
| DEL (key : jsstring) : command reply
| HSET (key : jsstring) (fields : list (jsstring * value)) : command reply
| SET_EX (key : jsstring) (val : Page) (seconds : Z) : command reply
| GET (key : jsstring) : command (option Page)
| PIPELINE_EXEC (cmds : list queued) : command reply
| Product_findMany_select (where_status : jsstring) : command (list SelectedProduct)
| Product_findUnique (id : jsstring) : command (option Product)
| Product_findMany (w : ProductWhereInput) (take skip : number) (o : OrderBy)
  : command (list Product)
| Product_count (w : ProductWhereInput) : command number
| Product_findFirst (idOrSlug : jsstring) : command (option ProductDetail)
| Cache_getProductDetail (idOrSlug : jsstring) : command (option MappedProduct)
| Cache_setProductDetail (id slug : jsstring) (p : MappedProduct) : command unit.

(** How an awaited promise settles. *)
Inductive settled (R : Type) := Rejected (e : error) | Resolved (r : R).
Arguments Rejected {R} e.
Arguments Resolved {R} r.

Inductive level := LOG | WARN | ERROR.

(** An asynchronous method: it returns, throws, logs and goes on, or awaits a
    call and goes on with how it settled. *)
Inductive prog (A : Type) : Type :=
| Ret (a : A)
| Throw (e : error)
| Log (lvl : level) (msg : jsstring) (k : prog A)
| Await {R : Type} (c : command R) (k : settled R -> prog A).
Arguments Ret {A} a.
Arguments Throw {A} e.
Arguments Log {A} lvl msg k.
Arguments Await {A R} c k.

Fixpoint bind {A B} (p : prog A) (f : A -> prog B) : prog B :=
  match p with
  | Ret a => f a
  | Throw e => Throw e
  | Log l m k => Log l m (bind k f)
  | Await c k => Await c (fun r => bind (k r) f)
  end.

(** [try { p } catch (e) { h e }]. *)
Fixpoint try_catch {A} (p : prog A) (h : error -> prog A) : prog A :=
  match p with
  | Ret a => Ret a
  | Throw e => h e
  | Log l m k => Log l m (try_catch k h)
  | Await c k => Await c (fun r => try_catch (k r) h)
  end.

(** [await c]: the reply, or the rejection thrown. *)
Definition await {R} (c : command R) : prog R :=
  Await c (fun r => match r with Rejected e => Throw e | Resolved x => Ret x end).

Definition log (lvl : level) (msg : jsstring) : prog unit := Log lvl msg (Ret tt).

#[export] Instance prog_ret : MRet prog := @Ret.
#[export] Instance prog_bind : MBind prog := fun A B f p => bind p f.

(** The collaborators: each call settles and may change the world [W]. *)
Definition handler (W : Type) := forall R, command R -> W -> settled R * W.

Inductive event :=
| EvLog (lvl : level) (msg : jsstring)
| EvCall {R : Type} (c : command R) (r : settled R).

Inductive outcome (A : Type) := Returned (a : A) | Raised (e : error).
Arguments Returned {A} a.
Arguments Raised {A} e.

Record run_result (W A : Type) := { out : outcome A; world : W; trace : list event }.
Arguments out {W A} r.
Arguments world {W A} r.
Arguments trace {W A} r.

Fixpoint run {W A} (h : handler W) (p : prog A) (w : W) : run_result W A :=
  match p with
  | Ret a => {| out := Returned a; world := w; trace := [] |}
  | Throw e => {| out := Raised e; world := w; trace := [] |}
  | Log l m k =>
      let r := run h k w in
      {| out := out r; world := world r; trace := EvLog l m :: trace r |}
  | Await c k =>
      let s := h _ c w in
      let r := run h (k (fst s)) (snd s) in
      {| out := out r; world := world r; trace := EvCall c (fst s) :: trace r |}
  end.

(** ** The service *)

Definition SUGGESTION_KEY : jsstring := lit "sug:products".
Definition INDEX_NAME : jsstring := lit "idx:products".

Definition nonempty {A} (l : list A) : bool := match l with [] => false | _ => true end.

(** Truthiness of optional fields of the request. *)
Definition str_truthy (o : option jsstring) : bool :=
  match o with Some s => nonempty s | None => false end.
Definition opt_num_truthy (o : option number) : bool :=
  match o with Some n => num_truthy n | None => false end.
Definition has_locations (o : option (list jsstring)) : bool :=
  match o with Some l => nonempty l | None => false end.

Definition error_toString (e : error) : jsstring :=
  match e with
  | Error m => lit "Error: " ++ m
  | NotFoundException m => lit "NotFoundException: " ++ m
  end.

Definition city_value (s : option Shop) : value :=
  match s with
  | None => VUndefined
  | Some sh => match city sh with None => VNull | Some c => VStr c end
  end.

(** [p.shop?.city ? sanitizeTagKeyword(p.shop.city) : 'Khac']. *)
Definition location_of (s : option Shop) : jsstring :=
  match s with
  | Some {| city := Some c |} => if nonempty c then sanitizeTagKeyword c else lit "Khac"
  | _ => lit "Khac"
  end.

(** [Array.isArray(images) && images.length > 0 ? images[0] : '']. *)
Definition first_image (images : value) : value :=
  match images with
  | VArr (x :: _) => x
  | _ => VStr []
  end.

Definition stringify (v : value) : jsstring := default [] (JSON_stringify v).

Section Service.

Context (JSON_parse : jsstring -> option value).
(** [createHash('md5').update(JSON.stringify(query)).digest('hex')]. *)
Context (queryHash : FindAllPublicDto -> jsstring).
(** The number a string converts to. *)
Context (String_toNumber : jsstring -> number).

(** *** Full Sync and Incremental Sync *)

Definition frontendJson (id name slug : jsstring) (price : number)
    (originalPrice : option number) (image : value) (salesCount : number)
    (shop : option Shop) : jsstring :=
  stringify (VObj [
    (lit "id", VStr id);
    (lit "name", VStr name);
    (lit "slug", VStr slug);
    (lit "price", VNum price);
    (lit "originalPrice", VNum (default (Int 0) originalPrice));
    (lit "images", VArr [image]);
    (lit "salesCount", VNum (num_or salesCount (Int 0)));
    (lit "location", city_value shop)]).

Definition suggestion_payload (id slug : jsstring) (price : number) (image : value) : jsstring :=
  stringify (VObj [
    (lit "id", VStr id); (lit "slug", VStr slug);
    (lit "price", VNum price); (lit "image", image)]).

Definition suggestion_score (salesCount : number) : number :=
  if num_gtb salesCount (Int 0) then salesCount else Int 1.

(** The body of the loop of [syncAllProductsToRedis]: the two commands it
    queues for [p].  [p.createdAt] is not selected, so the date is invalid
    and its time is NaN. *)
Definition sync_all_item (p : SelectedProduct) : list queued :=
  let key := lit "product:" ++ sel_id p in
  let image := first_image (sel_images p) in
  let tagsString := cleanSystemTags JSON_parse (sel_systemTags p) in
  let location := location_of (sel_shop p) in
  let json := frontendJson (sel_id p) (sel_name p) (sel_slug p) (sel_price p)
                (sel_originalPrice p) image (sel_salesCount p) (sel_shop p) in
  [ Q_HSET key [
      (lit "name", VStr (sel_name p));
      (lit "price", VNum (sel_price p));
      (lit "salesCount", VNum (num_or (sel_salesCount p) (Int 0)));
      (lit "rating", VNum (num_or (sel_rating p) (Int 0)));
      (lit "location", VStr location);
      (lit "status", VStr (sel_status p));
      (lit "id", VStr (sel_id p));
      (lit "slug", VStr (sel_slug p));
      (lit "json", VStr json);
      (lit "systemTags", VStr tagsString);
      (lit "createdAt", VNum NaN)];
    Q_SUGADD SUGGESTION_KEY (sel_name p)
      (num_toString (suggestion_score (sel_salesCount p)))
      (suggestion_payload (sel_id p) (sel_slug p) (sel_price p) image) ].

Definition syncAllProductsToRedis : prog (option number) :=
  try_catch
    (products ← await (Product_findMany_select (lit "ACTIVE"));
     _ ← await (DEL SUGGESTION_KEY);
     _ ← await (PIPELINE_EXEC (flat_map sync_all_item products));
     _ ← log LOG (lit "Synced " ++ show_int (Z.of_nat (length products))
                  ++ lit " products to Redis with CLEANED tags & filters.");
     Ret (Some (Int (Z.of_nat (length products)))))
    (fun e => _ ← log ERROR (lit "Sync Error: " ++ message e); Ret None).

(** The field map [syncProductToRedis] writes for the record it fetched. *)
Definition sync_one_fields (fullProduct : Product) : list (jsstring * value) :=
  let image := first_image (images fullProduct) in
  let tagsString := cleanSystemTags JSON_parse (systemTags fullProduct) in
  let location := location_of (shop fullProduct) in
  let json := frontendJson (id fullProduct) (name fullProduct) (slug fullProduct)
                (price fullProduct) (originalPrice fullProduct) image
                (salesCount fullProduct) (shop fullProduct) in
  [ (lit "name", VStr (name fullProduct));
    (lit "price", VNum (price fullProduct));
    (lit "salesCount", VNum (num_or (salesCount fullProduct) (Int 0)));
    (lit "rating", VNum (num_or (rating fullProduct) (Int 0)));
    (lit "location", VStr location);
    (lit "status", VStr (status fullProduct));
    (lit "id", VStr (id fullProduct));
    (lit "slug", VStr (slug fullProduct));
    (lit "json", VStr json);
    (lit "systemTags", VStr tagsString) ].

(** [syncProductToRedis(product)]; only [product.id] is read. *)
Definition syncProductToRedis (product_id : jsstring) : prog unit :=
  fullProduct ← await (Product_findUnique product_id);
  match fullProduct with
  | None => Ret tt
  | Some fullProduct =>
      let key := lit "product:" ++ id fullProduct in
      let image := first_image (images fullProduct) in
      _ ← await (HSET key (sync_one_fields fullProduct));
      _ ← await (FT_SUGADD SUGGESTION_KEY (name fullProduct)
                  (num_toString (suggestion_score (salesCount fullProduct)))
                  (suggestion_payload (id fullProduct) (slug fullProduct)
                     (price fullProduct) image));
      Ret tt
  end.

(** *** The index schema manager *)

Definition SCHEMA : list jsstring :=
  map lit ["ON"; "HASH"; "PREFIX"; "1"; "product:"; "SCHEMA";
           "name"; "TEXT"; "WEIGHT"; "5.0"; "SORTABLE";
           "slug"; "TEXT"; "NOSTEM";
           "price"; "NUMERIC"; "SORTABLE";
           "salesCount"; "NUMERIC"; "SORTABLE";
           "rating"; "NUMERIC"; "SORTABLE";
           "location"; "TAG";
           "status"; "TAG";
           "systemTags"; "TAG"]%string.

Definition createSearchIndex : prog unit :=
  try_catch
    (_ ← await (FT_CREATE INDEX_NAME SCHEMA);
     _ ← log LOG ([9989%N] ++ lit " RediSearch Index created");
     _ ← log LOG ([55357%N; 56580%N] ++ lit " Auto-syncing products to Redis...");
     _ ← syncAllProductsToRedis;
     Ret tt)
    (fun e =>
       if negb (includes (lit "already exists") (message e))
       then log ERROR (lit "Create Index Error: " ++ message e)
       else Ret tt).

Definition reply_truthy (r : reply) : bool :=
  match r with
  | RNil => false
  | RInt z => negb (z =? 0)%Z
  | RStr s => nonempty s
  | RArr _ => true
  end.

Definition ensureSearchIndex : prog unit :=
  try_catch
    (info ← Await (FT_INFO INDEX_NAME)
              (fun r => match r with Rejected _ => Ret RNil | Resolved x => Ret x end);
     if negb (reply_truthy info) then
       _ ← log WARN ([9888%N; 65039%N] ++ lit " Index not found. Creating new Index...");
       createSearchIndex
     else
       let infoStr := stringify (reply_value info) in
       if negb (includes (lit "rating") infoStr) || negb (includes (lit "location") infoStr)
       then
         _ ← log WARN ([9888%N; 65039%N] ++
                lit " Old Index Schema detected (Missing rating/location). Re-creating index...");
         _ ← await (FT_DROPINDEX INDEX_NAME);
         createSearchIndex
       else log LOG ([9989%N] ++ lit " Index check passed. Ready to search."))
    (fun e => log ERROR (lit "Ensure Index Error: " ++ message e)).

Definition onModuleInit : prog unit := ensureSearchIndex.

(** *** The query planner *)

Definition searchKeyword (query : FindAllPublicDto) : jsstring :=
  match search query with
  | Some s => if nonempty s then trim s else []
  | None => []
  end.

Definition shouldUseRedis (query : FindAllPublicDto) : bool :=
  (0 <? length (searchKeyword query))%nat
  || str_truthy (tag query)
  || opt_num_truthy (minPrice query)
  || opt_num_truthy (maxPrice query)
  || opt_num_truthy (rating_floor query)
  || has_locations (locations query).

(** The text clause, as the list [conditions] holds it. *)
Definition text_conditions (query : FindAllPublicDto) : list jsstring :=
  let searchKeyword := searchKeyword query in
  if nonempty searchKeyword then
    let cleanName := escapeRediSearchText searchKeyword in
    if nonempty cleanName then
      let nameTokens :=
        join (lit " ") (map (fun t => t ++ lit "*") (split_spaces cleanName)) in
      [ lit "(@name:(" ++ nameTokens ++ lit ") | @systemTags:{"
          ++ sanitizeTagKeyword searchKeyword ++ lit "})" ]
    else []
  else [].

Definition tag_clause (query : FindAllPublicDto) : jsstring :=
  match tag query with
  | Some t => if nonempty t then lit " @systemTags:{" ++ sanitizeTagKeyword t ++ lit "}" else []
  | None => []
  end.

Definition location_clause (query : FindAllPublicDto) : jsstring :=
  match locations query with
  | Some l =>
      if nonempty l
      then lit " @location:{" ++ join (lit " | ") (map sanitizeTagKeyword l) ++ lit "}"
      else []
  | None => []
  end.

Definition price_clause (query : FindAllPublicDto) : jsstring :=
  match minPrice query, maxPrice query with
  | None, None => []
  | lo, hi =>
      lit " @price:[" ++ num_toString (default NegInf lo) ++ lit " "
        ++ num_toString (default PosInf hi) ++ lit "]"
  end.

Definition rating_clause (query : FindAllPublicDto) : jsstring :=
  match rating_floor query with
  | Some r => if num_truthy r then lit " @rating:[" ++ num_toString r ++ lit " +inf]" else []
  | None => []
  end.

(** The query string [ftQuery] that the index path sends. *)
Definition build_ftQuery (query : FindAllPublicDto) : jsstring :=
  let ftQuery := lit "@status:{ACTIVE}" in
  let conditions := text_conditions query in
  let ftQuery :=
    if nonempty conditions then ftQuery ++ lit " " ++ join (lit " ") conditions else ftQuery in
  ftQuery ++ tag_clause query ++ location_clause query ++ price_clause query
    ++ rating_clause query.

Definition sort_is (query : FindAllPublicDto) (key : string) : bool :=
  match sort query with Some s => str_eqb s (lit key) | None => false end.

Definition sortField (query : FindAllPublicDto) : jsstring :=
  if sort_is query "price_desc" then lit "price"
  else if sort_is query "price_asc" then lit "price" else lit "salesCount".

Definition sortDir (query : FindAllPublicDto) : jsstring :=
  if sort_is query "price_desc" then lit "DESC"
  else if sort_is query "price_asc" then lit "ASC" else lit "DESC".

Definition TypeError_null : error :=
  Error (lit "Cannot read properties of null (reading '0')").
Definition SyntaxError : error := Error (lit "Unexpected token in JSON").

(** The indexed elements of a reply that has a length. *)
Definition reply_elements (r : reply) : option (list reply) :=
  match r with
  | RArr l => Some l
  | RStr s => Some (map (fun c => RStr [c]) s)
  | _ => None
  end.

Fixpoint array_indexOf_json (f : list reply) : option nat :=
  match f with
  | [] => None
  | RStr s :: f' => if str_eqb s (lit "json") then Some 0%nat else S <$> array_indexOf_json f'
  | _ :: f' => S <$> array_indexOf_json f'
  end.

Fixpoint string_indexOf (p s : jsstring) : option nat :=
  match starts_with p s with
  | Some _ => Some 0%nat
  | None => match s with
            | [] => None
            | _ :: s' => S <$> string_indexOf p s'
            end
  end.

(** [indexOf('json') + 1]: 0 when there is no such entry. *)
Definition after_indexOf (i : option nat) : nat :=
  match i with Some i => S i | None => 0%nat end.

Definition parse_payload (jsonStr : option reply) : error + list Item :=
  match jsonStr with
  | Some j =>
      if reply_truthy j
      then match JSON_parse (reply_toString j) with
           | Some v => inr [FromIndex v]
           | None => inl SyntaxError
           end
      else inr []
  | None => inr []
  end.

(** One turn of the loop over the reply, for [fields = searchRes[i + 1]]. *)
Definition parse_fields (fields : option reply) : error + list Item :=
  match fields with
  | Some (RArr f) =>
      if (2 <=? length f)%nat
      then parse_payload (nth_error f (after_indexOf (array_indexOf_json f)))
      else inr []
  | Some (RStr s) =>
      if (2 <=? length s)%nat
      then parse_payload
             ((fun c => RStr [c]) <$> nth_error s (after_indexOf (string_indexOf (lit "json") s)))
      else inr []
  | _ => inr []
  end.

(** The loop, on the elements of the reply from index [i] on. *)
Fixpoint collect_products (l : list reply) : error + list Item :=
  match l with
  | [] => inr []
  | [_] => parse_fields None
  | _ :: fields :: rest =>
      match parse_fields (Some fields) with
      | inl e => inl e
      | inr found =>
          match collect_products rest with
          | inl e => inl e
          | inr more => inr (found ++ more)
          end
      end
  end.

Definition reply_toNumber (r : option reply) : number :=
  match r with
  | None => NaN
  | Some RNil => Int 0
  | Some (RInt z) => Int z
  | Some r => String_toNumber (reply_toString r)
  end.

Definition parse_search_reply (searchRes : reply) (page limit : number) : error + Page :=
  match searchRes with
  | RNil => inl TypeError_null
  | _ =>
      let elements := reply_elements searchRes in
      let total := elements ≫= head in
      match collect_products (drop 1 (default [] elements)) with
      | inl e => inl e
      | inr products =>
          inr {| data := products;
                 meta := {| total := from_option reply_value VUndefined total;
                            meta_page := page; meta_limit := limit;
                            last_page := Math_ceil_div (reply_toNumber total) limit |} |}
      end
  end.

Definition build_where (query : FindAllPublicDto) : ProductWhereInput :=
  {| where_status := lit "ACTIVE";
     where_OR_contains :=
       if nonempty (searchKeyword query) then Some (searchKeyword query) else None;
     where_price :=
       if opt_num_truthy (minPrice query) || opt_num_truthy (maxPrice query)
       then Some {| gte := if opt_num_truthy (minPrice query) then minPrice query else None;
                    lte := if opt_num_truthy (maxPrice query) then maxPrice query else None |}
       else None;
     where_rating_gte :=
       if opt_num_truthy (rating_floor query) then rating_floor query else None;
     where_shop_city_in :=
       if has_locations (locations query) then locations query else None;
     where_systemTags_contains := if str_truthy (tag query) then tag query else None |}.

Definition build_orderBy (query : FindAllPublicDto) : OrderBy :=
  if sort_is query "newest" then CreatedAtDesc
  else if sort_is query "price_desc" then PriceDesc
  else if sort_is query "price_asc" then PriceAsc
  else SalesCountDesc.

Definition to_public (p : Product) : error + PublicProduct :=
  match (match images p with
         | VStr s => match JSON_parse s with Some v => inr v | None => inl SyntaxError end
         | v => inr v
         end) with
  | inl e => inl e
  | inr imgs =>
      inr {| row := p; pp_price := price p;
             pp_originalPrice := default (Int 0) (originalPrice p);
             pp_location := city_value (shop p); pp_images := imgs |}
  end.

Fixpoint map_to_public (ps : list Product) : error + list PublicProduct :=
  match ps with
  | [] => inr []
  | p :: ps' =>
      match to_public p with
      | inl e => inl e
      | inr x => match map_to_public ps' with
                 | inl e => inl e
                 | inr xs => inr (x :: xs)
                 end
      end
  end.

Definition empty_page (page limit : number) : Page :=
  {| data := [];
     meta := {| total := VNum (Int 0); meta_page := page; meta_limit := limit;
                last_page := Int 0 |} |}.

Definition resolved_page (query : FindAllPublicDto) : number :=
  Math_max (Int 1) (num_or (Number_of (page query)) (Int 1)).
Definition resolved_limit (query : FindAllPublicDto) : number :=
  Math_max (Int 1) (num_or (Number_of (limit query)) (Int 20)).
Definition resolved_skip (query : FindAllPublicDto) : number :=
  num_mul (num_sub (resolved_page query) (Int 1)) (resolved_limit query).

Definition cacheKey (query : FindAllPublicDto) : jsstring :=
  lit "search:res:" ++ queryHash query.

(** Step 1: the body of the [try] returns the page of the index; the [catch]
    logs and lets the method go on ([None]). *)
Definition redis_search (query : FindAllPublicDto) : prog (option Page) :=
  if shouldUseRedis query then
    try_catch
      (_ ← log LOG ([55357%N; 56590%N] ++ lit " [Redis] Searching...");
       searchRes ← await (FT_SEARCH INDEX_NAME (build_ftQuery query)
                            (resolved_skip query) (resolved_limit query)
                            (sortField query) (sortDir query));
       match parse_search_reply searchRes (resolved_page query) (resolved_limit query) with
       | inl e => Throw e
       | inr pg => Ret (Some pg)
       end)
      (fun e =>
         _ ← log ERROR ([10060%N] ++ lit " [Redis] Error: " ++ message e
                        ++ lit " -> Fallback to DB");
         Ret None)
  else Ret None.

(** The value step 2 gives [resultData]. *)
Definition source_page (query : FindAllPublicDto) (items : list PublicProduct)
    (total : number) : Page :=
  {| data := map FromSource items;
     meta := {| total := VNum total;
                meta_page := resolved_page query;
                meta_limit := resolved_limit query;
                last_page := Math_ceil_div total (resolved_limit query) |} |}.

(** Step 2: [inl] is the page the [catch] returns, [inr] the new value of
    [resultData].  [Promise.all] starts both queries; it rejects when one of
    them does. *)
Definition db_fallback (query : FindAllPublicDto) (resultData : option Page)
  : prog (Page + option Page) :=
  if match resultData with Some r => negb (nonempty (data r)) | None => true end then
    _ ← log WARN ([9888%N; 65039%N] ++ lit " [DB Fallback] Executing Prisma Query");
    let where_ := build_where query in
    try_catch
      (Await (Product_findMany where_ (resolved_limit query) (resolved_skip query)
                (build_orderBy query))
         (fun found => Await (Product_count where_)
            (fun counted =>
               match found, counted with
               | Rejected e, _ => Throw e
               | _, Rejected e => Throw e
               | Resolved products, Resolved total =>
                   _ ← log LOG ([9989%N] ++ lit " [DB Fallback] Found "
                                ++ num_toString total ++ lit " items");
                   match map_to_public products with
                   | inl e => Throw e
                   | inr items => Ret (inr (Some (source_page query items total)))
                   end
               end)))
      (fun dbErr =>
         _ ← log ERROR ([10060%N] ++ lit " [DB Fallback] Error: " ++ error_toString dbErr);
         Ret (inl (empty_page (resolved_page query) (resolved_limit query))))
  else Ret (inr resultData).

Definition findAllPublic (query : FindAllPublicDto) : prog Page :=
  let resultData : option Page := None in
  returned ← redis_search query;
  match returned with
  | Some pg => Ret pg
  | None =>
      step ← db_fallback query resultData;
      match step with
      | inl pg => Ret pg
      | inr resultData =>
          _ ← match resultData with
              | Some r =>
                  if nonempty (data r) && negb (str_truthy (search query))
                  then _ ← await (SET_EX (cacheKey query) r 60); Ret tt
                  else Ret tt
              | None => Ret tt
              end;
          Ret (default (empty_page (Int 1) (resolved_limit query)) resultData)
      end
  end.

(** *** Detail lookup *)

Definition is_digit (c : N) : bool := ((48 <=? c) && (c <=? 57))%N.

Fixpoint digits_value (acc : Z) (s : jsstring) : Z :=
  match s with
  | c :: s' => if is_digit c then digits_value (10 * acc + Z.of_N (c - 48)) s' else acc
  | [] => acc
  end.

(** [parseInt(s, 10)]. *)
Definition parseInt10 (s : jsstring) : number :=
  let s := trimStart s in
  let signed :=
    match s with
    | 45%N :: s' => (true, s')
    | 43%N :: s' => (false, s')
    | _ => (false, s)
    end in
  match snd signed with
  | c :: _ =>
      if is_digit c
      then Int ((if fst signed then -1 else 1) * digits_value 0 (snd signed))
      else NaN
  | [] => NaN
  end.

Definition safeTierIndex (tierIndex : value) : list value :=
  match tierIndex with
  | VArr l => l
  | VStr s => if nonempty s then map (fun n => VNum (parseInt10 n)) (split_on 44%N s) else []
  | _ => []
  end.

Definition map_detail (p : ProductDetail) : MappedProduct :=
  {| detail := p;
     mapped_sellerId :=
       if str_truthy (sellerId p) then sellerId p else seller_id <$> seller p;
     mapped_categoryId := detail_categoryId p;
     mapped_price := price (product p);
     regularPrice := originalPrice (product p);
     tiers :=
       map (fun opt =>
              {| tier_name := opt_name opt;
                 tier_options := map ov_value (opt_values opt);
                 tier_images :=
                   map (fun v => if str_truthy (ov_image v) then default [] (ov_image v) else [])
                       (opt_values opt) |})
           (options p);
     variations :=
       map (fun v =>
              {| variant := v; var_price := v_price v; var_stock := v_stock v;
                 var_sku := sku v; imageUrl := v_image v;
                 var_tierIndex := safeTierIndex (tierIndex v) |})
           (variants p) |}.

Definition mapped_status (m : MappedProduct) : jsstring := status (product (detail m)).

Definition is_ACTIVE (st : jsstring) : bool := str_eqb st (lit "ACTIVE").

Definition not_found : error :=
  NotFoundException
    (lit "S" ++ [7843%N] ++ lit "n ph" ++ [7849%N] ++ lit "m kh" ++ [244%N] ++ lit "ng t"
     ++ [7891%N] ++ lit "n t" ++ [7841%N] ++ lit "i").

(** [cachedProduct && cachedProduct.status === 'ACTIVE']: the entry that is
    served. *)
Definition active_entry (cachedProduct : option MappedProduct) : option MappedProduct :=
  match cachedProduct with
  | Some c => if is_ACTIVE (mapped_status c) then Some c else None
  | None => None
  end.

Definition findOnePublic (idOrSlug : jsstring) : prog MappedProduct :=
  cachedProduct ← await (Cache_getProductDetail idOrSlug);
  match active_entry cachedProduct with
  | Some c => Ret c
  | None =>
      found ← await (Product_findFirst idOrSlug);
      match found with
      | None => Throw not_found
      | Some p =>
          if negb (is_ACTIVE (status (product p))) then Throw not_found
          else
            let mappedProduct := map_detail p in
            _ ← await (Cache_setProductDetail (id (product p)) (slug (product p))
                         mappedProduct);
            Ret mappedProduct
      end
  end.

End Service.

(** ** The stores *)

(** The state of the index store (hashes, the suggestion dictionary, the
    index and the result cache), of the source store and of the detail
    cache. *)
Record World := {
  redis_up : bool;
  hashes : gmap jsstring (gmap jsstring value);
  suggestions : list (jsstring * jsstring * jsstring);
  index_info : option reply;
  results : gmap jsstring (Page * Z);
  db_up : bool;
  products : list Product;
  product_details : list ProductDetail;
  details : gmap jsstring MappedProduct
}.

Definition connection_closed : error := Error (lit "Connection is closed.").
Definition database_down : error := Error (lit "Can't reach database server").
Definition OK : reply := RStr (lit "OK").

Definition hset (key : jsstring) (fields : list (jsstring * value)) (w : World) : World :=
  {| redis_up := redis_up w;
     hashes := <[key := list_to_map fields ∪ default ∅ (hashes w !! key)]> (hashes w);
     suggestions := suggestions w; index_info := index_info w; results := results w;
     db_up := db_up w; products := products w; product_details := product_details w;
     details := details w |}.

Definition with_suggestions (f : list (jsstring * jsstring * jsstring) ->
                                 list (jsstring * jsstring * jsstring)) (w : World) : World :=
  {| redis_up := redis_up w; hashes := hashes w;
     suggestions := f (suggestions w); index_info := index_info w; results := results w;
     db_up := db_up w; products := products w; product_details := product_details w;
     details := details w |}.

Definition sugadd (text score payload : jsstring) : World -> World :=
  with_suggestions
    (fun l => List.filter (fun e => negb (str_eqb (fst (fst e)) text)) l
              ++ [(text, score, payload)]).

Definition with_index (i : option reply) (w : World) : World :=
  {| redis_up := redis_up w; hashes := hashes w;
     suggestions := suggestions w; index_info := i; results := results w;
     db_up := db_up w; products := products w; product_details := product_details w;
     details := details w |}.

Definition set_result (key : jsstring) (val : Page) (seconds : Z) (w : World) : World :=
  {| redis_up := redis_up w; hashes := hashes w;
     suggestions := suggestions w; index_info := index_info w;
     results := <[key := (val, seconds)]> (results w);
     db_up := db_up w; products := products w; product_details := product_details w;
     details := details w |}.

Definition set_detail (id slug : jsstring) (m : MappedProduct) (w : World) : World :=
  {| redis_up := redis_up w; hashes := hashes w;
     suggestions := suggestions w; index_info := index_info w; results := results w;
     db_up := db_up w; products := products w; product_details := product_details w;
     details := <[slug := m]> (<[id := m]> (details w)) |}.

(** [DEL key]: the key is gone, be it a hash, a cached result or the
    suggestion dictionary. *)
Definition del (key : jsstring) (w : World) : World :=
  {| redis_up := redis_up w; hashes := delete key (hashes w);
     suggestions := if str_eqb key SUGGESTION_KEY then [] else suggestions w;
     index_info := index_info w; results := delete key (results w);
     db_up := db_up w; products := products w; product_details := product_details w;
     details := details w |}.

Definition apply_queued (w : World) (q : queued) : World :=
  match q with
  | Q_HSET key fields => hset key fields w
  | Q_SUGADD _ text score payload => sugadd text score payload w
  end.

(** What [FT.INFO] tells of an index created with [args]. *)
Definition info_of (index : jsstring) (args : list jsstring) : reply :=
  RArr [RStr (lit "index_name"); RStr index; RStr (lit "attributes"); RArr (map RStr args)].

Section Stores.

(** How the index evaluates a query, and how the source store evaluates a
    filter with its ordering and its pagination. *)
Context (ft_search : World -> jsstring -> number -> number -> jsstring -> jsstring -> settled reply).
Context (db_findMany : list Product -> ProductWhereInput -> number -> number -> OrderBy -> list Product).
Context (db_count : list Product -> ProductWhereInput -> number).

Definition on_redis {R} (w : World) (r : settled R * World) : settled R * World :=
  if redis_up w then r else (Rejected connection_closed, w).

Definition on_db {R} (w : World) (r : R) : settled R * World :=
  if db_up w then (Resolved r, w) else (Rejected database_down, w).

Definition by_id_or_slug (k : jsstring) (p : ProductDetail) : bool :=
  str_eqb (id (product p)) k || str_eqb (slug (product p)) k.

Definition stores : handler World :=
  fun R c w =>
    match c in command R return settled R * World with
    | FT_INFO _ =>
        on_redis w (match index_info w with
                    | Some r => Resolved r
                    | None => Rejected (Error (lit "Unknown index name"))
                    end, w)
    | FT_DROPINDEX _ =>
        on_redis w (match index_info w with
                    | Some _ => (Resolved OK, with_index None w)
                    | None => (Rejected (Error (lit "Unknown index name")), w)
                    end)
    | FT_CREATE index args =>
        on_redis w (match index_info w with
                    | Some _ => (Rejected (Error (lit "Index already exists")), w)
                    | None => (Resolved OK, with_index (Some (info_of index args)) w)
                    end)
    | FT_SEARCH _ q offset count sf sd => on_redis w (ft_search w q offset count sf sd, w)
    | FT_SUGADD _ text score payload =>
        on_redis w (Resolved (RInt 1), sugadd text score payload w)
    | DEL key => on_redis w (Resolved (RInt 1), del key w)
    | HSET key fields => on_redis w (Resolved (RInt 1), hset key fields w)
    | SET_EX key val seconds => on_redis w (Resolved OK, set_result key val seconds w)
    | GET key => on_redis w (Resolved (fst <$> results w !! key), w)
    | PIPELINE_EXEC cmds => on_redis w (Resolved (RArr []), fold_left apply_queued cmds w)
    | Product_findMany_select st =>
        on_db w (map select_for_sync (List.filter (fun p => str_eqb (status p) st) (products w)))
    | Product_findUnique k =>
        on_db w (List.find (fun p => str_eqb (id p) k) (products w))
    | Product_findMany wh take skip o => on_db w (db_findMany (products w) wh take skip o)
    | Product_count wh => on_db w (db_count (products w) wh)
    | Product_findFirst k => on_db w (List.find (by_id_or_slug k) (product_details w))
    | Cache_getProductDetail k => on_redis w (Resolved (details w !! k), w)
    | Cache_setProductDetail i sl m => on_redis w (Resolved tt, set_detail i sl m w)
    end.

End Stores.

(** ** The decision rule of the query planner, in words *)

Definition empty_query : FindAllPublicDto :=
  {| page := None; limit := None; search := None; categoryId := None;
     categorySlug := None; brandId := None; minPrice := None; maxPrice := None;
     rating_floor := None; sort := None; tag := None; locations := None |}.

(** The rule as the specification words it: a free-text term that is not
    empty once trimmed, or one of the filters present in the request. *)
Definition index_rule_as_stated (query : FindAllPublicDto) : Prop :=
  (exists s, search query = Some s /\ trim s <> [])
  \/ is_Some (tag query)
  \/ is_Some (minPrice query)
  \/ is_Some (maxPrice query)
  \/ is_Some (rating_floor query)
  \/ (exists l, locations query = Some l /\ l <> []).

(** A numeric filter that counts: a number other than 0 and NaN. *)
Definition effective (o : option number) : Prop :=
  exists n, o = Some n /\ n <> Int 0 /\ n <> NaN.

(** The rule the code follows. *)
Definition index_rule (query : FindAllPublicDto) : Prop :=
  (exists s, search query = Some s /\ trim s <> [])
  \/ (exists t, tag query = Some t /\ t <> [])
  \/ effective (minPrice query)
  \/ effective (maxPrice query)
  \/ effective (rating_floor query)
  \/ (exists l, locations query = Some l /\ l <> []).

(** ** A small shop, for examples *)

Definition shoes : Product :=
  {| id := lit "p1"; name := lit "Running shoes"; slug := lit "running-shoes";
     price := Int 350000; originalPrice := Some (Int 400000); salesCount := Int 12;
     rating := Int 4; status := lit "ACTIVE";
     systemTags := VArr [VStr (lit "shoes"); VStr (lit "sport")];
     images := VArr [VStr (lit "shoes.jpg")];
     shop := Some {| city := Some (lit "Ha Noi") |};
     createdAt := 1700000000000 |}.

(** An index that matches nothing, and a source store that applies no filter. *)
Definition no_match (_ : World) (_ : jsstring) (_ _ : number) (_ _ : jsstring) : settled reply :=
  Resolved (RArr [RInt 0]).
Definition all_rows (ps : list Product) (_ : ProductWhereInput) (_ _ : number) (_ : OrderBy)
  : list Product := ps.
Definition count_rows (ps : list Product) (_ : ProductWhereInput) : number :=
  Int (Z.of_nat (length ps)).

Definition shop_world : World :=
  {| redis_up := true; hashes := ∅; suggestions := []; index_info := None; results := ∅;
     db_up := true; products := [shoes]; product_details := []; details := ∅ |}.

Definition shop_stores : handler World := stores no_match all_rows count_rows.

(** Stand-ins for the parameters: no string is JSON, every request has the
    digest of the request without parameters, no string is a number. *)
Definition no_json (_ : jsstring) : option value := None.
Definition fixed_hash (_ : FindAllPublicDto) : jsstring := lit "99914b932bd37a50b983c5e7c90ae93b".
Definition not_a_number (_ : jsstring) : number := NaN.

(** A request with every kind of filter. *)
Definition sample_query : FindAllPublicDto :=
  {| page := Some (Int 2); limit := None; search := Some (lit "  ao dai (new) | x  ");
     categoryId := None; categorySlug := None; brandId := None;
     minPrice := Some (Int 100000); maxPrice := None; rating_floor := Some (Int 4);
     sort := Some (lit "price_asc"); tag := Some (lit "sale{}");
     locations := Some [lit "Ha Noi"; lit "Da|Nang"] |}.

(** The request for the tag [shoes], and the page [findAllPublic] builds from
    the rows of the source store. *)
Definition tag_query : FindAllPublicDto :=
  {| page := None; limit := None; search := None; categoryId := None;
     categorySlug := None; brandId := None; minPrice := None; maxPrice := None;
     rating_floor := None; sort := None; tag := Some (lit "shoes"); locations := None |}.

Definition public_shoes : PublicProduct :=
  {| row := shoes; pp_price := Int 350000; pp_originalPrice := Int 400000;
     pp_location := VStr (lit "Ha Noi"); pp_images := VArr [VStr (lit "shoes.jpg")] |}.

Definition shoes_page : Page :=
  {| data := [FromSource public_shoes];
     meta := {| total := VNum (Int 1); meta_page := Int 1; meta_limit := Int 20;
                last_page := Int 1 |} |}.

(** The shop while the index store is unreachable. *)
Definition redis_down_world : World :=
  {| redis_up := false; hashes := ∅; suggestions := []; index_info := None; results := ∅;
     db_up := true; products := [shoes]; product_details := []; details := ∅ |}.

(** A page cached a moment ago for the request without parameters, when the
    shoes were cheaper, and the shop with that entry alive in the result
    cache. *)
Definition cached_page : Page :=
  {| data := [FromSource {| row := shoes; pp_price := Int 300000;
                            pp_originalPrice := Int 400000;
                            pp_location := VStr (lit "Ha Noi");
                            pp_images := VArr [VStr (lit "shoes.jpg")] |}];
     meta := {| total := VNum (Int 1); meta_page := Int 1; meta_limit := Int 20;
                last_page := Int 1 |} |}.

Definition cached_world : World :=
  {| redis_up := true; hashes := ∅; suggestions := []; index_info := None;
     results := {[ cacheKey fixed_hash empty_query := (cached_page, 60%Z) ]};
     db_up := true; products := [shoes]; product_details := []; details := ∅ |}.

(** The field names the schema requires, and an index created before
    [systemTags] was added to it. *)
Definition required_fields : list jsstring :=
  map lit ["name"; "slug"; "price"; "salesCount"; "rating"; "location"; "status";
           "systemTags"]%string.

Definition old_schema : list jsstring :=
  map lit ["ON"; "HASH"; "PREFIX"; "1"; "product:"; "SCHEMA";
           "name"; "TEXT"; "WEIGHT"; "5.0"; "SORTABLE";
           "slug"; "TEXT"; "NOSTEM";
           "price"; "NUMERIC"; "SORTABLE";
           "salesCount"; "NUMERIC"; "SORTABLE";
           "rating"; "NUMERIC"; "SORTABLE";
           "location"; "TAG";
           "status"; "TAG"]%string.

Definition old_index_world : World :=
  {| redis_up := true; hashes := ∅; suggestions := [];
     index_info := Some (info_of INDEX_NAME old_schema); results := ∅;
     db_up := true; products := [shoes]; product_details := []; details := ∅ |}.

(** The test of [ensureSearchIndex] on the metadata of an index. *)
Definition stale_schema (info : reply) : bool :=
  let infoStr := stringify (reply_value info) in
  negb (includes (lit "rating") infoStr) || negb (includes (lit "location") infoStr).

(** The detail of the shoes as the source store has it, and a cache that
    still holds the mapped product from the time it was inactive. *)
Definition shoes_detail : ProductDetail :=
  {| product := shoes; sellerId := Some (lit "s1"); detail_categoryId := Some (lit "c1");
     seller := Some {| seller_name := lit "Shoe shop"; seller_id := lit "s1"; avatar := None |};
     options := [{| opt_name := lit "Size";
                    opt_values := [{| ov_value := lit "42"; ov_image := None |}] |}];
     variants := [{| v_price := Int 350000; v_stock := Int 3; sku := Some (lit "SH-42");
                     v_image := None; tierIndex := VStr (lit "0") |}] |}.

Definition inactive (p : Product) : Product :=
  {| id := id p; name := name p; slug := slug p; price := price p;
     originalPrice := originalPrice p; salesCount := salesCount p; rating := rating p;
     status := lit "INACTIVE"; systemTags := systemTags p; images := images p;
     shop := shop p; createdAt := createdAt p |}.

Definition stale_detail : MappedProduct :=
  map_detail {| product := inactive shoes; sellerId := Some (lit "s1");
                detail_categoryId := Some (lit "c1"); seller := None;
                options := []; variants := [] |}.

Definition stale_cache_world : World :=
  {| redis_up := true; hashes := ∅; suggestions := []; index_info := None; results := ∅;
     db_up := true; products := [shoes]; product_details := [shoes_detail];
     details := {[ lit "p1" := stale_detail ]} |}.

(** ** The schema manager, in words *)

Section SchemaManager.
Context (JSON_parse : jsstring -> option value).
Context {W : Type} (h : handler W).

(** [createSearchIndex]: the index is created; if that succeeds, two lines
    are logged and Full Sync runs; if it fails, the error is logged unless it
    says that the index already exists.  Nothing is thrown. *)
Definition index_created (w : W) : run_result W unit :=
  let s := h _ (FT_CREATE INDEX_NAME SCHEMA) w in
  match fst s with
  | Resolved _ =>
      let r := run h (syncAllProductsToRedis JSON_parse) (snd s) in
      {| out := Returned tt; world := world r;
         trace := EvCall (FT_CREATE INDEX_NAME SCHEMA) (fst s)
                  :: EvLog LOG ([9989%N] ++ lit " RediSearch Index created")
                  :: EvLog LOG ([55357%N; 56580%N] ++ lit " Auto-syncing products to Redis...")
                  :: trace r |}
  | Rejected e =>
      {| out := Returned tt; world := snd s;
         trace := EvCall (FT_CREATE INDEX_NAME SCHEMA) (fst s)
                  :: (if includes (lit "already exists") (message e) then []
                      else [EvLog ERROR (lit "Create Index Error: " ++ message e)]) |}
  end.

(** [ensureSearchIndex]: the metadata of the index is asked for; an error or
    an empty reply means that the index is absent, and it is created; metadata
    whose JSON text lacks [rating] or [location] means an old schema, and
    the index is dropped and created (a failed drop is logged); otherwise
    nothing is done.  Nothing is thrown. *)
Definition index_ensured (w : W) : run_result W unit :=
  let s := h _ (FT_INFO INDEX_NAME) w in
  let info := match fst s with Rejected _ => RNil | Resolved x => x end in
  if negb (reply_truthy info) then
    let r := index_created (snd s) in
    {| out := Returned tt; world := world r;
       trace := EvCall (FT_INFO INDEX_NAME) (fst s)
                :: EvLog WARN ([9888%N; 65039%N] ++ lit " Index not found. Creating new Index...")
                :: trace r |}
  else if stale_schema info then
    let d := h _ (FT_DROPINDEX INDEX_NAME) (snd s) in
    let warn := EvLog WARN ([9888%N; 65039%N] ++
      lit " Old Index Schema detected (Missing rating/location). Re-creating index...") in
    match fst d with
    | Resolved _ =>
        let r := index_created (snd d) in
        {| out := Returned tt; world := world r;
           trace := EvCall (FT_INFO INDEX_NAME) (fst s) :: warn
                    :: EvCall (FT_DROPINDEX INDEX_NAME) (fst d) :: trace r |}
    | Rejected e =>
        {| out := Returned tt; world := snd d;
           trace := [EvCall (FT_INFO INDEX_NAME) (fst s); warn;
                     EvCall (FT_DROPINDEX INDEX_NAME) (fst d);
                     EvLog ERROR (lit "Ensure Index Error: " ++ message e)] |}
    end
  else
    {| out := Returned tt; world := snd s;
       trace := [EvCall (FT_INFO INDEX_NAME) (fst s);
                 EvLog LOG ([9989%N] ++ lit " Index check passed. Ready to search.")] |}.

End SchemaManager.

(** ** The index store and the status filter *)

(** The replies of the searches of a trace that succeeded. *)
Definition search_replies (t : list event) : list reply :=
  flat_map (fun ev =>
              match ev with
              | EvCall c r =>
                  match c in command R return settled R -> list reply with
                  | FT_SEARCH _ _ _ _ _ _ =>
                      fun r => match r with Resolved x => [x] | Rejected _ => [] end
                  | _ => fun _ => []
                  end r
              | EvLog _ _ => []
              end) t.

Fixpoint every_other (l : list reply) : list reply :=
  match l with
  | [] => []
  | [k] => [k]
  | k :: _ :: rest => k :: every_other rest
  end.

(** The keys of the documents a reply of [FT.SEARCH] lists: the entries at
    the indices 1, 3, 5, ... that the loop of [findAllPublic] steps over. *)
Definition reply_keys (r : reply) : list reply :=
  match r with
  | RArr (_ :: l) => every_other l
  | _ => []
  end.

(** The status tag of the entry stored under [key], if there is one. *)
Definition entry_status (w : World) (key : jsstring) : option value :=
  (hashes w !! key) ≫= (fun e => e !! lit "status").

(** A value that can stand between the braces of a tag clause: it has none of
    the characters [sanitizeTagKeyword] takes out. *)
Definition tag_value (v : jsstring) : Prop := Forall (fun c => mem_cu c tag_meta = false) v.

(** Escaped free text: a character of the allow-list of
    [escapeRediSearchText] stands as it is, any other one follows a
    backslash. *)
Inductive escaped : jsstring -> Prop :=
| escaped_nil : escaped []
| escaped_plain c s : allowed c = true -> escaped s -> escaped (c :: s)
| escaped_quoted c s : allowed c = false -> escaped s -> escaped (92%N :: c :: s).

(** The inside of the [@name:( )] group: escaped text and prefix stars. *)
Inductive text_body : jsstring -> Prop :=
| body_nil : text_body []
| body_plain c s : allowed c = true -> text_body s -> text_body (c :: s)
| body_star s : text_body s -> text_body (42%N :: s)
| body_quoted c s : allowed c = false -> text_body s -> text_body (92%N :: c :: s).

(** The clauses [findAllPublic] appends to the status filter, each after a
    space and closed on itself. *)
Inductive filter_clause : jsstring -> Prop :=
| text_filter body v :
    text_body body -> tag_value v ->
    filter_clause (lit " (@name:(" ++ body ++ lit ") | @systemTags:{" ++ v ++ lit "})")
| tag_filter v :
    tag_value v -> filter_clause (lit " @systemTags:{" ++ v ++ lit "}")
| location_filter vs :
    Forall tag_value vs ->
    filter_clause (lit " @location:{" ++ join (lit " | ") vs ++ lit "}")
| price_filter lo hi :
    filter_clause (lit " @price:[" ++ num_toString lo ++ lit " " ++ num_toString hi ++ lit "]")
| rating_filter r :
    filter_clause (lit " @rating:[" ++ num_toString r ++ lit " +inf]").

(** What the index store promises for a query that is the status filter
    followed by such clauses (the terms of a query separated by white space
    are intersected): it lists only documents whose status tag is ACTIVE. *)
Definition honours_status_filter
    (ft_search : World -> jsstring -> number -> number -> jsstring -> jsstring -> settled reply)
  : Prop :=
  forall w clauses offset count sf sd r key,
    Forall filter_clause clauses ->
    ft_search w (lit "@status:{ACTIVE}" ++ concat clauses) offset count sf sd = Resolved r ->
    RStr key ∈ reply_keys r ->
    entry_status w key = Some (VStr (lit "ACTIVE")).

(** An index of one document, [product:p1], that evaluates the status filter
    and nothing else. *)
Definition status_only_index (w : World) (q : jsstring) (_ _ : number) (_ _ : jsstring)
  : settled reply :=
  match hashes w !! lit "product:p1" with
  | Some e =>
      match e !! lit "status", e !! lit "json" with
      | Some (VStr st), Some (VStr json) =>
          if is_ACTIVE st
          then Resolved (RArr [RInt 1; RStr (lit "product:p1"); RArr [RStr (lit "json"); RStr json]])
          else Resolved (RArr [RInt 0])
      | _, _ => Resolved (RArr [RInt 0])
      end
  | None => Resolved (RArr [RInt 0])
  end.

(** The shop after the shoes were deactivated, with the entry of the index
    still saying ACTIVE. *)
Definition deactivated_world : World :=
  {| redis_up := true;
     hashes := {[ lit "product:p1" := list_to_map (sync_one_fields no_json shoes) ]};
     suggestions := []; index_info := Some (info_of INDEX_NAME SCHEMA); results := ∅;
     db_up := true; products := [inactive shoes]; product_details := []; details := ∅ |}.

(** The clauses that follow the status filter in [ftQuery]. *)
Definition query_clauses (query : FindAllPublicDto) : list jsstring :=
  List.filter nonempty
    [ match text_conditions query with [] => [] | c => lit " " ++ join (lit " ") c end;
      tag_clause query; location_clause query; price_clause query; rating_clause query ].

(** ** Observing runs *)

(** An item that is a payload of the index. *)
Definition from_index (i : Item) : Prop :=
  match i with FromIndex _ => True | FromSource _ => False end.

(** A page whose items are rows of the source store (and there is one). *)
Definition source_items (l : list Item) : bool :=
  match l with FromSource _ :: _ => true | _ => false end.


(** The run of [p] followed by the run of [rest]. *)
Definition then_run {W A B} (r : run_result W A) (rest : A -> W -> run_result W B)
  : run_result W B :=
  match out r with
  | Returned a =>
      let r' := rest a (world r) in
      {| out := out r'; world := world r'; trace := trace r ++ trace r' |}
  | Raised e => {| out := Raised e; world := world r; trace := trace r |}
  end.

Definition else_run {W A} (r : run_result W A) (rest : error -> W -> run_result W A)
  : run_result W A :=
  match out r with
  | Returned a => r
  | Raised e =>
      let r' := rest e (world r) in
      {| out := out r'; world := world r'; trace := trace r ++ trace r' |}
  end.

Definition is_search (ev : event) : bool :=
  match ev with
  | EvCall c _ => match c with FT_SEARCH _ _ _ _ _ _ => true | _ => false end
  | EvLog _ _ => false
  end.

Definition is_get (ev : event) : bool :=
  match ev with
  | EvCall c _ => match c with GET _ => true | _ => false end
  | EvLog _ _ => false
  end.

(** The [SET] commands issued, each with its key, value and expiry. *)
Definition cache_sets (t : list event) : list (jsstring * Page * Z) :=
  flat_map (fun ev =>
              match ev with
              | EvCall c _ =>
                  match c with SET_EX key val seconds => [(key, val, seconds)] | _ => [] end
              | EvLog _ _ => []
              end) t.

(** The calls of a trace, without the log lines. *)
Definition calls (t : list event) : list event :=
  List.filter (fun ev => match ev with EvCall _ _ => true | EvLog _ _ => false end) t.

End ProductReadService.

(** ** Further observations of runs *)

Module Observe.
Import ProductReadService.

(** The queries of the product table that [findAllPublic] makes for a page:
    the filter and, for [findMany], the window and the order. *)
Definition source_queries (t : list event)
  : list (ProductWhereInput * option (number * number * OrderBy)) :=
  flat_map (fun ev =>
              match ev with
              | EvCall c _ =>
                  match c with
                  | Product_findMany w take skip o => [(w, Some (take, skip, o))]
                  | Product_count w => [(w, None)]
                  | _ => []
                  end
              | EvLog _ _ => []
              end) t.

Definition is_rejected {R} (r : settled R) : bool :=
  match r with Rejected _ => true | Resolved _ => false end.

(** Whether one of those queries was rejected. *)
Definition source_rejected (t : list event) : bool :=
  existsb (fun ev =>
             match ev with
             | EvCall c r =>
                 match c with
                 | Product_findMany _ _ _ _ | Product_count _ => is_rejected r
                 | _ => false
                 end
             | EvLog _ _ => false
             end) t.

(** The errors with which calls were rejected, in the order of the trace. *)
Definition rejections (t : list event) : list error :=
  flat_map (fun ev =>
              match ev with
              | EvCall _ (Rejected e) => [e]
              | _ => []
              end) t.

(** The error lines of the log. *)
Definition error_lines (t : list event) : list jsstring :=
  flat_map (fun ev => match ev with EvLog ERROR m => [m] | _ => [] end) t.

(** The writes of the detail cache: the two keys and the product. *)
Definition detail_writes (t : list event) : list (jsstring * jsstring * MappedProduct) :=
  flat_map (fun ev =>
              match ev with
              | EvCall c _ =>
                  match c with
                  | Cache_setProductDetail i sl m => [(i, sl, m)]
                  | _ => []
                  end
              | EvLog _ _ => []
              end) t.

(** The commands a trace sends to the index store that change it. *)
Definition is_index_write (ev : event) : bool :=
  match ev with
  | EvCall c _ =>
      match c with
      | DEL _ | HSET _ _ | FT_SUGADD _ _ _ _ | PIPELINE_EXEC _ | SET_EX _ _ _
      | FT_CREATE _ _ | FT_DROPINDEX _ => true
      | _ => false
      end
  | EvLog _ _ => false
  end.

Definition is_set (ev : event) : bool :=
  match ev with
  | EvCall c _ => match c with SET_EX _ _ _ => true | _ => false end
  | EvLog _ _ => false
  end.

(** A trace without its writes of the result cache, and the pages and
    expiries of those writes. *)
Definition without_sets (t : list event) : list event :=
  List.filter (fun ev => negb (is_set ev)) t.

Definition set_values (t : list event) : list (Page * Z) :=
  map (fun x => (snd (fst x), snd x)) (cache_sets t).

(** The page of the index for a reply, if the reply gives one. *)
Definition index_page (JSON_parse : jsstring -> option value)
    (String_toNumber : jsstring -> number) (query : FindAllPublicDto)
    (r : settled reply) : option Page :=
  match r with
  | Resolved searchRes =>
      match parse_search_reply JSON_parse String_toNumber searchRes
              (resolved_page query) (resolved_limit query) with
      | inr pg => Some pg
      | inl _ => None
      end
  | Rejected _ => None
  end.

(** The request [query] with other values for its category and its brand. *)
Definition with_category (query : FindAllPublicDto) (categoryId categorySlug : option jsstring)
    (brandId : option number) : FindAllPublicDto :=
  {| page := page query; limit := limit query; search := search query;
     categoryId := categoryId; categorySlug := categorySlug; brandId := brandId;
     minPrice := minPrice query; maxPrice := maxPrice query;
     rating_floor := rating_floor query; sort := sort query; tag := tag query;
     locations := locations query |}.

(** The shop while the source store is unreachable. *)
Definition db_down_world : World :=
  {| redis_up := true; hashes := ∅; suggestions := []; index_info := None; results := ∅;
     db_up := false; products := [shoes]; product_details := []; details := ∅ |}.

(** The run of [findOnePublic] that the detail cache answers with [m]. *)
Definition served_from_cache (k : jsstring) (m : MappedProduct) (w : World)
  : run_result World MappedProduct :=
  {| out := Returned m; world := w;
     trace := [EvCall (Cache_getProductDetail k) (Resolved (Some m))] |}.

(** *** The effect of a pipeline, entry by entry *)

(** The rows Full Sync reads from the source store of [w]. *)
Definition selected_for_sync (w : World) : list SelectedProduct :=
  map select_for_sync (List.filter (fun p => str_eqb (status p) (lit "ACTIVE")) (products w)).

Definition writes_to (k : jsstring) (q : queued) : bool :=
  match q with
  | Q_HSET key _ => str_eqb key k
  | Q_SUGADD _ _ _ _ => false
  end.

(** What a queued command makes of the entry [e] stored under [k]. *)
Definition written (k : jsstring) (e : gmap jsstring value) (q : queued)
  : gmap jsstring value :=
  match q with
  | Q_HSET key fields => if str_eqb key k then list_to_map fields ∪ e else e
  | Q_SUGADD _ _ _ _ => e
  end.

(** What it makes of the suggestion dictionary. *)
Definition suggested (l : list (jsstring * jsstring * jsstring)) (q : queued)
  : list (jsstring * jsstring * jsstring) :=
  match q with
  | Q_HSET _ _ => l
  | Q_SUGADD _ text score payload =>
      List.filter (fun e => negb (str_eqb (fst (fst e)) text)) l ++ [(text, score, payload)]
  end.

(** The shop with the entry of a product that the source store no longer
    has. *)
Definition stale_entry_world : World :=
  {| redis_up := true;
     hashes := {[ lit "product:gone" := {[ lit "status" := VStr (lit "ACTIVE") ]} ]};
     suggestions := [(lit "Old hat", lit "1", lit "{}")]; index_info := None; results := ∅;
     db_up := true; products := [shoes]; product_details := []; details := ∅ |}.

(** *** Reading escaped text back *)

(** The text a query parser reads from escaped text: a backslash gives the
    code unit after it. *)
Fixpoint unescape (s : jsstring) : jsstring :=
  match s with
  | [] => []
  | c :: s' =>
      if (c =? 92)%N
      then match s' with
           | d :: s'' => d :: unescape s''
           | [] => [c]
           end
      else c :: unescape s'
  end.

(** White space that is single ASCII spaces: [after_space] tells that the
    code unit before was one. *)
Fixpoint single_spaced (after_space : bool) (s : jsstring) : bool :=
  match s with
  | [] => true
  | c :: s' =>
      if is_space c
      then (c =? 32)%N && negb after_space && single_spaced true s'
      else single_spaced false s'
  end.

(** A token of the name clause: not empty, without white space. *)
Definition word_token (t : jsstring) : Prop :=
  t <> [] /\ Forall (fun c => is_space c = false) t.

(** The code units of a tag keyword that carry its words. *)
Definition word_unit (c : N) : bool := negb (is_space c) && negb (mem_cu c tag_meta).

End Observe.

(** ** Suggestions, bought-together and the personalized feed *)

Module OtherReads.
Import ProductReadService.

(** [a + b] on numbers. *)
Definition num_add (a b : number) : number :=
  match a, b with
  | NaN, _ | _, NaN => NaN
  | PosInf, NegInf | NegInf, PosInf => NaN
  | PosInf, _ | _, PosInf => PosInf
  | NegInf, _ | _, NegInf => NegInf
  | Int x, Int y => Int (x + y)
  end.

(** A row of the product table with its stock. *)
Record StockedProduct := { stocked : Product; stock : number }.

(** An item of [searchSuggestions]. *)
Record Suggestion := {
  sg_id : value; sg_name : value; sg_price : value; sg_slug : value; sg_images : list value
}.

(** The value of [findBoughtTogether]: what [JSON.parse] made of the cached
    text, or the rows it found. *)
Inductive BoughtTogether :=
| FromCache (v : value)
| FromOrders (rows : list StockedProduct).

Record Feed := {
  feed_data : list value; feed_page : number; feed_limit : number; feed_total : number
}.

(** The calls of these methods: to the Redis client ([GET] of a text, [SET]
    of [JSON.stringify] of rows with an expiry, [ZREVRANGE], [FT.SUGGET]), to
    Prisma and to the product cache. *)
Inductive call : Type -> Type :=
| FT_SUGGET (key prefix : jsstring) (options : list jsstring) : call reply
| GET_text (key : jsstring) : call (option jsstring)
| SET_rows_EX (key : jsstring) (rows : list StockedProduct) (seconds : Z) : call reply
| ZREVRANGE (key : jsstring) (start stop : number) : call (list jsstring)
| OrderItem_findMany (productId : jsstring) (take : Z) : call (list jsstring)
| OrderItem_groupBy (orderIds : list jsstring) (not_productId : jsstring) (take : Z)
  : call (list (option jsstring))
| Product_findMany_in (ids : list jsstring) (status : jsstring) : call (list StockedProduct)
| Cache_getProductsByIds (ids : list jsstring) : call (list value).

(** An asynchronous method over these calls. *)
Inductive task (A : Type) : Type :=
| Done (a : A)
| Fail (e : error)
| Call {R : Type} (c : call R) (k : settled R -> task A).
Arguments Done {A} a.
Arguments Fail {A} e.
Arguments Call {A R} c k.

Fixpoint task_bind {A B} (p : task A) (f : A -> task B) : task B :=
  match p with
  | Done a => f a
  | Fail e => Fail e
  | Call c k => Call c (fun r => task_bind (k r) f)
  end.

Fixpoint task_catch {A} (p : task A) (h : error -> task A) : task A :=
  match p with
  | Done a => Done a
  | Fail e => h e
  | Call c k => Call c (fun r => task_catch (k r) h)
  end.

Definition ask {R} (c : call R) : task R :=
  Call c (fun r => match r with Rejected e => Fail e | Resolved x => Done x end).

#[export] Instance task_ret : MRet task := @Done.
#[export] Instance task_mbind : MBind task := fun A B f p => task_bind p f.

Definition oracle (W : Type) := forall R, call R -> W -> settled R * W.

Inductive asked :=
| Asked {R : Type} (c : call R) (r : settled R).

Record played (W A : Type) := { result : outcome A; after : W; asks : list asked }.
Arguments result {W A} p.
Arguments after {W A} p.
Arguments asks {W A} p.

Fixpoint play {W A} (o : oracle W) (p : task A) (w : W) : played W A :=
  match p with
  | Done a => {| result := Returned a; after := w; asks := [] |}
  | Fail e => {| result := Raised e; after := w; asks := [] |}
  | Call c k =>
      let s := o _ c w in
      let r := play o (k (fst s)) (snd s) in
      {| result := result r; after := after r; asks := Asked c (fst s) :: asks r |}
  end.

Definition TypeError_length : error :=
  Error (lit "Cannot read properties of null (reading 'length')").
Definition TypeError_id : error :=
  Error (lit "Cannot read properties of null (reading 'id')").

(** [data.k] of a value that is not null: the last entry of that name of an
    object, undefined otherwise. *)
Definition property (k : string) (data : value) : value :=
  match data with
  | VObj l =>
      default VUndefined
        (snd <$> last (List.filter (fun kv => str_eqb (fst kv) (lit k)) l))
  | _ => VUndefined
  end.

Section Reads.

Context (JSON_parse : jsstring -> option value).

(** The object pushed for [name] and the parsed payload [data]; reading a
    property of null throws. *)
Definition suggestion_of (name : reply) (data : value) : error + Suggestion :=
  match data with
  | VNull | VUndefined => inl TypeError_id
  | _ =>
      inr {| sg_id := property "id" data; sg_name := reply_value name;
             sg_price := property "price" data; sg_slug := property "slug" data;
             sg_images := [property "image" data] |}
  end.

(** The loop of [searchSuggestions], on the elements of the reply from
    index [i] on. *)
Fixpoint collect_suggestions (l : list reply) : error + list Suggestion :=
  match l with
  | [] => inr []
  | [_] => inr []
  | name :: payloadStr :: rest =>
      if reply_truthy payloadStr then
        match JSON_parse (reply_toString payloadStr) with
        | None => inl SyntaxError
        | Some data =>
            match suggestion_of name data with
            | inl e => inl e
            | inr s =>
                match collect_suggestions rest with
                | inl e => inl e
                | inr more => inr (s :: more)
                end
            end
        end
      else collect_suggestions rest
  end.

Definition SUGGET_OPTIONS : list jsstring := map lit ["FUZZY"; "MAX"; "6"; "WITHPAYLOADS"]%string.

(** [!keyword || keyword.length < 2]. *)
Definition too_short (keyword : option jsstring) : bool :=
  negb (str_truthy keyword) || (length (default [] keyword) <? 2)%nat.

Definition searchSuggestions (keyword : option jsstring) : task (list Suggestion) :=
  if too_short keyword then Done []
  else
    task_catch
      (suggestions ← ask (FT_SUGGET SUGGESTION_KEY (default [] keyword) SUGGET_OPTIONS);
       match suggestions with
       | RNil => Fail TypeError_length
       | _ =>
           match collect_suggestions (default [] (reply_elements suggestions)) with
           | inl e => Fail e
           | inr result => Done result
           end
       end)
      (fun _ => Done []).

(** [p.status === 'ACTIVE' && p.stock > 0]. *)
Definition in_stock (p : StockedProduct) : bool :=
  is_ACTIVE (status (stocked p)) && num_gtb (stock p) (Int 0).

Definition bought_together_key (productId : jsstring) : jsstring :=
  lit "product:bought_together:" ++ productId.

Definition findBoughtTogether (productId : jsstring) : task BoughtTogether :=
  let cacheKey := bought_together_key productId in
  cachedData ← ask (GET_text cacheKey);
  if str_truthy cachedData then
    match JSON_parse (default [] cachedData) with
    | Some v => Done (FromCache v)
    | None => Fail SyntaxError
    end
  else
    orderIds ← ask (OrderItem_findMany productId 50);
    if negb (nonempty orderIds) then Done (FromOrders [])
    else
      relatedItems ← ask (OrderItem_groupBy orderIds productId 6);
      let relatedIds := omap (fun x : option jsstring => x) relatedItems in
      if nonempty relatedIds then
        products ← ask (Product_findMany_in relatedIds (lit "ACTIVE"));
        let activeProducts := List.filter in_stock products in
        _ ← ask (SET_rows_EX cacheKey activeProducts 86400);
        Done (FromOrders activeProducts)
      else Done (FromOrders []).

End Reads.

Definition feed_start (page limit : number) : number := num_mul (num_sub page (Int 1)) limit.
Definition feed_stop (page limit : number) : number :=
  num_sub (num_add (feed_start page limit) limit) (Int 1).

Definition getPersonalizedFeed (userId : jsstring) (page limit : number) : task Feed :=
  let trackingKey := lit "user:affinity:" ++ userId in
  let start := feed_start page limit in
  let stop := feed_stop page limit in
  productIds ← ask (ZREVRANGE trackingKey start stop);
  productIds ← (if negb (nonempty productIds)
                then ask (ZREVRANGE (lit "global:trending") start stop)
                else Done productIds);
  products ← ask (Cache_getProductsByIds productIds);
  Done {| feed_data := products; feed_page := page; feed_limit := limit;
          feed_total := Int 100 |}.

(** *** Observing these runs *)

(** The writes of the bought-together cache: key, rows and expiry. *)
Definition row_sets (t : list asked) : list (jsstring * list StockedProduct * Z) :=
  flat_map (fun a =>
              match a with
              | Asked c _ =>
                  match c with
                  | SET_rows_EX key rows seconds => [(key, rows, seconds)]
                  | _ => []
                  end
              end) t.

(** The ranges of sorted sets that were read: key, first and last rank. *)
Definition ranges (t : list asked) : list (jsstring * number * number) :=
  flat_map (fun a =>
              match a with
              | Asked c _ =>
                  match c with
                  | ZREVRANGE key start stop => [(key, start, stop)]
                  | _ => []
                  end
              end) t.

(** The calls to Prisma. *)
Definition is_source_call (a : asked) : bool :=
  match a with
  | Asked c _ =>
      match c with
      | OrderItem_findMany _ _ | OrderItem_groupBy _ _ _ | Product_findMany_in _ _ => true
      | _ => false
      end
  end.

(** The rejection of the last call, if it was rejected. *)
Definition last_rejection (t : list asked) : option error :=
  match last t with
  | Some (Asked _ (Rejected e)) => Some e
  | _ => None
  end.

(** The names at the even indices of a reply of [FT.SUGGET]. *)
Fixpoint names_of (l : list reply) : list value :=
  match l with
  | [] => []
  | [_] => []
  | name :: _ :: rest => reply_value name :: names_of rest
  end.

End OtherReads.

(** ** Facts about the string operations *)

Module JSFacts.

Lemma trimStart_head s : head_nonspace (trimStart s).
Proof.
  induction s as [|c s IH]; simpl; [exact I|].
  destruct (is_space c) eqn:E; [exact IH | exact E].
Qed.

Lemma trimStart_fix s : head_nonspace s -> trimStart s = s.
Proof. destruct s as [|c s]; simpl; [reflexivity | intros ->; reflexivity]. Qed.

Lemma trimStart_snoc l c :
  is_space c = false -> trimStart (l ++ [c]) = trimStart l ++ [c].
Proof.
  intros Hc. induction l as [|a l IH]; simpl.
  - rewrite Hc. reflexivity.
  - destruct (is_space a); [exact IH | reflexivity].
Qed.

Lemma trimEnd_cons c s :
  is_space c = false -> trimEnd (c :: s) = c :: trimEnd s.
Proof.
  intros Hc. unfold trimEnd. simpl rev.
  rewrite trimStart_snoc by exact Hc.
  rewrite rev_app_distr. reflexivity.
Qed.

Lemma trimEnd_fix s : head_nonspace (rev s) -> trimEnd s = s.
Proof.
  intros H. unfold trimEnd. rewrite trimStart_fix by exact H. apply rev_involutive.
Qed.

Lemma trimEnd_last s : head_nonspace (rev (trimEnd s)).
Proof. unfold trimEnd. rewrite rev_involutive. apply trimStart_head. Qed.

Lemma trimEnd_head s : head_nonspace s -> head_nonspace (trimEnd s).
Proof.
  destruct s as [|c s]; simpl; [intros _; exact I|].
  intros Hc. rewrite trimEnd_cons by exact Hc. exact Hc.
Qed.

Lemma trim_head s : head_nonspace (trim s).
Proof. apply trimEnd_head, trimStart_head. Qed.

Lemma trim_last s : head_nonspace (rev (trim s)).
Proof. apply trimEnd_last. Qed.

Lemma trim_fix s : head_nonspace s -> head_nonspace (rev s) -> trim s = s.
Proof.
  intros H1 H2. unfold trim. rewrite (trimStart_fix s H1). apply trimEnd_fix, H2.
Qed.

Lemma trim_idempotent s : trim (trim s) = trim s.
Proof. apply trim_fix; [apply trim_head | apply trim_last]. Qed.

Section Preservation.
Context (P : N -> Prop).

Lemma Forall_trimStart s : Forall P s -> Forall P (trimStart s).
Proof.
  induction 1 as [|c s Hc Hs IH]; simpl; [constructor|].
  destruct (is_space c); [exact IH | constructor; assumption].
Qed.

Lemma Forall_trim s : Forall P s -> Forall P (trim s).
Proof.
  intros H. unfold trim, trimEnd.
  apply Forall_rev, Forall_trimStart, Forall_rev, Forall_trimStart, H.
Qed.

Lemma Forall_collapse_from b s :
  P 32%N -> Forall P s -> Forall P (collapse_from b s).
Proof.
  intros Hsp H. revert b. induction H as [|c s Hc Hs IH]; intros b; simpl; [constructor|].
  destruct (is_space c); [destruct b|]; auto.
Qed.

End Preservation.

Lemma blank_class_clean cls s :
  mem_cu 32%N cls = false ->
  Forall (fun c => mem_cu c cls = false) (blank_class cls s).
Proof.
  intros Hsp. unfold blank_class. induction s as [|c s IH]; simpl; constructor; [|exact IH].
  destruct (mem_cu c cls) eqn:E; [exact Hsp | exact E].
Qed.

Lemma blank_class_fix cls s :
  Forall (fun c => mem_cu c cls = false) s -> blank_class cls s = s.
Proof.
  unfold blank_class. induction 1 as [|c s Hc Hs IH]; simpl; [reflexivity|].
  rewrite Hc, IH. reflexivity.
Qed.

Lemma collapse_true_head s : head_nonspace (collapse_from true s).
Proof.
  induction s as [|c s IH]; simpl; [exact I|].
  destruct (is_space c) eqn:E; [exact IH | exact E].
Qed.

Lemma collapse_head_any b s :
  head_nonspace s -> collapse_from b s = collapse_from false s.
Proof. destruct s as [|c s]; simpl; [reflexivity | intros ->; reflexivity]. Qed.

Lemma collapse_idempotent_from s :
  collapse_from false (collapse_from false s) = collapse_from false s
  /\ collapse_from false (collapse_from true s) = collapse_from true s.
Proof.
  induction s as [|c s [IH1 IH2]]; simpl; [split; reflexivity|].
  destruct (is_space c) eqn:E; simpl.
  - split; [|exact IH2].
    f_equal. rewrite (collapse_head_any true) by apply collapse_true_head. exact IH2.
  - rewrite E, IH1. split; reflexivity.
Qed.

Lemma collapse_idempotent s : collapse_spaces (collapse_spaces s) = collapse_spaces s.
Proof. apply collapse_idempotent_from. Qed.

Lemma collapse_snoc b l c :
  is_space c = false -> collapse_from b (l ++ [c]) = collapse_from b l ++ [c].
Proof.
  intros Hc. revert b. induction l as [|a l IH]; intros b; simpl.
  - rewrite Hc. reflexivity.
  - destruct (is_space a); [destruct b|]; rewrite IH; reflexivity.
Qed.

Lemma collapse_keeps_head s :
  head_nonspace s -> head_nonspace (collapse_spaces s).
Proof.
  unfold collapse_spaces.
  destruct s as [|c s]; simpl; [intros _; exact I | intros H; rewrite H; exact H].
Qed.

Lemma collapse_keeps_last s :
  head_nonspace (rev s) -> head_nonspace (rev (collapse_spaces s)).
Proof.
  destruct (rev s) as [|c r] eqn:E; simpl; intros Hc.
  - apply (f_equal (@rev N)) in E. rewrite rev_involutive in E. subst s. exact I.
  - apply (f_equal (@rev N)) in E. rewrite rev_involutive in E. simpl in E. subst s.
    unfold collapse_spaces. rewrite collapse_snoc by exact Hc.
    rewrite rev_app_distr. exact Hc.
Qed.

Lemma trim_collapse_trim s : trim (collapse_spaces (trim s)) = collapse_spaces (trim s).
Proof.
  apply trim_fix.
  - apply collapse_keeps_head, trim_head.
  - apply collapse_keeps_last, trim_last.
Qed.

Lemma existsb_str_eqb x (acc : list jsstring) :
  existsb (str_eqb x) acc = true <-> x ∈ acc.
Proof.
  rewrite existsb_exists. split.
  - intros (y & Hy & E). apply bool_decide_eq_true in E. subst y.
    apply list_elem_of_In, Hy.
  - intros H. exists x. split; [apply list_elem_of_In, H | apply bool_decide_eq_true; reflexivity].
Qed.

(** What a [Set] filled from [l] on top of [acc] holds, and in which order:
    the new members follow [acc], each at the place of its first occurrence
    in [l]. *)
Lemma set_fold_spec (l : list jsstring) :
  forall acc, NoDup acc ->
    exists ext,
      fold_left set_add l acc = acc ++ ext
      /\ NoDup (acc ++ ext)
      /\ (forall x, (x ∈ ext) <-> (x ∈ l /\ x ∉ acc))
      /\ (forall pre x post, ext = pre ++ x :: post ->
            exists l1 l2, l = l1 ++ x :: l2 /\ (x ∉ l1) /\ forall y, y ∈ pre -> y ∈ l1).
Proof.
  induction l as [|a l IH]; intros acc Hacc; simpl.
  - exists []. rewrite app_nil_r.
    split; [reflexivity|]. split; [exact Hacc|]. split.
    + intros x. rewrite !elem_of_nil. tauto.
    + intros pre x post E. destruct pre; discriminate E.
  - unfold set_add at 2. destruct (existsb (str_eqb a) acc) eqn:Ea.
    + apply existsb_str_eqb in Ea.
      destruct (IH acc Hacc) as (ext & E & Hnd & Hmem & Hord).
      exists ext. split; [exact E|]. split; [exact Hnd|]. split.
      * intros x. rewrite Hmem, elem_of_cons. split; [tauto|].
        intros [[-> | Hx] Hn]; [contradiction | tauto].
      * intros pre x post Ex. destruct (Hord pre x post Ex) as (l1 & l2 & El & Hx & Hpre).
        exists (a :: l1), l2. split; [rewrite El; reflexivity|]. split.
        -- rewrite not_elem_of_cons. split; [|exact Hx].
           intros ->.
           assert (Hin : a ∈ ext) by (rewrite Ex, elem_of_app, elem_of_cons; tauto).
           apply Hmem in Hin. tauto.
        -- intros y Hy. rewrite elem_of_cons. right. apply Hpre, Hy.
    + assert (Hna : a ∉ acc).
      { intros H. apply existsb_str_eqb in H. congruence. }
      assert (Hacc' : NoDup (acc ++ [a])).
      { apply NoDup_app. split; [exact Hacc|]. split; [|apply NoDup_singleton].
        intros x Hx Hx'. apply list_elem_of_singleton in Hx'. subst x. contradiction. }
      destruct (IH (acc ++ [a]) Hacc') as (ext & E & Hnd & Hmem & Hord).
      exists (a :: ext). rewrite E, <- app_assoc. simpl.
      split; [reflexivity|]. split; [rewrite <- app_assoc in Hnd; exact Hnd|]. split.
      * intros x. rewrite !elem_of_cons, Hmem, not_elem_of_app, list_elem_of_singleton.
        destruct (decide (x = a)) as [-> | Hne]; tauto.
      * intros pre x post Ex. destruct pre as [|b pre]; simpl in Ex.
        -- injection Ex as -> ->. exists [], l. split; [reflexivity|]. split.
           ++ apply not_elem_of_nil.
           ++ intros y Hy. inversion Hy.
        -- injection Ex as -> Ex.
           destruct (Hord pre x post Ex) as (l1 & l2 & El & Hx & Hpre).
           exists (b :: l1), l2. split; [rewrite El; reflexivity|]. split.
           ++ rewrite not_elem_of_cons. split; [|exact Hx].
              intros ->.
              assert (Hin : b ∈ ext) by (rewrite Ex, elem_of_app, elem_of_cons; tauto).
              apply Hmem in Hin. rewrite not_elem_of_app, list_elem_of_singleton in Hin. tauto.
           ++ intros y Hy. rewrite elem_of_cons in Hy |- *.
              destruct Hy as [-> | Hy]; [left; reflexivity | right; apply Hpre, Hy].
Qed.

Lemma array_from_set_spec (l : list jsstring) :
  NoDup (array_from_set l)
  /\ (forall x, (x ∈ array_from_set l) <-> (x ∈ l))
  /\ (forall pre x post, array_from_set l = pre ++ x :: post ->
        exists l1 l2, l = l1 ++ x :: l2 /\ (x ∉ l1) /\ forall y, y ∈ pre -> y ∈ l1).
Proof.
  destruct (set_fold_spec l [] (NoDup_nil_2 (A:=jsstring))) as (ext & E & Hnd & Hmem & Hord).
  unfold array_from_set. rewrite E. simpl in *.
  split; [exact Hnd|]. split; [|exact Hord].
  intros x. rewrite Hmem. split; [tauto|]. intros H. split; [exact H | apply not_elem_of_nil].
Qed.

Lemma Forall_join (P : N -> Prop) sep (l : list jsstring) :
  Forall P sep -> Forall (Forall P) l -> Forall P (join sep l).
Proof.
  intros Hsep. induction 1 as [|x l Hx Hl IH]; [constructor|].
  destruct l as [|y l]; [exact Hx|].
  change (Forall P (x ++ sep ++ join sep (y :: l))).
  apply Forall_app. split; [exact Hx|]. apply Forall_app. split; [exact Hsep | exact IH].
Qed.

Lemma split_on_cons d s : exists x l, split_on d s = x :: l.
Proof.
  destruct s as [|c s]; simpl; [eauto|].
  destruct (c =? d)%N; [eauto|]. destruct (split_on d s); eauto.
Qed.

Lemma split_on_app_sep d a b :
  split_on d (a ++ d :: b) = split_on d a ++ split_on d b.
Proof.
  induction a as [|c a IH]; simpl.
  - rewrite N.eqb_refl. reflexivity.
  - destruct (c =? d)%N; rewrite IH; [reflexivity|].
    destruct (split_on_cons d a) as (x & l & ->). reflexivity.
Qed.

Lemma split_on_no_sep d x : d ∉ x -> split_on d x = [x].
Proof.
  induction x as [|c x IH]; intros H; [reflexivity|].
  apply not_elem_of_cons in H. destruct H as [Hc Hx]. simpl.
  destruct (N.eqb_spec c d) as [-> | _]; [contradiction|].
  rewrite (IH Hx). reflexivity.
Qed.

Lemma split_on_shorter d s : Forall (fun e => length e <= length s)%nat (split_on d s).
Proof.
  induction s as [|c s IH]; simpl; [repeat constructor|].
  assert (Hw : Forall (fun e => length e <= S (length s))%nat (split_on d s)).
  { eapply Forall_impl; [exact IH|]. simpl. intros. lia. }
  destruct (c =? d)%N.
  - constructor; [simpl; lia | exact Hw].
  - destruct (split_on_cons d s) as (x & l & E). rewrite E in *.
    inversion IH; subst. inversion Hw; subst. constructor; [simpl; lia | assumption].
Qed.

Lemma join_cons2 sep x y (l : list jsstring) :
  join sep (x :: y :: l) = x ++ sep ++ join sep (y :: l).
Proof. reflexivity. Qed.

Lemma split_join_bound n (l : list jsstring) :
  Forall (fun t => length t < n)%nat l ->
  Forall (fun e => length e < n)%nat (tag_elements (join [44%N] l))
  /\ (l <> [] -> Forall (fun e => length e < n)%nat (split_on 44%N (join [44%N] l))).
Proof.
  intros H.
  assert (Hsplit : l <> [] ->
                   Forall (fun e => length e < n)%nat (split_on 44%N (join [44%N] l))).
  { induction H as [|x l Hx Hl IH]; [intros H0; destruct (H0 eq_refl)|]. intros _.
    assert (Hx' : Forall (fun e => length e < n)%nat (split_on 44%N x)).
    { eapply Forall_impl; [apply split_on_shorter|]. simpl. intros. lia. }
    destruct l as [|y l]; [exact Hx'|].
    rewrite join_cons2.
    change ([44%N] ++ join [44%N] (y :: l)) with (44%N :: join [44%N] (y :: l)).
    rewrite split_on_app_sep.
    apply Forall_app. split; [exact Hx' | apply IH; discriminate]. }
  split; [|exact Hsplit].
  unfold tag_elements. destruct (join [44%N] l) eqn:E; [constructor|].
  apply Hsplit. intros ->. discriminate E.
Qed.

Lemma split_join_inverse d (l : list jsstring) :
  Forall (fun t => d ∉ t) l -> l <> [] -> split_on d (join [d] l) = l.
Proof.
  induction 1 as [|x l Hx Hl IH]; [intros H0; destruct (H0 eq_refl)|]. intros _.
  destruct l as [|y l]; [apply split_on_no_sep, Hx|].
  rewrite join_cons2. change ([d] ++ join [d] (y :: l)) with (d :: join [d] (y :: l)).
  rewrite split_on_app_sep, (split_on_no_sep d x Hx).
  rewrite IH by discriminate. reflexivity.
Qed.

(** The fuel of [decodeURIComponent] never runs out. *)
Lemma take_octet_shorter s b rest :
  take_octet s = Some (b, rest) -> (length rest < length s)%nat.
Proof.
  unfold take_octet. intros H.
  repeat match type of H with
         | context [match ?x with _ => _ end] => destruct x; try discriminate H
         end.
  injection H as _ <-. simpl. lia.
Qed.

Lemma take_continuation_shorter n : forall acc s v rest,
  take_continuation n acc s = Some (v, rest) -> (length rest <= length s)%nat.
Proof.
  induction n as [|n IH]; simpl; intros acc s v rest H.
  - injection H as _ <-. lia.
  - destruct (take_octet s) as [[b r]|] eqn:E; [|discriminate].
    apply take_octet_shorter in E.
    destruct ((128 <=? b)%N && (b <=? 191)%N); [|discriminate].
    apply IH in H. lia.
Qed.

Lemma decode_loop_fuel f1 : forall f2 s,
  (length s <= f1)%nat -> (length s <= f2)%nat -> decode_loop f1 s = decode_loop f2 s.
Proof.
  induction f1 as [|f1 IH]; intros f2 s H1 H2.
  - destruct s; [destruct f2; reflexivity | simpl in H1; lia].
  - destruct s as [|c s]; [destruct f2; reflexivity|].
    destruct f2 as [|f2]; [simpl in H2; lia|].
    simpl in H1, H2. cbn [decode_loop].
    destruct (c =? 37)%N.
    + destruct (take_octet (c :: s)) as [[b rest]|] eqn:E; [|reflexivity].
      apply take_octet_shorter in E. simpl in E.
      destruct (b <? 128)%N; [rewrite (IH f2 rest) by lia; reflexivity|].
      match goal with |- (if ?g then _ else _) = _ => destruct g end; [reflexivity|].
      match goal with |- match ?t with _ => _ end = _ => destruct t as [[v rest']|] eqn:Et end;
        [|reflexivity].
      apply take_continuation_shorter in Et.
      match goal with |- (if ?g then _ else _) = _ => destruct g end; [|reflexivity].
      rewrite (IH f2 rest') by lia. reflexivity.
    + rewrite (IH f2 s) by lia. reflexivity.
Qed.

Lemma decodeURIComponent_fuel f s :
  (length s <= f)%nat -> decode_loop f s = decodeURIComponent s.
Proof. intros H. apply decode_loop_fuel; [exact H | lia]. Qed.

End JSFacts.

(** ** The model at work *)

Module Examples.
Import ProductReadService.

Example decode_percent :
  decodeURIComponent (lit "a%2Cb%20%E1%BB%B9") = Some (lit "a,b " ++ [7929%N])
  /\ decodeURIComponent (lit "100%") = None
  /\ decodeURIComponent (lit "%C0%80") = None.
Proof. repeat split; reflexivity. Qed.

Example clean_comma_string :
  cleanSystemTags no_json (VStr (lit "a%2Cb, c%20d ,,x&keyword=zz%zz, c d")) = lit "a,b,c d,zz%zz".
Proof. vm_compute. reflexivity. Qed.

Example escape_text :
  escapeRediSearchText (lit "  ao-dai (new) | x ") = lit "ao-dai \(new\) \| x".
Proof. vm_compute. reflexivity. Qed.

Example sanitize_keyword : sanitizeTagKeyword (lit "  {a}   b|c ") = lit "a b c".
Proof. vm_compute. reflexivity. Qed.

Example ftQuery_sample :
  build_ftQuery sample_query
  = lit "@status:{ACTIVE} (@name:(ao* dai* \(new\)* \|* x*) | @systemTags:{ao dai new x}) @systemTags:{sale} @location:{Ha Noi | Da Nang} @price:[100000 Infinity] @rating:[4 +inf]"
  /\ (resolved_page sample_query, resolved_limit sample_query, resolved_skip sample_query)
     = (Int 2, Int 20, Int 20)
  /\ (sortField sample_query, sortDir sample_query) = (lit "price", lit "ASC").
Proof. repeat split; vm_compute; reflexivity. Qed.

Example parse_reply :
  parse_search_reply (fun s => Some (VStr s)) not_a_number
    (RArr [RInt 2; RStr (lit "product:1"); RArr [RStr (lit "json"); RStr (lit "{a}")];
           RStr (lit "product:2"); RArr [RStr (lit "json"); RStr (lit "{b}")]])
    (Int 1) (Int 20)
  = inr {| data := [FromIndex (VStr (lit "{a}")); FromIndex (VStr (lit "{b}"))];
           meta := {| total := VNum (Int 2); meta_page := Int 1; meta_limit := Int 20;
                      last_page := Int 1 |} |}.
Proof. vm_compute. reflexivity. Qed.

Example last_page_is_ceiling :
  map (fun t => Math_ceil_div (Int t) (Int 20)) [0; 1; 20; 21; 40; 41]%Z
  = map Int [0; 1; 1; 2; 2; 3]%Z.
Proof. reflexivity. Qed.

End Examples.

(** ** The tag sanitizer and the query escapers *)

Module SanitizerProofs.
Import ProductReadService JSFacts.

Lemma clean_tag_no_dangerous v :
  Forall (fun c => mem_cu c dangerous = false) (clean_tag v).
Proof.
  destruct v; unfold clean_tag; try constructor.
  apply Forall_collapse_from; [reflexivity|].
  apply Forall_trim, blank_class_clean. reflexivity.
Qed.

Lemma keep_tag_spec t : keep_tag t = true <-> t <> [] /\ (length t < 50)%nat.
Proof.
  unfold keep_tag. rewrite andb_true_iff, !Nat.ltb_lt.
  destruct t; simpl; split; intros [H1 H2]; split; try lia; congruence.
Qed.

Lemma cleanedTags_sound JSON_parse inputTags t :
  t ∈ cleanedTags JSON_parse inputTags ->
  Forall (fun c => mem_cu c dangerous = false) t /\ t <> [] /\ (length t < 50)%nat.
Proof.
  unfold cleanedTags. rewrite list_elem_of_In, filter_In, in_map_iff.
  intros [(v & <- & _) Hk]. split; [apply clean_tag_no_dangerous | apply keep_tag_spec, Hk].
Qed.

Lemma cleanTagList_unfold JSON_parse inputTags :
  cleanTagList JSON_parse inputTags = array_from_set (cleanedTags JSON_parse inputTags).
Proof.
  unfold cleanTagList, cleanedTags.
  destruct (normalize_tags JSON_parse inputTags); reflexivity.
Qed.

(** C3 (amended): for a raw tag input of any shape, [cleanSystemTags]
    returns (it is a total function: the failures of [JSON.parse] and of
    [decodeURIComponent] are caught) the comma-joined list of tags
    [cleanTagList].  Each tag of that list has none of the dangerous
    characters, is not empty and is shorter than 50; the list has no
    duplicate, holds exactly the cleaned tags that pass the length filter, and
    lists them in the order of their first occurrence.  The returned string
    has none of the dangerous characters, each of its comma-separated
    elements is shorter than 50, and these elements are the tags of the list
    whenever no tag holds a comma.  An input that is neither an array nor a
    string gives the empty string, as does a string whose JSON is not an
    array; and the input of the specification's example gives
    [shoes,bad tag]. *)
Theorem cleanSystemTags_sanitized (JSON_parse : jsstring -> option value) (inputTags : value) :
  let tags := cleanTagList JSON_parse inputTags in
  let cleaned := cleanedTags JSON_parse inputTags in
  let output := cleanSystemTags JSON_parse inputTags in
  output = join (lit ",") tags
  /\ Forall (fun t => Forall (fun c => mem_cu c dangerous = false) t
                      /\ t <> [] /\ (length t < 50)%nat) tags
  /\ NoDup tags
  /\ (forall t, (t ∈ tags) <-> (t ∈ cleaned))
  /\ (forall pre t post, tags = pre ++ t :: post ->
        exists l1 l2, cleaned = l1 ++ t :: l2 /\ (t ∉ l1) /\ forall u, u ∈ pre -> u ∈ l1)
  /\ Forall (fun c => mem_cu c dangerous = false) output
  /\ Forall (fun e => length e < 50)%nat (tag_elements output)
  /\ (Forall (fun t => 44%N ∉ t) tags -> tag_elements output = tags)
  /\ match inputTags with
     | VArr _ => True
     | VStr s => match JSON_parse s with
                 | Some (VArr _) | None => True
                 | Some _ => output = []
                 end
     | _ => output = []
     end
  /\ cleanSystemTags JSON_parse
       (VArr [VStr (lit "  http://x?q=shoes  "); VStr (lit "shoes"); VStr (lit "{bad}tag")])
     = lit "shoes,bad tag".
Proof.
  intros tags cleaned output.
  assert (Hout : output = join (lit ",") tags).
  { subst output tags. unfold cleanSystemTags, cleanTagList.
    destruct (normalize_tags JSON_parse inputTags); reflexivity. }
  assert (Htags : Forall (fun t => Forall (fun c => mem_cu c dangerous = false) t
                                   /\ t <> [] /\ (length t < 50)%nat) tags).
  { subst tags. rewrite cleanTagList_unfold.
    destruct (array_from_set_spec (cleanedTags JSON_parse inputTags)) as (_ & Hmem & _).
    apply Forall_forall. intros t Ht.
    apply (cleanedTags_sound JSON_parse inputTags), Hmem, Ht. }
  destruct (array_from_set_spec (cleanedTags JSON_parse inputTags)) as (Hnd & Hmem & Hord).
  split; [exact Hout|]. split; [exact Htags|].
  split; [subst tags; rewrite cleanTagList_unfold; exact Hnd|].
  split; [subst tags; rewrite cleanTagList_unfold; exact Hmem|].
  split; [subst tags; rewrite cleanTagList_unfold; exact Hord|].
  split.
  { rewrite Hout. apply Forall_join; [repeat constructor|].
    eapply Forall_impl; [exact Htags|]. simpl. tauto. }
  split.
  { rewrite Hout. apply (split_join_bound 50 tags).
    eapply Forall_impl; [exact Htags|]. simpl. tauto. }
  split.
  { intros Hcomma. rewrite Hout. unfold tag_elements.
    destruct tags as [|t tags'] eqn:Et; [reflexivity|].
    destruct (join (lit ",") (t :: tags')) eqn:Ej.
    - exfalso. inversion Htags as [|? ? (_ & Hne & _) _]; subst.
      destruct tags'; simpl in Ej; [congruence|].
      destruct t; [congruence | discriminate Ej].
    - rewrite <- Ej. apply (split_join_inverse 44%N); [exact Hcomma | discriminate]. }
  split.
  - subst output. destruct inputTags as [| | | | s | |]; try reflexivity; try exact I.
    unfold cleanSystemTags. simpl.
    destruct (JSON_parse s) as [[]|]; try reflexivity; exact I.
  - vm_compute. reflexivity.
Qed.

(** C3 as stated fails: a tag of an array may hold a comma, which is not one
    of the characters the cleaner takes out; the string returned for the three
    distinct tags [dress,gown], [gown] and [sale,] has an element twice and
    an empty element. *)
Lemma cleanSystemTags_sanitized_counterexample :
  let output :=
    cleanSystemTags no_json
      (VArr [VStr (lit "dress,gown"); VStr (lit "gown"); VStr (lit "sale,")]) in
  output = lit "dress,gown,gown,sale,"
  /\ tag_elements output = [lit "dress"; lit "gown"; lit "gown"; lit "sale"; []]
  /\ ~ NoDup (tag_elements output)
  /\ In [] (tag_elements output).
Proof.
  cbv zeta. split; [vm_compute; reflexivity|]. split; [vm_compute; reflexivity|]. split.
  - intros H.
    replace (tag_elements _) with [lit "dress"; lit "gown"; lit "gown"; lit "sale"; []] in H
      by (vm_compute; reflexivity).
    apply NoDup_cons in H. destruct H as [_ H].
    apply NoDup_cons in H. destruct H as [H _].
    apply H. left.
  - replace (tag_elements _) with [lit "dress"; lit "gown"; lit "gown"; lit "sale"; []]
      by (vm_compute; reflexivity).
    simpl. tauto.
Qed.

(** C9: [escapeRediSearchText] and [sanitizeTagKeyword] are total functions
    of a string (each has a result on every [x]); sanitizing a tag keyword
    twice is sanitizing it once; and escaping twice a text [y] made only of
    characters of the allow-list is escaping it once. *)
Theorem query_escapers_idempotent (x y : jsstring)
  (Hy : forallb allowed y = true) :
  (exists r, escapeRediSearchText x = r)
  /\ (exists r, sanitizeTagKeyword x = r)
  /\ sanitizeTagKeyword (sanitizeTagKeyword x) = sanitizeTagKeyword x
  /\ escapeRediSearchText (escapeRediSearchText y) = escapeRediSearchText y.
Proof.
  split; [eexists; reflexivity|]. split; [eexists; reflexivity|]. split.
  - unfold sanitizeTagKeyword at 1.
    rewrite blank_class_fix.
    + unfold sanitizeTagKeyword. rewrite trim_collapse_trim. apply collapse_idempotent.
    + unfold sanitizeTagKeyword. apply Forall_collapse_from; [reflexivity|].
      apply Forall_trim, blank_class_clean. reflexivity.
  - assert (Hid : forall s, Forall (fun c => allowed c = true) s ->
                            flat_map (fun c => if allowed c then [c] else [92%N; c]) s = s).
    { induction 1 as [|c s Hc Hs IH]; simpl; [reflexivity|]. rewrite Hc, IH. reflexivity. }
    assert (Hall : Forall (fun c => allowed c = true) y).
    { apply Forall_forall. intros c Hc. rewrite forallb_forall in Hy. apply Hy, list_elem_of_In, Hc. }
    unfold escapeRediSearchText. rewrite (Hid y Hall).
    rewrite (Hid (trim y)) by (apply Forall_trim, Hall).
    apply trim_idempotent.
Qed.

Lemma query_escapers_idempotent_witness :
  forallb allowed (lit "  ao-dai  ") = true
  /\ sanitizeTagKeyword (sanitizeTagKeyword (lit " {a}  b|c ")) = sanitizeTagKeyword (lit " {a}  b|c ")
  /\ escapeRediSearchText (escapeRediSearchText (lit "  ao-dai  ")) = escapeRediSearchText (lit "  ao-dai  ").
Proof.
  split; [reflexivity|].
  apply (query_escapers_idempotent (lit " {a}  b|c ") (lit "  ao-dai  ")). reflexivity.
Defined.

End SanitizerProofs.

(** ** Running programs *)

Module RunFacts.
Import ProductReadService.

Lemma run_bind {W A B} (h : handler W) (p : prog A) (f : A -> prog B) w :
  run h (bind p f) w = then_run (run h p w) (fun a => run h (f a)).
Proof.
  revert w. induction p as [a | e | l m k IH | R c k IH]; intros w.
  - cbn. destruct (run h (f a) w); reflexivity.
  - reflexivity.
  - cbn. rewrite IH. unfold then_run.
    destruct (run h k w) as [[a | e] w' t]; reflexivity.
  - cbn. rewrite IH. unfold then_run.
    destruct (run h (k (fst (h R c w))) (snd (h R c w))) as [[a | e] w' t]; reflexivity.
Qed.

Lemma run_try_catch {W A} (h : handler W) (p : prog A) (g : error -> prog A) w :
  run h (try_catch p g) w = else_run (run h p w) (fun e => run h (g e)).
Proof.
  revert w. induction p as [a | e | l m k IH | R c k IH]; intros w.
  - reflexivity.
  - cbn. unfold else_run. cbn. destruct (run h (g e) w); reflexivity.
  - cbn. rewrite IH. unfold else_run.
    destruct (run h k w) as [[a | e] w' t]; reflexivity.
  - cbn. rewrite IH. unfold else_run.
    destruct (run h (k (fst (h R c w))) (snd (h R c w))) as [[a | e] w' t]; reflexivity.
Qed.

(** A [try] whose handler does not throw does not throw. *)
Lemma try_catch_returns {W A} (h : handler W) (p : prog A) (g : error -> prog A) w :
  (forall e w', exists a, out (run h (g e) w') = Returned a) ->
  exists a, out (run h (try_catch p g) w) = Returned a.
Proof.
  intros Hg. rewrite run_try_catch. unfold else_run.
  destruct (out (run h p w)) as [a | e] eqn:E.
  - exists a. exact E.
  - cbn. apply Hg.
Qed.

(** Case analysis on how the calls of a run settle: first the calls, then
    what the continuation inspects, and never the run itself. *)
Ltac settle h :=
  repeat (cbn;
          match goal with
          | |- context [h ?R ?c ?w] => destruct (h R c w) as [? ?] eqn:?
          | |- context [match ?x with _ => _ end] =>
              lazymatch x with
              | context [run] => fail
              | _ => destruct x eqn:?
              end
          end);
  cbn.

End RunFacts.

(** ** The query planner *)

Module PlannerProofs.
Import ProductReadService RunFacts.

#[local] Arguments lit : simpl never.
#[local] Arguments resolved_page : simpl never.
#[local] Arguments resolved_limit : simpl never.
#[local] Arguments resolved_skip : simpl never.
#[local] Arguments build_ftQuery : simpl never.
#[local] Arguments build_where : simpl never.
#[local] Arguments build_orderBy : simpl never.
#[local] Arguments sortField : simpl never.
#[local] Arguments sortDir : simpl never.
#[local] Arguments cacheKey : simpl never.
#[local] Arguments parse_search_reply : simpl never.
#[local] Arguments map_to_public : simpl never.
#[local] Arguments num_toString : simpl never.
#[local] Arguments error_toString : simpl never.
#[local] Arguments message : simpl never.
#[local] Arguments Math_ceil_div : simpl never.
#[local] Arguments empty_page : simpl never.
#[local] Arguments str_truthy : simpl never.
#[local] Arguments parse_fields : simpl never.
#[local] Arguments parse_payload : simpl never.

Lemma nonempty_true {A} (l : list A) : nonempty l = true <-> l <> [].
Proof. destruct l; simpl; split; congruence. Qed.

Lemma opt_num_truthy_effective o : opt_num_truthy o = true <-> effective o.
Proof.
  unfold effective. destruct o as [n|]; simpl.
  - split.
    + intros H. exists n. split; [reflexivity|].
      destruct n as [| | |z]; simpl in H; try discriminate; split; try discriminate.
      intros E. injection E as ->. discriminate H.
    + intros (m & E & H0 & Hn). injection E as <-.
      destruct n as [| | |z]; simpl; try reflexivity; try congruence.
      destruct (Z.eqb_spec z 0) as [-> |]; [congruence | reflexivity].
  - split; [discriminate | intros (m & E & _); discriminate].
Qed.

Lemma searchKeyword_nonempty query :
  (0 <? length (searchKeyword query))%nat = true
  <-> exists s, search query = Some s /\ trim s <> [].
Proof.
  unfold searchKeyword. rewrite Nat.ltb_lt.
  destruct (search query) as [s|]; simpl.
  - destruct s as [|c s]; simpl.
    + split; [lia | intros (s' & E & H); injection E as <-; contradiction].
    + split.
      * intros H. exists (c :: s). split; [reflexivity|]. intros E. rewrite E in H. simpl in H. lia.
      * intros (s' & E & H). injection E as <-. destruct (trim (c :: s)); simpl; [contradiction | lia].
  - split; [lia | intros (s' & E & _); discriminate].
Qed.

Lemma shouldUseRedis_rule query : shouldUseRedis query = true <-> index_rule query.
Proof.
  unfold shouldUseRedis, index_rule.
  rewrite !orb_true_iff, searchKeyword_nonempty, !opt_num_truthy_effective.
  assert (Ht : str_truthy (tag query) = true <-> exists t, tag query = Some t /\ t <> []).
  { unfold str_truthy. destruct (tag query) as [t|].
    - rewrite nonempty_true. split; [intros H; exists t; tauto | intros (t' & E & H); congruence].
    - split; [discriminate | intros (t' & E & _); discriminate]. }
  assert (Hl : has_locations (locations query) = true
               <-> exists l, locations query = Some l /\ l <> []).
  { unfold has_locations. destruct (locations query) as [l|].
    - rewrite nonempty_true. split; [intros H; exists l; tauto | intros (t' & E & H); congruence].
    - split; [discriminate | intros (t' & E & _); discriminate]. }
  rewrite Ht, Hl. tauto.
Qed.

Section Planner.
Context (JSON_parse : jsstring -> option value).
Context (queryHash : FindAllPublicDto -> jsstring).
Context (String_toNumber : jsstring -> number).
Context {W : Type} (h : handler W).

Abbreviation findAllPublic := (findAllPublic JSON_parse queryHash String_toNumber).

Lemma searched_iff query w :
  existsb is_search (trace (run h (findAllPublic query) w)) = shouldUseRedis query.
Proof.
  unfold ProductReadService.findAllPublic, redis_search.
  destruct (shouldUseRedis query) eqn:E.
  - cbn. reflexivity.
  - settle h. all: reflexivity.
Qed.

(** C4 (amended): a request takes the index path exactly when its trimmed
    free-text term is not empty, or its tag is a non-empty string, or its
    minPrice, maxPrice or rating is a number other than 0 and NaN, or its
    list of locations is not empty; the first call is then the search of the
    index with the query string built; otherwise the index is not searched
    at all and the first call is the paginated query of the source store. *)
Theorem index_path_decision (query : FindAllPublicDto) (w : W) :
  let t := trace (run h (findAllPublic query) w) in
  (index_rule query
   /\ exists r rest,
        calls t = EvCall (FT_SEARCH INDEX_NAME (build_ftQuery query) (resolved_skip query)
                            (resolved_limit query) (sortField query) (sortDir query)) r :: rest)
  \/ (~ index_rule query
      /\ existsb is_search t = false
      /\ exists r rest,
           calls t = EvCall (Product_findMany (build_where query) (resolved_limit query)
                               (resolved_skip query) (build_orderBy query)) r :: rest).
Proof.
  intros t. subst t.
  pose proof (searched_iff query w) as Hs.
  pose proof (shouldUseRedis_rule query) as Hr.
  destruct (shouldUseRedis query) eqn:E.
  - left. split; [apply Hr; reflexivity|].
    unfold ProductReadService.findAllPublic, redis_search. rewrite E. cbn.
    eexists. eexists. reflexivity.
  - right. split; [intros H; apply Hr in H; discriminate|]. split; [exact Hs|].
    unfold ProductReadService.findAllPublic, redis_search. rewrite E. cbn.
    eexists. eexists. reflexivity.
Qed.

Lemma source_items_map (items : list PublicProduct) :
  source_items (map FromSource items) = nonempty (map FromSource items).
Proof. destruct items; reflexivity. Qed.

Lemma parse_payload_index j items :
  parse_payload JSON_parse j = inr items -> Forall from_index items.
Proof.
  unfold parse_payload. intros H.
  destruct j as [j|]; [|injection H as <-; constructor].
  destruct (reply_truthy j); [|injection H as <-; constructor].
  destruct (JSON_parse (reply_toString j)); [|discriminate].
  injection H as <-. repeat constructor.
Qed.

Lemma parse_fields_index f items :
  parse_fields JSON_parse f = inr items -> Forall from_index items.
Proof.
  unfold parse_fields. intros H.
  destruct f as [[| | s | l]|]; try (injection H as <-; constructor).
  - destruct (2 <=? length s)%nat; [|injection H as <-; constructor].
    eapply parse_payload_index, H.
  - destruct (2 <=? length l)%nat; [|injection H as <-; constructor].
    eapply parse_payload_index, H.
Qed.

Lemma collect_products_index (n : nat) : forall l items,
  (length l <= n)%nat ->
  collect_products JSON_parse l = inr items -> Forall from_index items.
Proof.
  induction n as [|n IH]; intros l items Hn H.
  - destruct l; [injection H as <-; constructor | simpl in Hn; lia].
  - destruct l as [|k [|f rest]]; cbn in H.
    + injection H as <-. constructor.
    + injection H as <-. constructor.
    + destruct (parse_fields JSON_parse (Some f)) as [e | found] eqn:Ef; [discriminate|].
      destruct (collect_products JSON_parse rest) as [e | more] eqn:Er; [discriminate|].
      injection H as <-. apply Forall_app. split.
      * eapply parse_fields_index, Ef.
      * apply (IH rest more); [simpl in Hn; lia | exact Er].
Qed.

Lemma index_page_not_source searchRes pg lim p :
  parse_search_reply JSON_parse String_toNumber searchRes pg lim = inr p ->
  source_items (data p) = false.
Proof.
  unfold parse_search_reply. intros H.
  assert (Hc : forall l items, collect_products JSON_parse l = inr items ->
                               source_items items = false).
  { intros l items Hi. apply (collect_products_index (length l)) in Hi; [|lia].
    destruct Hi as [|[] ? Hx _]; [reflexivity | reflexivity | destruct Hx]. }
  destruct searchRes; try discriminate;
    match type of H with
    | match ?c with _ => _ end = _ => destruct c as [e | products] eqn:Ec; [discriminate|]
    end;
    injection H as <-; cbn; eapply Hc, Ec.
Qed.

(** C8: the only cache write of [findAllPublic] is one [SET] of the result
    page under the key of the request, expiring after 60 seconds, and it is
    issued exactly when the page returned holds rows of the source store
    (at least one) and the request has no search term: a request with a search
    term, an empty page and a page of the index are never written.  When the
    method raises, it is because that one write, of such a page for such a
    request, was rejected. *)
Theorem result_cache_writes (query : FindAllPublicDto) (w : W) :
  let r := run h (findAllPublic query) w in
  match out r with
  | Returned pg =>
      cache_sets (trace r) =
        if source_items (data pg) && negb (str_truthy (search query))
        then [(cacheKey queryHash query, pg, 60%Z)] else []
  | Raised e =>
      str_truthy (search query) = false
      /\ exists pg,
           source_items (data pg) = true
           /\ cache_sets (trace r) = [(cacheKey queryHash query, pg, 60%Z)]
           /\ last (trace r) = Some (EvCall (SET_EX (cacheKey queryHash query) pg 60) (Rejected e))
  end.
Proof.
  intros r. subst r.
  unfold ProductReadService.findAllPublic, redis_search, db_fallback, source_page.
  destruct (shouldUseRedis query) eqn:E; settle h.
  all: try reflexivity.
  all: try (rewrite ?source_items_map in *; congruence).
  all: try (unfold empty_page in *; cbn in *; congruence).
  all: try match goal with
           | H : parse_search_reply _ _ _ _ _ = inr _ |- _ =>
               apply index_page_not_source in H; rewrite H in *; discriminate
           end.
  all: match goal with
       | H : _ && negb (str_truthy _) = true |- _ /\ _ =>
           apply andb_true_iff in H; destruct H as [Hn Hs];
           split; [destruct (str_truthy (search query)); [discriminate Hs | reflexivity]|];
           eexists; (split; [|split; reflexivity]);
           cbn [data]; rewrite source_items_map; exact Hn
       end.
Qed.

(** The rejection of the cache write reaches the caller. *)
Lemma raises_when_set_rejected query w w1 w2 w3 w4 e0 e rows n items :
  shouldUseRedis query = true ->
  str_truthy (search query) = false ->
  h _ (FT_SEARCH INDEX_NAME (build_ftQuery query) (resolved_skip query)
         (resolved_limit query) (sortField query) (sortDir query)) w = (Rejected e0, w1) ->
  h _ (Product_findMany (build_where query) (resolved_limit query) (resolved_skip query)
         (build_orderBy query)) w1 = (Resolved rows, w2) ->
  h _ (Product_count (build_where query)) w2 = (Resolved n, w3) ->
  map_to_public JSON_parse rows = inr items ->
  items <> [] ->
  h _ (SET_EX (cacheKey queryHash query) (source_page query items n) 60) w3
    = (Rejected e, w4) ->
  out (run h (findAllPublic query) w) = Raised e.
Proof.
  intros Hr Hs H0 H1 H2 Hm Hi H3.
  unfold ProductReadService.findAllPublic, redis_search, db_fallback. rewrite Hr.
  cbn. rewrite H0. cbn. rewrite H1. cbn. rewrite H2. cbn. rewrite Hm. cbn.
  rewrite Hs. destruct items as [|i items]; [congruence|].
  cbn -[source_page]. rewrite H3. reflexivity.
Qed.

(** A nil reply of the index is an error of the index path: the source store
    is queried next. *)
Lemma nil_reply_falls_back query w w1 :
  shouldUseRedis query = true ->
  h _ (FT_SEARCH INDEX_NAME (build_ftQuery query) (resolved_skip query)
         (resolved_limit query) (sortField query) (sortDir query)) w = (Resolved RNil, w1) ->
  exists r rest,
    calls (trace (run h (findAllPublic query) w))
    = EvCall (FT_SEARCH INDEX_NAME (build_ftQuery query) (resolved_skip query)
                (resolved_limit query) (sortField query) (sortDir query)) (Resolved RNil)
      :: EvCall (Product_findMany (build_where query) (resolved_limit query)
                   (resolved_skip query) (build_orderBy query)) r
      :: rest.
Proof.
  intros Hr H0.
  unfold ProductReadService.findAllPublic, redis_search, db_fallback. rewrite Hr.
  cbn. rewrite H0. cbn. eexists. eexists. reflexivity.
Qed.

(** An empty array is not: it is read as a page without items, whose total is
    undefined. *)
Lemma empty_array_reply_is_a_page query w w1 :
  shouldUseRedis query = true ->
  h _ (FT_SEARCH INDEX_NAME (build_ftQuery query) (resolved_skip query)
         (resolved_limit query) (sortField query) (sortDir query)) w = (Resolved (RArr []), w1) ->
  out (run h (findAllPublic query) w)
  = Returned {| data := [];
                meta := {| total := VUndefined; meta_page := resolved_page query;
                           meta_limit := resolved_limit query; last_page := NaN |} |}.
Proof.
  intros Hr H0.
  unfold ProductReadService.findAllPublic, redis_search, db_fallback. rewrite Hr.
  cbn. rewrite H0. cbn. unfold parse_search_reply. cbn.
  unfold Math_ceil_div. reflexivity.
Qed.

Lemma cache_never_read query w :
  existsb is_get (trace (run h (findAllPublic query) w)) = false.
Proof.
  unfold ProductReadService.findAllPublic, redis_search, db_fallback.
  destruct (shouldUseRedis query) eqn:E; settle h; reflexivity.
Qed.

End Planner.

(** C2: [findAllPublic] issues no [GET], whatever the request and the stores.
    With the entry of the request alive in the result cache (a [GET] of its
    key gives the cached page), the request without parameters is still
    answered by a query of the source store, whose page it returns and writes
    over the entry. *)
Theorem result_cache_is_not_read :
  (forall JSON_parse queryHash String_toNumber W (h : handler W) query w,
      existsb is_get
        (trace (run h (findAllPublic JSON_parse queryHash String_toNumber query) w)) = false)
  /\ fst (shop_stores _ (GET (cacheKey fixed_hash empty_query)) cached_world)
     = Resolved (Some cached_page)
  /\ (let r := run shop_stores (findAllPublic no_json fixed_hash not_a_number empty_query)
                  cached_world in
      out r = Returned shoes_page
      /\ shoes_page <> cached_page
      /\ calls (trace r)
         = [ EvCall (Product_findMany (build_where empty_query) (Int 20) (Int 0) SalesCountDesc)
               (Resolved [shoes]);
             EvCall (Product_count (build_where empty_query)) (Resolved (Int 1));
             EvCall (SET_EX (cacheKey fixed_hash empty_query) shoes_page 60) (Resolved OK) ]).
Proof.
  split; [intros; apply cache_never_read|].
  split; [vm_compute; reflexivity|].
  cbv zeta. split; [vm_compute; reflexivity|]. split; [discriminate|].
  vm_compute. reflexivity.
Qed.

(** C1: with the index store unreachable, the request for the tag [shoes]
    falls back to the source store (same filter, pagination and order), which
    answers with one row, and then raises to the caller: the write of that
    page to the result cache is rejected outside of any [try].  So it is
    whenever the search is rejected, the source store answers with rows, the
    request has no search term and the write is rejected. *)
Theorem fallback_raises_when_cache_write_fails :
  (forall JSON_parse queryHash String_toNumber W (h : handler W)
          query w w1 w2 w3 w4 e0 e rows n items,
      shouldUseRedis query = true ->
      str_truthy (search query) = false ->
      h _ (FT_SEARCH INDEX_NAME (build_ftQuery query) (resolved_skip query)
             (resolved_limit query) (sortField query) (sortDir query)) w = (Rejected e0, w1) ->
      h _ (Product_findMany (build_where query) (resolved_limit query) (resolved_skip query)
             (build_orderBy query)) w1 = (Resolved rows, w2) ->
      h _ (Product_count (build_where query)) w2 = (Resolved n, w3) ->
      map_to_public JSON_parse rows = inr items ->
      items <> [] ->
      h _ (SET_EX (cacheKey queryHash query) (source_page query items n) 60) w3
        = (Rejected e, w4) ->
      out (run h (findAllPublic JSON_parse queryHash String_toNumber query) w) = Raised e)
  /\
  let r := run shop_stores (findAllPublic no_json fixed_hash not_a_number tag_query)
             redis_down_world in
  out r = Raised connection_closed
  /\ calls (trace r)
     = [ EvCall (FT_SEARCH INDEX_NAME (lit "@status:{ACTIVE} @systemTags:{shoes}")
                   (Int 0) (Int 20) (lit "salesCount") (lit "DESC"))
           (Rejected connection_closed);
         EvCall (Product_findMany (build_where tag_query) (Int 20) (Int 0) SalesCountDesc)
           (Resolved [shoes]);
         EvCall (Product_count (build_where tag_query)) (Resolved (Int 1));
         EvCall (SET_EX (cacheKey fixed_hash tag_query) shoes_page 60)
           (Rejected connection_closed) ].
Proof.
  split; [intros; eapply raises_when_set_rejected; eassumption|].
  cbv zeta. split; vm_compute; reflexivity.
Qed.

(** C4 as stated fails: a request whose only filter is a minimum price of 0
    has a filter present, and it is not sent to the index. *)
Lemma index_path_decision_counterexample :
  let query :=
    {| page := None; limit := None; search := None; categoryId := None;
       categorySlug := None; brandId := None; minPrice := Some (Int 0); maxPrice := None;
       rating_floor := None; sort := None; tag := None; locations := None |} in
  index_rule_as_stated query
  /\ shouldUseRedis query = false
  /\ existsb is_search
       (trace (run shop_stores (findAllPublic no_json fixed_hash not_a_number query) shop_world))
     = false.
Proof.
  cbv zeta. split; [|split; reflexivity].
  right. right. left. eexists. reflexivity.
Qed.

End PlannerProofs.

(** ** Synchronisation and the index schema *)

Module SyncProofs.
Import ProductReadService RunFacts.

#[local] Arguments lit : simpl never.
#[local] Arguments sync_one_fields : simpl never.
#[local] Arguments sync_all_item : simpl never.
#[local] Arguments suggestion_payload : simpl never.
#[local] Arguments suggestion_score : simpl never.
#[local] Arguments num_toString : simpl never.
#[local] Arguments show_int : simpl never.
#[local] Arguments message : simpl never.
#[local] Arguments includes : simpl never.
#[local] Arguments stringify : simpl never.
#[local] Arguments SCHEMA : simpl never.
#[local] Arguments first_image : simpl never.

Section Sync.
Context (JSON_parse : jsstring -> option value).
Context {W : Type} (h : handler W).

Lemma syncAll_returns w :
  exists a, out (run h (syncAllProductsToRedis JSON_parse) w) = Returned a.
Proof.
  unfold syncAllProductsToRedis. apply try_catch_returns.
  intros e w'. eexists. reflexivity.
Qed.

Lemma createSearchIndex_returns w :
  out (run h (createSearchIndex JSON_parse) w) = Returned tt.
Proof.
  unfold createSearchIndex.
  destruct (try_catch_returns h
    (_ ← await (FT_CREATE INDEX_NAME SCHEMA);
     _ ← log LOG ([9989%N] ++ lit " RediSearch Index created");
     _ ← log LOG ([55357%N; 56580%N] ++ lit " Auto-syncing products to Redis...");
     _ ← syncAllProductsToRedis JSON_parse; Ret tt)
    (fun e => if negb (includes (lit "already exists") (message e))
              then log ERROR (lit "Create Index Error: " ++ message e) else Ret tt) w)
    as [[] E]; [|exact E].
  intros e w'. exists tt. destruct (negb _); reflexivity.
Qed.

Lemma ensureSearchIndex_returns w :
  out (run h (ensureSearchIndex JSON_parse) w) = Returned tt.
Proof.
  unfold ensureSearchIndex.
  match goal with
  | |- out (run h (try_catch ?p ?g) w) = _ =>
      destruct (try_catch_returns h p g w) as [[] E]; [|exact E]
  end.
  intros e w'. exists tt. reflexivity.
Qed.

Lemma createSearchIndex_run w :
  run h (createSearchIndex JSON_parse) w = index_created JSON_parse h w.
Proof.
  unfold createSearchIndex, index_created. rewrite run_try_catch.
  unfold mbind, prog_bind, await. cbn -[syncAllProductsToRedis].
  destruct (h reply (FT_CREATE INDEX_NAME SCHEMA) w) as [[e | r] w1]; cbn -[syncAllProductsToRedis].
  - unfold else_run. cbn. destruct (includes (lit "already exists") (message e)); reflexivity.
  - rewrite run_bind. unfold then_run, else_run.
    destruct (syncAll_returns w1) as [a Ha].
    destruct (run h (syncAllProductsToRedis JSON_parse) w1) as [o w2 t].
    cbn in Ha. subst o. cbn. rewrite app_nil_r. reflexivity.
Qed.

Lemma ensureSearchIndex_run w :
  run h (ensureSearchIndex JSON_parse) w = index_ensured JSON_parse h w.
Proof.
  unfold index_ensured. rewrite <- !createSearchIndex_run.
  unfold ensureSearchIndex. rewrite run_try_catch.
  unfold mbind, prog_bind, await, stale_schema. cbn -[createSearchIndex].
  destruct (h reply (FT_INFO INDEX_NAME) w) as [r0 w0]. cbn -[createSearchIndex].
  assert (Hc : forall w', out (run h (createSearchIndex JSON_parse) w') = Returned tt)
    by apply createSearchIndex_returns.
  set (info := match r0 with Rejected _ => RNil | Resolved x => x end).
  assert (Hinfo : forall (A : Type) (f : reply -> prog A) w',
            run h (match r0 with
                   | Rejected _ => f RNil
                   | Resolved x => f x
                   end) w' = run h (f info) w').
  { intros. subst info. destruct r0; reflexivity. }
  replace (run h (bind match r0 with Rejected _ => Ret RNil | Resolved x => Ret x end _) w0)
    with (run h (bind (Ret info) (fun info0 : reply =>
           if negb (reply_truthy info0)
           then bind (log WARN ([9888%N; 65039%N] ++ lit " Index not found. Creating new Index..."))
                  (fun _ => createSearchIndex JSON_parse)
           else if negb (includes (lit "rating") (stringify (reply_value info0)))
                   || negb (includes (lit "location") (stringify (reply_value info0)))
                then bind (log WARN ([9888%N; 65039%N] ++
                       lit " Old Index Schema detected (Missing rating/location). Re-creating index..."))
                       (fun _ => bind (Await (FT_DROPINDEX INDEX_NAME)
                                         (fun r => match r with
                                                   | Rejected e => Throw e
                                                   | Resolved x => Ret x
                                                   end))
                                   (fun _ => createSearchIndex JSON_parse))
                else log LOG ([9989%N] ++ lit " Index check passed. Ready to search."))) w0)
    by (subst info; destruct r0; reflexivity).
  cbn -[createSearchIndex].
  destruct (negb (reply_truthy info)).
  - cbn -[createSearchIndex]. unfold else_run. cbn -[createSearchIndex].
    specialize (Hc w0). destruct (run h (createSearchIndex JSON_parse) w0) as [o w1 t].
    cbn in Hc. subst o. reflexivity.
  - destruct (negb (includes (lit "rating") (stringify (reply_value info)))
              || negb (includes (lit "location") (stringify (reply_value info)))).
    + cbn -[createSearchIndex].
      destruct (h reply (FT_DROPINDEX INDEX_NAME) w0) as [[e | r1] w1]; cbn -[createSearchIndex].
      * reflexivity.
      * unfold else_run. cbn -[createSearchIndex].
        specialize (Hc w1). destruct (run h (createSearchIndex JSON_parse) w1) as [o w2 t].
        cbn in Hc. subst o. reflexivity.
    + reflexivity.
Qed.

(** C7 (amended): on startup [ensureSearchIndex] never throws and does what
    [index_ensured] says: it creates the index and runs Full Sync when the
    index is absent (the request for its metadata fails or comes back
    empty); it drops the index, creates it again and runs Full Sync when the
    JSON text of the metadata lacks [rating] or lacks [location] (no other
    field name is looked for); it does nothing otherwise; a failed drop and a
    failed creation are logged, except that a creation failing because the
    index already exists is passed over in silence. *)
Theorem index_schema_manager (w : W) :
  run h (ensureSearchIndex JSON_parse) w = index_ensured JSON_parse h w
  /\ out (run h (ensureSearchIndex JSON_parse) w) = Returned tt
  /\ (forall w', run h (createSearchIndex JSON_parse) w' = index_created JSON_parse h w')
  /\ (forall info,
        stale_schema info
        = negb (includes (lit "rating") (stringify (reply_value info)))
          || negb (includes (lit "location") (stringify (reply_value info)))).
Proof.
  split; [apply ensureSearchIndex_run|]. split; [apply ensureSearchIndex_returns|].
  split; [apply createSearchIndex_run | reflexivity].
Qed.

End Sync.

(** C7 as stated fails: the metadata of an index created before [systemTags]
    joined the schema lacks that required field name, and the index is
    neither dropped nor created again, nor is anything synchronised. *)
Lemma index_schema_manager_counterexample :
  let info := info_of INDEX_NAME old_schema in
  In (lit "systemTags") required_fields
  /\ includes (lit "systemTags") (stringify (reply_value info)) = false
  /\ run shop_stores (ensureSearchIndex no_json) old_index_world
     = {| out := Returned tt; world := old_index_world;
          trace := [EvCall (FT_INFO INDEX_NAME) (Resolved info);
                    EvLog LOG ([9989%N] ++ lit " Index check passed. Ready to search.")] |}.
Proof.
  cbv zeta. split; [|split; vm_compute; reflexivity].
  unfold required_fields. simpl. tauto.
Qed.

(** C5: for every record, Full Sync queues the field map that Incremental
    Sync writes plus the field [createdAt] (NaN, since the column is not
    selected), and the same suggestion entry.  In the shop, Incremental Sync
    of the shoes writes ten fields and Full Sync eleven, so the entry has a
    [createdAt] only after Full Sync; for an identifier without a record
    Incremental Sync reads the record and does nothing else. *)
Theorem incremental_sync_omits_createdAt :
  (forall JSON_parse (p : Product),
      sync_all_item JSON_parse (select_for_sync p)
      = [ Q_HSET (lit "product:" ++ id p)
            (sync_one_fields JSON_parse p ++ [(lit "createdAt", VNum NaN)]);
          Q_SUGADD SUGGESTION_KEY (name p)
            (num_toString (suggestion_score (salesCount p)))
            (suggestion_payload (id p) (slug p) (price p) (first_image (images p))) ])
  /\ (let r := run shop_stores (syncProductToRedis no_json (lit "p1")) shop_world in
      out r = Returned tt
      /\ calls (trace r)
         = [ EvCall (Product_findUnique (lit "p1")) (Resolved (Some shoes));
             EvCall (HSET (lit "product:p1") (sync_one_fields no_json shoes))
               (Resolved (RInt 1));
             EvCall (FT_SUGADD SUGGESTION_KEY (lit "Running shoes") (lit "12")
                       (suggestion_payload (lit "p1") (lit "running-shoes") (Int 350000)
                          (VStr (lit "shoes.jpg"))))
               (Resolved (RInt 1)) ]
      /\ length (sync_one_fields no_json shoes) = 10%nat
      /\ (hashes (world r) !! lit "product:p1") ≫= (fun e => e !! lit "createdAt") = None)
  /\ (let r := run shop_stores (syncAllProductsToRedis no_json) shop_world in
      out r = Returned (Some (Int 1))
      /\ calls (trace r)
         = [ EvCall (Product_findMany_select (lit "ACTIVE")) (Resolved [select_for_sync shoes]);
             EvCall (DEL SUGGESTION_KEY) (Resolved (RInt 1));
             EvCall (PIPELINE_EXEC
                       [ Q_HSET (lit "product:p1")
                           (sync_one_fields no_json shoes ++ [(lit "createdAt", VNum NaN)]);
                         Q_SUGADD SUGGESTION_KEY (lit "Running shoes") (lit "12")
                           (suggestion_payload (lit "p1") (lit "running-shoes") (Int 350000)
                              (VStr (lit "shoes.jpg"))) ])
               (Resolved (RArr [])) ]
      /\ (hashes (world r) !! lit "product:p1") ≫= (fun e => e !! lit "createdAt")
         = Some (VNum NaN))
  /\ run shop_stores (syncProductToRedis no_json (lit "gone")) shop_world
     = {| out := Returned tt; world := shop_world;
          trace := [EvCall (Product_findUnique (lit "gone")) (Resolved None)] |}.
Proof.
  split; [intros; reflexivity|].
  split; [cbv zeta; repeat split; vm_compute; reflexivity|].
  split; [cbv zeta; repeat split; vm_compute; reflexivity|].
  vm_compute. reflexivity.
Qed.

End SyncProofs.

(** ** Detail lookup *)

Module DetailProofs.
Import ProductReadService RunFacts.

#[local] Arguments lit : simpl never.
#[local] Arguments map_detail : simpl never.
#[local] Arguments not_found : simpl never.
#[local] Arguments is_ACTIVE : simpl never.

Section Detail.
Context {W : Type} (h : handler W).

(** C10 (amended): [findOnePublic] returns a product only if its status is
    ACTIVE.  A cached entry is served, without any lookup in the source store,
    exactly when its status is ACTIVE; on a miss or a non-ACTIVE entry the
    source store is looked up, and the lookup decides: a not-found error when
    no product matches or the match is not ACTIVE, else the mapped product,
    which is written to the detail cache and returned.  A failure of a
    collaborator is raised as it is. *)
Theorem findOnePublic_only_active (idOrSlug : jsstring) (w : W) :
  let r := run h (findOnePublic idOrSlug) w in
  let c := h _ (Cache_getProductDetail idOrSlug) w in
  match out r with
  | Returned m => is_ACTIVE (mapped_status m) = true
  | Raised _ => True
  end
  /\ match fst c with
     | Rejected e =>
         r = {| out := Raised e; world := snd c;
                trace := [EvCall (Cache_getProductDetail idOrSlug) (fst c)] |}
     | Resolved cached =>
         match active_entry cached with
         | Some m =>
             r = {| out := Returned m; world := snd c;
                    trace := [EvCall (Cache_getProductDetail idOrSlug) (fst c)] |}
         | None =>
             let f := h _ (Product_findFirst idOrSlug) (snd c) in
             exists rest,
               trace r = EvCall (Cache_getProductDetail idOrSlug) (fst c)
                         :: EvCall (Product_findFirst idOrSlug) (fst f) :: rest
               /\ match fst f with
                  | Rejected e => out r = Raised e /\ rest = []
                  | Resolved None => out r = Raised not_found /\ rest = []
                  | Resolved (Some p) =>
                      if is_ACTIVE (status (product p)) then
                        let set := Cache_setProductDetail (id (product p)) (slug (product p))
                                     (map_detail p) in
                        let st := h _ set (snd f) in
                        rest = [EvCall set (fst st)]
                        /\ out r = match fst st with
                                   | Resolved _ => Returned (map_detail p)
                                   | Rejected e => Raised e
                                   end
                      else out r = Raised not_found /\ rest = []
                  end
         end
     end.
Proof.
  intros r c. subst r c. unfold findOnePublic. cbn.
  destruct (h _ (Cache_getProductDetail idOrSlug) w) as [[e | cached] w0]; cbn.
  { split; [exact I | reflexivity]. }
  destruct (active_entry cached) as [m|] eqn:Ha; cbn.
  { split; [|reflexivity].
    unfold active_entry in Ha. destruct cached as [c|]; [|discriminate].
    destruct (is_ACTIVE (mapped_status c)) eqn:Hc; [|discriminate].
    injection Ha as <-. exact Hc. }
  destruct (h _ (Product_findFirst idOrSlug) w0) as [[e | [p|]] w1]; cbn.
  - split; [exact I|]. eexists. split; [reflexivity|]. split; reflexivity.
  - destruct (is_ACTIVE (status (product p))) eqn:Hp; cbn.
    + destruct (h _ (Cache_setProductDetail (id (product p)) (slug (product p))
                       (map_detail p)) w1) as [[e | []] w2]; cbn.
      * split; [exact I|]. eexists. split; [reflexivity|]. split; reflexivity.
      * split; [exact Hp|]. eexists. split; [reflexivity|]. split; reflexivity.
    + split; [exact I|]. eexists. split; [reflexivity|]. split; reflexivity.
  - split; [exact I|]. eexists. split; [reflexivity|]. split; reflexivity.
Qed.

End Detail.

(** C10 as stated fails: the detail cache still holds the shoes as INACTIVE
    while the source store has them ACTIVE again; the lookup falls through to
    the source store and returns the product instead of a not-found error. *)
Lemma findOnePublic_only_active_counterexample :
  details stale_cache_world !! lit "p1" = Some stale_detail
  /\ is_ACTIVE (mapped_status stale_detail) = false
  /\ out (run shop_stores (findOnePublic (lit "p1")) stale_cache_world)
     = Returned (map_detail shoes_detail).
Proof. split; [|split]; vm_compute; reflexivity. Qed.

End DetailProofs.

(** ** The status filter of the index path *)

Module IndexProofs.
Import ProductReadService RunFacts.

Lemma concat_filter_nonempty (l : list jsstring) :
  concat (List.filter nonempty l) = concat l.
Proof.
  induction l as [|x l IH]; [reflexivity|].
  destruct x; simpl; rewrite IH; reflexivity.
Qed.

Lemma clause_or_empty_filter (l : list jsstring) :
  Forall (fun c => c = [] \/ filter_clause c) l -> Forall filter_clause (List.filter nonempty l).
Proof.
  induction 1 as [|x l Hx Hl IH]; [constructor|].
  destruct x as [|c x]; simpl; [exact IH|].
  constructor; [|exact IH]. destruct Hx as [Hx | Hx]; [discriminate | exact Hx].
Qed.

Lemma sanitized_tag_value x : tag_value (sanitizeTagKeyword x).
Proof.
  unfold tag_value, sanitizeTagKeyword.
  apply JSFacts.Forall_collapse_from; [reflexivity|].
  apply JSFacts.Forall_trim, JSFacts.blank_class_clean. reflexivity.
Qed.

(** *** Escaped text *)

Lemma space_allowed c : is_space c = true -> allowed c = true.
Proof. unfold allowed. intros ->. rewrite !orb_true_r. reflexivity. Qed.

Lemma escaped_flat_map x :
  escaped (flat_map (fun c => if allowed c then [c] else [92%N; c]) x).
Proof.
  induction x as [|c x IH]; simpl; [constructor|].
  destruct (allowed c) eqn:E; simpl; constructor; assumption.
Qed.

Lemma escaped_trimStart s : escaped s -> escaped (trimStart s).
Proof.
  induction 1 as [|c s Hc Hs IH|c s Hc Hs IH]; simpl.
  - constructor.
  - destruct (is_space c); [exact IH | constructor; assumption].
  - constructor; assumption.
Qed.

Lemma escaped_drop_last (n : nat) : forall s c,
  (length s <= n)%nat -> is_space c = true -> escaped (s ++ [c]) -> escaped s.
Proof.
  induction n as [|n IH]; intros s c Hn Hc H.
  - destruct s; [constructor | simpl in Hn; lia].
  - destruct s as [|a s]; [constructor|].
    simpl in H. remember (a :: s ++ [c]) as t eqn:Et.
    destruct H as [|a' s' Ha Hs|c' s' Hc' Hs]; [discriminate Et | |].
    + injection Et as -> ->.
      constructor; [exact Ha|]. apply (IH s c); [simpl in Hn; lia | exact Hc | exact Hs].
    + injection Et as <- E. destruct s as [|b s]; simpl in E.
      * injection E as -> <-. apply space_allowed in Hc. congruence.
      * injection E as -> ->. constructor; [exact Hc'|].
        apply (IH s c); [simpl in Hn; lia | exact Hc | exact Hs].
Qed.

Lemma trimEnd_snoc s c :
  trimEnd (s ++ [c]) = if is_space c then trimEnd s else s ++ [c].
Proof.
  unfold trimEnd. rewrite rev_app_distr. simpl.
  destruct (is_space c); [reflexivity|].
  simpl. rewrite rev_involutive. reflexivity.
Qed.

Lemma escaped_trimEnd s : escaped s -> escaped (trimEnd s).
Proof.
  induction s as [|c s IH] using rev_ind; intros H; [exact H|].
  rewrite trimEnd_snoc. destruct (is_space c) eqn:Hc; [|exact H].
  apply IH. apply (escaped_drop_last (length s) s c); [lia | exact Hc | exact H].
Qed.

Lemma escaped_escapeRediSearchText x : escaped (escapeRediSearchText x).
Proof.
  unfold escapeRediSearchText, trim.
  apply escaped_trimEnd, escaped_trimStart, escaped_flat_map.
Qed.

Lemma split_spaces_cons b s : exists x l, split_spaces_from b s = x :: l.
Proof.
  destruct s as [|c s]; simpl; [eauto|].
  destruct (is_space c); [destruct b; [|eauto]|].
  - revert c. induction s as [|d s IH]; intros c; simpl; [eauto|].
    destruct (is_space d); [apply (IH d)|].
    destruct (split_spaces_from false s); eauto.
  - destruct (split_spaces_from false s); eauto.
Qed.

Lemma escaped_tokens s : escaped s -> forall b, Forall escaped (split_spaces_from b s).
Proof.
  induction 1 as [|c s Hc Hs IH|c s Hc Hs IH]; intros b.
  - repeat constructor.
  - simpl. destruct (is_space c).
    + destruct b; [apply IH|]. constructor; [constructor | apply IH].
    + destruct (split_spaces_cons false s) as (x & l & E).
      specialize (IH false). rewrite E in *. inversion IH; subst.
      constructor; [constructor; assumption | assumption].
  - assert (H92 : is_space 92%N = false) by reflexivity.
    assert (Hsp : is_space c = false).
    { destruct (is_space c) eqn:E; [|reflexivity]. apply space_allowed in E. congruence. }
    cbn [split_spaces_from]. rewrite H92. cbn [split_spaces_from]. rewrite Hsp.
    destruct (split_spaces_cons false s) as (x & l & E).
    specialize (IH false). rewrite E in *. inversion IH; subst.
    constructor; [constructor; assumption | assumption].
Qed.

Lemma text_body_app a b : text_body a -> text_body b -> text_body (a ++ b).
Proof.
  induction 1 as [|c s Hc Hs IH|s Hs IH|c s Hc Hs IH]; simpl; intros Hb.
  - exact Hb.
  - apply body_plain; auto.
  - apply body_star; auto.
  - apply body_quoted; auto.
Qed.

Lemma escaped_text_body s : escaped s -> text_body s.
Proof.
  induction 1 as [|c s Hc Hs IH|c s Hc Hs IH];
    [apply body_nil | apply body_plain | apply body_quoted]; assumption.
Qed.

Lemma text_body_tokens (tokens : list jsstring) :
  Forall escaped tokens ->
  text_body (join (lit " ") (map (fun t => t ++ lit "*") tokens)).
Proof.
  induction 1 as [|t l Ht Hl IH]; [constructor|].
  assert (Hstar : text_body (t ++ lit "*")).
  { apply text_body_app; [apply escaped_text_body, Ht | apply body_star, body_nil]. }
  destruct l as [|u l]; [exact Hstar|].
  change (text_body ((t ++ lit "*") ++ lit " " ++ join (lit " ") (map (fun t => t ++ lit "*") (u :: l)))).
  apply text_body_app; [exact Hstar|].
  apply (body_plain 32%N); [reflexivity | exact IH].
Qed.

(** The query string is the status filter followed by clauses of the
    shapes above: what the request supplies reaches the query only escaped or
    sanitized. *)
Lemma ftQuery_shape query :
  build_ftQuery query = lit "@status:{ACTIVE}" ++ concat (query_clauses query)
  /\ Forall filter_clause (query_clauses query).
Proof.
  unfold query_clauses. split.
  - rewrite concat_filter_nonempty. unfold build_ftQuery. cbn [concat].
    rewrite app_nil_r.
    destruct (text_conditions query) as [|c l]; cbn [nonempty];
      rewrite <- ?app_assoc; reflexivity.
  - apply clause_or_empty_filter.
    constructor; [|constructor; [|constructor; [|constructor; [|constructor; [|constructor]]]]].
    + unfold text_conditions.
      destruct (nonempty (searchKeyword query)); [|left; reflexivity].
      destruct (nonempty (escapeRediSearchText (searchKeyword query))); [|left; reflexivity].
      right.
      apply (text_filter
               (join (lit " ")
                  (map (fun t => t ++ lit "*")
                     (split_spaces (escapeRediSearchText (searchKeyword query)))))
               (sanitizeTagKeyword (searchKeyword query))).
      * apply text_body_tokens, escaped_tokens, escaped_escapeRediSearchText.
      * apply sanitized_tag_value.
    + unfold tag_clause. destruct (tag query) as [t|]; [|left; reflexivity].
      destruct (nonempty t); [right | left; reflexivity].
      apply tag_filter, sanitized_tag_value.
    + unfold location_clause. destruct (locations query) as [l|]; [|left; reflexivity].
      destruct (nonempty l); [right | left; reflexivity].
      apply location_filter. apply Forall_forall. intros v Hv.
      apply list_elem_of_fmap in Hv. destruct Hv as (x & -> & _). apply sanitized_tag_value.
    + unfold price_clause.
      destruct (minPrice query) as [lo|], (maxPrice query) as [hi|];
        try (left; reflexivity); right.
      * apply (price_filter lo hi).
      * apply (price_filter lo PosInf).
      * apply (price_filter NegInf hi).
    + unfold rating_clause. destruct (rating_floor query) as [r|]; [|left; reflexivity].
      destruct (num_truthy r); [right; apply rating_filter | left; reflexivity].
Qed.

#[local] Arguments lit : simpl never.
#[local] Arguments resolved_page : simpl never.
#[local] Arguments resolved_limit : simpl never.
#[local] Arguments resolved_skip : simpl never.
#[local] Arguments build_ftQuery : simpl never.
#[local] Arguments build_where : simpl never.
#[local] Arguments build_orderBy : simpl never.
#[local] Arguments sortField : simpl never.
#[local] Arguments sortDir : simpl never.
#[local] Arguments cacheKey : simpl never.
#[local] Arguments parse_search_reply : simpl never.
#[local] Arguments map_to_public : simpl never.
#[local] Arguments num_toString : simpl never.
#[local] Arguments error_toString : simpl never.
#[local] Arguments message : simpl never.
#[local] Arguments Math_ceil_div : simpl never.
#[local] Arguments empty_page : simpl never.
#[local] Arguments str_truthy : simpl never.

Section Searches.
Context (JSON_parse : jsstring -> option value).
Context (queryHash : FindAllPublicDto -> jsstring).
Context (String_toNumber : jsstring -> number).

Abbreviation findAllPublic := (findAllPublic JSON_parse queryHash String_toNumber).

Lemma search_replies_run {W} (h : handler W) query w :
  search_replies (trace (run h (findAllPublic query) w))
  = if shouldUseRedis query then
      match fst (h _ (FT_SEARCH INDEX_NAME (build_ftQuery query) (resolved_skip query)
                        (resolved_limit query) (sortField query) (sortDir query)) w) with
      | Resolved r => [r]
      | Rejected _ => []
      end
    else [].
Proof.
  unfold ProductReadService.findAllPublic, redis_search, db_fallback.
  destruct (shouldUseRedis query) eqn:E; settle h; reflexivity.
Qed.

End Searches.

Lemma sync_one_status (JSON_parse : jsstring -> option value) (p : Product)
    (old : gmap jsstring value) :
  ((list_to_map (sync_one_fields JSON_parse p) : gmap jsstring value) ∪ old) !! lit "status"
  = Some (VStr (status p)).
Proof.
  apply lookup_union_Some_l. unfold sync_one_fields. cbv zeta.
  generalize (cleanSystemTags JSON_parse (systemTags p)).
  generalize (frontendJson (id p) (name p) (slug p) (price p) (originalPrice p)
                (first_image (images p)) (salesCount p) (shop p)).
  generalize (location_of (shop p)).
  generalize (num_or (salesCount p) (Int 0)). generalize (num_or (rating p) (Int 0)).
  generalize (name p) (price p) (status p) (id p) (slug p).
  intros. vm_compute. reflexivity.
Qed.

Section StatusFilter.
Context (ft_search : World -> jsstring -> number -> number -> jsstring -> jsstring -> settled reply).
Context (db_findMany : list Product -> ProductWhereInput -> number -> number -> OrderBy -> list Product).
Context (db_count : list Product -> ProductWhereInput -> number).
Context (JSON_parse : jsstring -> option value).
Context (queryHash : FindAllPublicDto -> jsstring).
Context (String_toNumber : jsstring -> number).

Abbreviation the_stores := (stores ft_search db_findMany db_count).
Abbreviation findAll := (ProductReadService.findAllPublic JSON_parse queryHash String_toNumber).

Lemma searches_list_active (Hstore : honours_status_filter ft_search) query w r key :
  r ∈ search_replies (trace (run the_stores (findAll query) w)) ->
  RStr key ∈ reply_keys r ->
  entry_status w key = Some (VStr (lit "ACTIVE")).
Proof.
  rewrite search_replies_run.
  destruct (shouldUseRedis query); [|intros H; inversion H].
  cbn [stores]. unfold on_redis.
  destruct (redis_up w); cbn [fst]; [|intros H; inversion H].
  destruct (ft_search w (build_ftQuery query) (resolved_skip query) (resolved_limit query)
              (sortField query) (sortDir query)) as [e | r0] eqn:Es; [intros H; inversion H|].
  intros Hr Hk. apply list_elem_of_singleton in Hr. subst r0.
  destruct (ftQuery_shape query) as [Eq Hclauses].
  rewrite Eq in Es. exact (Hstore _ _ _ _ _ _ _ _ Hclauses Es Hk).
Qed.

Lemma sync_keeps_entry w k p :
  redis_up w = true -> db_up w = true ->
  List.find (fun x => str_eqb (id x) k) (products w) = Some p ->
  entry_status (world (run the_stores (syncProductToRedis JSON_parse k) w))
    (lit "product:" ++ id p) = Some (VStr (status p)).
Proof.
  intros Hup Hdb Hfind. unfold syncProductToRedis.
  cbn -[sync_one_fields lit suggestion_payload suggestion_score num_toString].
  unfold on_db. rewrite Hdb, Hfind.
  cbn -[sync_one_fields lit suggestion_payload suggestion_score num_toString].
  unfold on_redis. rewrite Hup.
  cbn -[sync_one_fields lit suggestion_payload suggestion_score num_toString].
  unfold on_redis. cbn [redis_up hset]. rewrite Hup.
  cbn -[sync_one_fields lit suggestion_payload suggestion_score num_toString].
  unfold entry_status, sugadd, with_suggestions, hset. cbn [hashes].
  rewrite lookup_insert_eq. cbn [mbind option_bind]. apply sync_one_status.
Qed.

(** C6: every query string that [findAllPublic] sends to the index is the
    status filter [@status:{ACTIVE}] followed by the other clauses, each
    after a space and closed on itself (the values of the request stand in
    them escaped or sanitized): a conjunction whose first conjunct is the
    status filter.  Hence, with an index store that intersects the clauses of
    such a query, every document a search lists has an entry whose status is
    ACTIVE.  Incremental Sync of a record [p] that is not ACTIVE leaves (or
    puts) its entry in the index, with the status of [p], and no search made
    afterwards lists that entry. *)
Theorem inactive_entries_not_returned
    (Hstore : honours_status_filter ft_search)
    (query : FindAllPublicDto) (w : World) (k : jsstring) (p : Product)
    (Hup : redis_up w = true) (Hdb : db_up w = true)
    (Hfind : List.find (fun x => str_eqb (id x) k) (products w) = Some p)
    (Hstatus : status p <> lit "ACTIVE") :
  (build_ftQuery query = lit "@status:{ACTIVE}" ++ concat (query_clauses query)
   /\ Forall filter_clause (query_clauses query))
  /\ (forall r key,
        r ∈ search_replies (trace (run the_stores (findAll query) w)) ->
        RStr key ∈ reply_keys r ->
        entry_status w key = Some (VStr (lit "ACTIVE")))
  /\ (let w' := world (run the_stores (syncProductToRedis JSON_parse k) w) in
      entry_status w' (lit "product:" ++ id p) = Some (VStr (status p))
      /\ forall r,
           r ∈ search_replies (trace (run the_stores (findAll query) w')) ->
           RStr (lit "product:" ++ id p) ∉ reply_keys r).
Proof.
  split; [apply ftQuery_shape|].
  split; [intros r key; apply searches_list_active, Hstore|].
  cbv zeta. pose proof (sync_keeps_entry w k p Hup Hdb Hfind) as Hentry.
  split; [exact Hentry|].
  intros r Hr Hk.
  pose proof (searches_list_active Hstore _ _ _ _ Hr Hk) as Hactive.
  rewrite Hentry in Hactive. injection Hactive as E. exact (Hstatus E).
Qed.

End StatusFilter.

Lemma status_only_index_honours : honours_status_filter status_only_index.
Proof.
  intros w clauses offset count sf sd r key _ Hs Hk.
  unfold status_only_index in Hs. unfold entry_status.
  destruct (hashes w !! lit "product:p1") as [e|] eqn:He;
    [|injection Hs as <-; inversion Hk].
  destruct (e !! lit "status") as [[| | | | st | |]|] eqn:Est;
    try (injection Hs as <-; inversion Hk).
  destruct (e !! lit "json") as [[| | | | json | |]|] eqn:Ej;
    try (injection Hs as <-; inversion Hk).
  destruct (is_ACTIVE st) eqn:Ha; [|injection Hs as <-; inversion Hk].
  injection Hs as <-. cbn in Hk. apply list_elem_of_singleton in Hk.
  injection Hk as ->. rewrite He. cbn. rewrite Est.
  apply bool_decide_eq_true in Ha. rewrite Ha. reflexivity.
Qed.

Lemma inactive_entries_not_returned_witness :
  let the_stores := stores status_only_index all_rows count_rows in
  let w' := world (run the_stores (syncProductToRedis no_json (lit "p1")) deactivated_world) in
  entry_status w' (lit "product:p1") = Some (VStr (lit "INACTIVE"))
  /\ forall r,
       r ∈ search_replies
             (trace (run the_stores (findAllPublic no_json fixed_hash not_a_number tag_query) w')) ->
       RStr (lit "product:p1") ∉ reply_keys r.
Proof.
  cbv zeta.
  refine (proj2 (proj2 (inactive_entries_not_returned status_only_index all_rows count_rows
            no_json fixed_hash not_a_number status_only_index_honours tag_query
            deactivated_world (lit "p1") (inactive shoes) _ _ _ _))).
  - reflexivity.
  - reflexivity.
  - reflexivity.
  - intros H. vm_compute in H. discriminate H.
Defined.

End IndexProofs.

(** ** Pagination and the fallback of the query planner *)

Module PaginationProofs.
Import ProductReadService RunFacts Observe.

#[local] Arguments lit : simpl never.
#[local] Arguments resolved_page : simpl never.
#[local] Arguments resolved_limit : simpl never.
#[local] Arguments resolved_skip : simpl never.
#[local] Arguments build_ftQuery : simpl never.
#[local] Arguments build_where : simpl never.
#[local] Arguments build_orderBy : simpl never.
#[local] Arguments sortField : simpl never.
#[local] Arguments sortDir : simpl never.
#[local] Arguments cacheKey : simpl never.
#[local] Arguments parse_search_reply : simpl never.
#[local] Arguments map_to_public : simpl never.
#[local] Arguments num_toString : simpl never.
#[local] Arguments error_toString : simpl never.
#[local] Arguments message : simpl never.
#[local] Arguments Math_ceil_div : simpl never.
#[local] Arguments empty_page : simpl never.
#[local] Arguments str_truthy : simpl never.
#[local] Arguments parse_fields : simpl never.
#[local] Arguments parse_payload : simpl never.

Lemma clamp_from_one n d :
  Math_max (Int 1) (num_or n (Int d)) <> NaN
  /\ num_gtb (Int 1) (Math_max (Int 1) (num_or n (Int d))) = false.
Proof.
  destruct n as [| | |z]; unfold num_or; simpl; try (split; [discriminate|]; try reflexivity).
  - apply Z.ltb_ge. lia.
  - destruct (z =? 0)%Z; simpl; (split; [discriminate|]); apply Z.ltb_ge; lia.
Qed.

Lemma resolved_limit_positive query l : resolved_limit query = Int l -> (1 <= l)%Z.
Proof.
  intros E. pose proof (clamp_from_one (Number_of (limit query)) 20) as [_ H].
  unfold resolved_limit in E. rewrite E in H. simpl in H. apply Z.ltb_ge in H. exact H.
Qed.


Lemma ceil_div_spec t l :
  (1 <= l)%Z ->
  exists n, Math_ceil_div (Int t) (Int l) = Int n /\ (t <= n * l)%Z /\ ((n - 1) * l < t)%Z.
Proof.
  intros Hl. exists (- ((- t) / l))%Z. unfold Math_ceil_div.
  destruct (Z.eqb_spec l 0); [lia|]. split; [reflexivity|].
  pose proof (Z.div_mod (- t) l ltac:(lia)) as Hd.
  pose proof (Z.mod_pos_bound (- t) l ltac:(lia)) as Hm.
  nia.
Qed.

Section Pages.
Context (JSON_parse : jsstring -> option value).
Context (String_toNumber : jsstring -> number).


Lemma parse_payload_short j items :
  parse_payload JSON_parse j = inr items -> (length items <= 1)%nat.
Proof.
  unfold parse_payload. intros H.
  destruct j as [j|]; [|injection H as <-; simpl; lia].
  destruct (reply_truthy j); [|injection H as <-; simpl; lia].
  destruct (JSON_parse (reply_toString j)); [|discriminate].
  injection H as <-. simpl. lia.
Qed.

Lemma parse_fields_short f items :
  parse_fields JSON_parse f = inr items -> (length items <= 1)%nat.
Proof.
  unfold parse_fields. intros H.
  destruct f as [[| | s | l]|]; try (injection H as <-; simpl; lia).
  - destruct (2 <=? length s)%nat; [|injection H as <-; simpl; lia].
    eapply parse_payload_short, H.
  - destruct (2 <=? length l)%nat; [|injection H as <-; simpl; lia].
    eapply parse_payload_short, H.
Qed.

Lemma collect_products_bound (n : nat) : forall l items,
  (length l <= n)%nat ->
  collect_products JSON_parse l = inr items ->
  (2 * length items <= length l)%nat /\ Forall from_index items.
Proof.
  induction n as [|n IH]; intros l items Hn H.
  - destruct l; [injection H as <-; split; [simpl; lia | constructor] | simpl in Hn; lia].
  - destruct l as [|k [|f rest]]; cbn in H.
    + injection H as <-. split; [simpl; lia | constructor].
    + injection H as <-. split; [simpl; lia | constructor].
    + destruct (parse_fields JSON_parse (Some f)) as [e | found] eqn:Ef; [discriminate|].
      destruct (collect_products JSON_parse rest) as [e | more] eqn:Er; [discriminate|].
      injection H as <-.
      destruct (IH rest more) as [Hb Hi]; [simpl in Hn; lia | exact Er |].
      pose proof (parse_fields_short _ _ Ef) as Hf.
      split; [rewrite length_app; simpl; lia|].
      apply Forall_app. split; [|exact Hi].
      revert Ef. clear. unfold parse_fields, parse_payload. intros H.
      repeat match type of H with
             | match ?x with _ => _ end = _ => destruct x; try discriminate H
             | (if ?x then _ else _) = _ => destruct x; try discriminate H
             end; injection H as <-; repeat constructor.
Qed.

(** X13: a page read from a reply of the index holds payloads of the index
    only, at most one for each (key, fields) pair that follows the total in
    the reply, whatever the limit of the request; its page and its limit are
    those of the request. *)
Theorem index_page_fits_reply (searchRes : reply) (page limit : number) (pg : Page)
    (Hpg : parse_search_reply JSON_parse String_toNumber searchRes page limit = inr pg) :
  Forall from_index (data pg)
  /\ (2 * length (data pg) <= length (default [] (reply_elements searchRes)) - 1)%nat
  /\ meta_page (meta pg) = page /\ meta_limit (meta pg) = limit.
Proof.
  unfold parse_search_reply in Hpg.
  assert (H : exists items,
             collect_products JSON_parse (drop 1 (default [] (reply_elements searchRes)))
             = inr items
             /\ data pg = items /\ meta_page (meta pg) = page /\ meta_limit (meta pg) = limit).
  { destruct searchRes; try discriminate;
      match type of Hpg with
      | match ?c with _ => _ end = _ => destruct c as [e | products] eqn:Ec; [discriminate|]
      end;
      injection Hpg as <-; exists products; repeat split; exact Ec. }
  destruct H as (items & Hc & -> & Hp & Hl).
  apply (collect_products_bound (length (drop 1 (default [] (reply_elements searchRes)))))
    in Hc as [Hb Hi]; [|lia].
  rewrite length_drop in Hb. repeat split; assumption.
Qed.

End Pages.


Lemma index_page_fits_reply_witness :
  let searchRes :=
    RArr [RInt 1; RStr (lit "product:p1"); RArr [RStr (lit "json"); RStr (lit "{}")]] in
  let pg := {| data := [FromIndex (VObj [])];
               meta := {| total := VNum (Int 1); meta_page := Int 1; meta_limit := Int 20;
                          last_page := Int 1 |} |} in
  Forall from_index (data pg)
  /\ (2 * length (data pg) <= length (default [] (reply_elements searchRes)) - 1)%nat
  /\ meta_page (meta pg) = Int 1 /\ meta_limit (meta pg) = Int 20.
Proof.
  apply (index_page_fits_reply (fun _ => Some (VObj [])) not_a_number).
  reflexivity.
Defined.

Lemma cache_key_only_names_the_entry
    (JSON_parse : jsstring -> option value) (hash1 hash2 : FindAllPublicDto -> jsstring)
    (String_toNumber : jsstring -> number) {W : Type} (h : handler W)
    (query : FindAllPublicDto) (w : W) :
  let r1 := run h (ProductReadService.findAllPublic JSON_parse hash1 String_toNumber query) w in
  let r2 := run h (ProductReadService.findAllPublic JSON_parse hash2 String_toNumber query) w in
  without_sets (trace r1) = without_sets (trace r2)
  /\ set_values (trace r1) = set_values (trace r2)
  /\ (cache_sets (trace r1) = [] -> out r1 = out r2 /\ world r1 = world r2).
Proof.
  intros r1 r2. subst r1 r2.
  unfold ProductReadService.findAllPublic, redis_search, db_fallback, source_page, cacheKey.
  destruct (shouldUseRedis query) eqn:E; settle h.
  all: repeat split; try reflexivity; try discriminate.
Qed.

(** X17: findAllPublic never reads the categoryId, the categorySlug and the
    brandId of a request.  Whatever their values, it is the same method as
    for the request without them, except that the key of the result cache is
    the digest of the request as it was sent: against any stores the two runs
    make the same calls with the same outcomes and log the same lines, up to
    the write of the result cache, which carries the same page and expiry;
    and when no such write is made they return the same page. *)
Theorem category_and_brand_are_ignored
    (JSON_parse : jsstring -> option value) (queryHash : FindAllPublicDto -> jsstring)
    (String_toNumber : jsstring -> number) (query : FindAllPublicDto)
    (categoryId categorySlug : option jsstring) (brandId : option number) :
  let sent := with_category query categoryId categorySlug brandId in
  ProductReadService.findAllPublic JSON_parse queryHash String_toNumber sent
  = ProductReadService.findAllPublic JSON_parse (fun _ => queryHash sent) String_toNumber query
  /\ forall (W : Type) (h : handler W) (w : W),
       let r1 := run h (ProductReadService.findAllPublic JSON_parse queryHash String_toNumber
                          sent) w in
       let r2 := run h (ProductReadService.findAllPublic JSON_parse queryHash String_toNumber
                          query) w in
       without_sets (trace r1) = without_sets (trace r2)
       /\ set_values (trace r1) = set_values (trace r2)
       /\ (cache_sets (trace r1) = [] -> out r1 = out r2 /\ world r1 = world r2).
Proof.
  intros sent. split; [reflexivity|]. intros W h w.
  change (ProductReadService.findAllPublic JSON_parse queryHash String_toNumber sent)
    with (ProductReadService.findAllPublic JSON_parse (fun _ => queryHash sent)
            String_toNumber query).
  apply cache_key_only_names_the_entry.
Qed.

(** X18: the two paths order alike for price_asc, price_desc and no sort
    (salesCount descending), but not for newest: only the source-store path
    orders by createdAt descending, the index path orders a newest request by
    salesCount descending like any other value of sort. *)
Theorem sort_on_both_paths (query : FindAllPublicDto) :
  (sortField query, sortDir query)
  = match build_orderBy query with
    | PriceAsc => (lit "price", lit "ASC")
    | PriceDesc => (lit "price", lit "DESC")
    | SalesCountDesc | CreatedAtDesc => (lit "salesCount", lit "DESC")
    end
  /\ (build_orderBy query = CreatedAtDesc <-> sort query = Some (lit "newest"))
  /\ (build_orderBy query = PriceAsc <-> sort query = Some (lit "price_asc"))
  /\ (build_orderBy query = PriceDesc <-> sort query = Some (lit "price_desc")).
Proof.
  unfold sortField, sortDir, build_orderBy, sort_is, str_eqb.
  destruct (sort query) as [s|].
  - repeat case_bool_decide; subst; try discriminate;
      repeat split; try reflexivity; try discriminate; try congruence.
  - repeat split; discriminate.
Qed.

Section Fallback.
Context (JSON_parse : jsstring -> option value).
Context (queryHash : FindAllPublicDto -> jsstring).
Context (String_toNumber : jsstring -> number).
Context {W : Type} (h : handler W).

Abbreviation findAllPublic := (findAllPublic JSON_parse queryHash String_toNumber).

(** X3: the source store is consulted exactly when the index gave no page
    (the index path was not taken, the search was rejected, or its reply could
    not be read): then findAllPublic makes one findMany and one count, both
    with the filter built from the request, and findMany with take = limit,
    skip = (page - 1) * limit and the order of the request; when the index
    gave a page, that page is returned and the source store is not queried. *)
Theorem source_store_is_the_fallback (query : FindAllPublicDto) (w : W) :
  let r := run h (findAllPublic query) w in
  let searched :=
    if shouldUseRedis query
    then index_page JSON_parse String_toNumber query
           (fst (h _ (FT_SEARCH INDEX_NAME (build_ftQuery query) (resolved_skip query)
                        (resolved_limit query) (sortField query) (sortDir query)) w))
    else None in
  match searched with
  | Some pg => out r = Returned pg /\ source_queries (trace r) = []
  | None =>
      source_queries (trace r)
      = [ (build_where query,
           Some (resolved_limit query, resolved_skip query, build_orderBy query));
          (build_where query, None) ]
  end.
Proof.
  intros r. subst r. unfold index_page.
  unfold ProductReadService.findAllPublic, redis_search, db_fallback, source_page.
  destruct (shouldUseRedis query) eqn:E; settle h.
  all: try (split; reflexivity).
  all: try reflexivity.
  all: try congruence.
  all: split; [congruence | reflexivity].
Qed.

(** X4: when the findMany or the count of the fallback is rejected,
    findAllPublic does not raise: it returns the empty page (no items, total
    0, last page 0) with the page and the limit of the request, logs the
    error and writes nothing to the result cache. *)
Theorem source_failure_gives_empty_page (query : FindAllPublicDto) (w : W)
    (Hr : source_rejected (trace (run h (findAllPublic query) w)) = true) :
  let r := run h (findAllPublic query) w in
  out r = Returned (empty_page (resolved_page query) (resolved_limit query))
  /\ cache_sets (trace r) = []
  /\ exists e, last (trace r)
               = Some (EvLog ERROR ([10060%N] ++ lit " [DB Fallback] Error: "
                                    ++ error_toString e))
               /\ e ∈ rejections (trace r).
Proof.
  intros r. subst r. revert Hr.
  unfold ProductReadService.findAllPublic, redis_search, db_fallback, source_page.
  destruct (shouldUseRedis query) eqn:E; settle h.
  all: try discriminate.
  all: intros _; split; [reflexivity|]; split; [reflexivity|].
  all: eexists; split; [reflexivity|]; cbn; set_solver.
Qed.

End Fallback.

Lemma source_failure_gives_empty_page_witness :
  let r := run shop_stores (ProductReadService.findAllPublic no_json fixed_hash not_a_number
                              empty_query) db_down_world in
  source_rejected (trace r) = true
  /\ out r = Returned (empty_page (Int 1) (Int 20))
  /\ cache_sets (trace r) = []
  /\ exists e, last (trace r)
               = Some (EvLog ERROR ([10060%N] ++ lit " [DB Fallback] Error: "
                                    ++ error_toString e))
               /\ e ∈ rejections (trace r).
Proof.
  split; [vm_compute; reflexivity|].
  apply (source_failure_gives_empty_page no_json fixed_hash not_a_number shop_stores
           empty_query db_down_world).
  vm_compute; reflexivity.
Defined.

End PaginationProofs.

(** ** Full Sync and Incremental Sync against the stores *)

Module FullSyncProofs.
Import ProductReadService RunFacts Observe.

#[local] Arguments lit : simpl never.
#[local] Arguments sync_one_fields : simpl never.
#[local] Arguments sync_all_item : simpl never.
#[local] Arguments suggestion_payload : simpl never.
#[local] Arguments suggestion_score : simpl never.
#[local] Arguments num_toString : simpl never.
#[local] Arguments show_int : simpl never.
#[local] Arguments message : simpl never.
#[local] Arguments stringify : simpl never.
#[local] Arguments first_image : simpl never.

Section AnyStores.
Context (JSON_parse : jsstring -> option value).
Context {W : Type} (h : handler W).

(** X5: Full Sync never raises.  It reads the ACTIVE rows, deletes the
    suggestion dictionary, then sends one pipeline that holds, row by row, the
    HSET of the entry and the SUGADD of the suggestion; it returns the number
    of rows when the three calls succeed and logs no error.  When a call is
    rejected, no later call is made, the error is logged as a Sync Error and
    nothing is returned: a failed read leaves the index store untouched, a
    failed pipeline leaves the dictionary deleted. *)
Theorem full_sync_outcomes (w : W) :
  let r := run h (syncAllProductsToRedis JSON_parse) w in
  let read := Product_findMany_select (lit "ACTIVE") in
  (exists products x y,
     out r = Returned (Some (Int (Z.of_nat (length products))))
     /\ calls (trace r)
        = [ EvCall read (Resolved products); EvCall (DEL SUGGESTION_KEY) (Resolved x);
            EvCall (PIPELINE_EXEC (flat_map (sync_all_item JSON_parse) products)) (Resolved y) ]
     /\ error_lines (trace r) = [])
  \/ (exists e,
        out r = Returned None
        /\ error_lines (trace r) = [lit "Sync Error: " ++ message e]
        /\ (calls (trace r) = [EvCall read (Rejected e)]
            \/ (exists products,
                  calls (trace r)
                  = [EvCall read (Resolved products); EvCall (DEL SUGGESTION_KEY) (Rejected e)])
            \/ (exists products x,
                  calls (trace r)
                  = [ EvCall read (Resolved products); EvCall (DEL SUGGESTION_KEY) (Resolved x);
                      EvCall (PIPELINE_EXEC (flat_map (sync_all_item JSON_parse) products))
                        (Rejected e) ]))).
Proof.
  intros r read. subst r read. unfold syncAllProductsToRedis.
  cbn.
  destruct (h _ (Product_findMany_select (lit "ACTIVE")) w) as [[e | products] w1]; cbn.
  { right. exists e. split; [reflexivity|]. split; [reflexivity|]. left. reflexivity. }
  destruct (h _ (DEL SUGGESTION_KEY) w1) as [[e | x] w2]; cbn.
  { right. exists e. split; [reflexivity|]. split; [reflexivity|].
    right. left. exists products. reflexivity. }
  destruct (h _ (PIPELINE_EXEC (flat_map (sync_all_item JSON_parse) products)) w2)
    as [[e | y] w3]; cbn.
  { right. exists e. split; [reflexivity|]. split; [reflexivity|].
    right. right. exists products, x. reflexivity. }
  left. exists products, x, y. repeat split; reflexivity.
Qed.


End AnyStores.

(** *** Against the stores *)

Lemma World_eq (a b : World) :
  redis_up a = redis_up b -> hashes a = hashes b -> suggestions a = suggestions b ->
  index_info a = index_info b -> results a = results b -> db_up a = db_up b ->
  products a = products b -> product_details a = product_details b ->
  details a = details b -> a = b.
Proof. destruct a, b; simpl; intros; subst; reflexivity. Qed.

Lemma fold_queued_frame cmds : forall w,
  let w' := fold_left apply_queued cmds w in
  redis_up w' = redis_up w /\ index_info w' = index_info w /\ results w' = results w
  /\ db_up w' = db_up w /\ products w' = products w
  /\ product_details w' = product_details w /\ details w' = details w.
Proof.
  induction cmds as [|q cmds IH]; intros w; [cbn; repeat split|].
  cbn. destruct (IH (apply_queued w q)) as (H1 & H2 & H3 & H4 & H5 & H6 & H7).
  rewrite H1, H2, H3, H4, H5, H6, H7. destruct q; repeat split.
Qed.

Lemma fold_queued_suggestions cmds : forall w,
  suggestions (fold_left apply_queued cmds w) = fold_left suggested cmds (suggestions w).
Proof.
  induction cmds as [|q cmds IH]; intros w; [reflexivity|].
  cbn. rewrite IH. destruct q; reflexivity.
Qed.

Lemma fold_written_untouched k cmds : forall e,
  existsb (writes_to k) cmds = false -> fold_left (written k) cmds e = e.
Proof.
  induction cmds as [|q cmds IH]; intros e H; [reflexivity|].
  cbn in H. apply orb_false_iff in H as [Hq Hr]. cbn. rewrite (IH _ Hr).
  destruct q as [key fields|]; [|reflexivity]. cbn in *. rewrite Hq. reflexivity.
Qed.

Lemma fold_queued_hashes cmds : forall w k,
  hashes (fold_left apply_queued cmds w) !! k
  = if existsb (writes_to k) cmds
    then Some (fold_left (written k) cmds (default ∅ (hashes w !! k)))
    else hashes w !! k.
Proof.
  induction cmds as [|q cmds IH]; intros w k; [reflexivity|].
  cbn [fold_left existsb]. rewrite IH.
  destruct q as [key fields | ? text score payload]; cbn [apply_queued writes_to written].
  - unfold str_eqb. case_bool_decide as Hk.
    + subst key. cbn [orb hset hashes]. rewrite lookup_insert_eq. cbn [default].
      destruct (existsb (writes_to k) cmds) eqn:Ex; [reflexivity|].
      rewrite (fold_written_untouched _ _ _ Ex). reflexivity.
    + cbn [orb hset hashes]. rewrite lookup_insert_ne by exact Hk. reflexivity.
  - reflexivity.
Qed.

Lemma written_union k cmds : forall e,
  fold_left (written k) cmds e = fold_left (written k) cmds ∅ ∪ e.
Proof.
  induction cmds as [|q cmds IH]; intros e.
  - cbn. rewrite (left_id_L ∅ (∪)). reflexivity.
  - cbn [fold_left]. rewrite IH. rewrite (IH (written k ∅ q)).
    destruct q as [key fields|]; cbn [written].
    + destruct (str_eqb key k).
      * rewrite (right_id_L ∅ (∪)). rewrite (assoc_L (∪)). reflexivity.
      * rewrite (right_id_L ∅ (∪)). reflexivity.
    + rewrite (right_id_L ∅ (∪)). reflexivity.
Qed.

Lemma written_twice k cmds e :
  fold_left (written k) cmds (fold_left (written k) cmds e) = fold_left (written k) cmds e.
Proof.
  rewrite (written_union k cmds (fold_left _ _ e)), (written_union k cmds e).
  rewrite (assoc_L (∪)), (idemp_L (∪)). reflexivity.
Qed.

Section Stores.
Context (ft_search : World -> jsstring -> number -> number -> jsstring -> jsstring -> settled reply).
Context (db_findMany : list Product -> ProductWhereInput -> number -> number -> OrderBy -> list Product).
Context (db_count : list Product -> ProductWhereInput -> number).
Context (JSON_parse : jsstring -> option value).

Abbreviation the_stores := (stores ft_search db_findMany db_count).
Abbreviation pipeline w := (flat_map (sync_all_item JSON_parse) (selected_for_sync w)).

Lemma full_sync_run w :
  redis_up w = true -> db_up w = true ->
  let r := run the_stores (syncAllProductsToRedis JSON_parse) w in
  world r = fold_left apply_queued (pipeline w) (del SUGGESTION_KEY w)
  /\ out r = Returned (Some (Int (Z.of_nat (length (selected_for_sync w))))).
Proof.
  intros Hup Hdb r. subst r. unfold syncAllProductsToRedis.
  cbn. unfold on_db. rewrite Hdb. cbn. unfold on_redis. rewrite Hup. cbn.
  unfold on_redis. cbn [redis_up del]. rewrite Hup. cbn. split; reflexivity.
Qed.

Lemma pipeline_spares_dictionary (sel : list SelectedProduct) :
  existsb (writes_to SUGGESTION_KEY) (flat_map (sync_all_item JSON_parse) sel) = false.
Proof.
  induction sel as [|p sel IH]; [reflexivity|].
  cbn [flat_map]. rewrite existsb_app, IH, orb_false_r.
  unfold sync_all_item. cbn [existsb writes_to orb]. unfold str_eqb.
  rewrite bool_decide_eq_false_2; [reflexivity|].
  intros E. apply (f_equal head) in E. vm_compute in E. discriminate E.
Qed.

(** X7: Full Sync is idempotent on the stores: with both stores reachable,
    running it a second time returns the same count and leaves the index store
    (entries, suggestion dictionary, result cache) and everything else exactly
    as the first run left them. *)
Theorem full_sync_idempotent (w : World) (Hup : redis_up w = true) (Hdb : db_up w = true) :
  let once := run the_stores (syncAllProductsToRedis JSON_parse) w in
  let twice := run the_stores (syncAllProductsToRedis JSON_parse) (world once) in
  world twice = world once /\ out twice = out once.
Proof.
  intros once twice. subst once twice.
  destruct (full_sync_run w Hup Hdb) as [Ew Eo]. cbv zeta in Ew, Eo.
  rewrite Ew, Eo.
  set (w0 := del SUGGESTION_KEY w) in *.
  set (w1 := fold_left apply_queued (pipeline w) w0) in *.
  destruct (fold_queued_frame (pipeline w) w0) as (F1 & F2 & F3 & F4 & F5 & F6 & F7).
  cbv zeta in F1, F2, F3, F4, F5, F6, F7. fold w1 in F1, F2, F3, F4, F5, F6, F7.
  assert (Hsel : selected_for_sync w1 = selected_for_sync w).
  { unfold selected_for_sync. rewrite F5. reflexivity. }
  destruct (full_sync_run w1) as [Ew1 Eo1]; [rewrite F1; exact Hup | rewrite F4; exact Hdb|].
  cbv zeta in Ew1, Eo1. rewrite Ew1, Eo1, Hsel. split; [|reflexivity].
  set (w2 := del SUGGESTION_KEY w1).
  destruct (fold_queued_frame (pipeline w) w2) as (G1 & G2 & G3 & G4 & G5 & G6 & G7).
  cbv zeta in G1, G2, G3, G4, G5, G6, G7.
  apply World_eq.
  - rewrite G1. reflexivity.
  - apply map_eq. intros k. rewrite fold_queued_hashes.
    subst w2. cbn [del hashes].
    destruct (decide (k = SUGGESTION_KEY)) as [-> | Hk].
    + rewrite pipeline_spares_dictionary. rewrite lookup_delete_eq.
      subst w1. rewrite fold_queued_hashes, pipeline_spares_dictionary.
      subst w0. cbn [del hashes]. rewrite lookup_delete_eq. reflexivity.
    + rewrite lookup_delete_ne by congruence.
      subst w1. rewrite fold_queued_hashes.
      destruct (existsb (writes_to k) (pipeline w)); [|reflexivity].
      cbn [from_option]. unfold Datatypes.id. rewrite written_twice. reflexivity.
  - subst w1. rewrite !fold_queued_suggestions. subst w2 w0. cbn [del suggestions].
    unfold str_eqb. rewrite bool_decide_eq_true_2 by reflexivity. reflexivity.
  - rewrite G2. reflexivity.
  - rewrite G3. subst w2. cbn [del results]. rewrite F3. subst w0. cbn [del results].
    apply map_eq. intros k. destruct (decide (k = SUGGESTION_KEY)) as [-> | Hk].
    + rewrite !lookup_delete_eq. reflexivity.
    + rewrite !lookup_delete_ne by congruence. reflexivity.
  - rewrite G4. reflexivity.
  - rewrite G5. reflexivity.
  - rewrite G6. reflexivity.
  - rewrite G7. reflexivity.
Qed.

Lemma sync_all_status (p : SelectedProduct) :
  forall key fields, In (Q_HSET key fields) (sync_all_item JSON_parse p) ->
    key = lit "product:" ++ sel_id p
    /\ (list_to_map fields : gmap jsstring value) !! lit "status" = Some (VStr (sel_status p)).
Proof.
  intros key fields [E | [E | []]]; [|discriminate E].
  injection E as <- <-. split; [reflexivity|].
  generalize (cleanSystemTags JSON_parse (sel_systemTags p)).
  generalize (frontendJson (sel_id p) (sel_name p) (sel_slug p) (sel_price p)
                (sel_originalPrice p) (first_image (sel_images p)) (sel_salesCount p)
                (sel_shop p)).
  generalize (location_of (sel_shop p)).
  generalize (num_or (sel_salesCount p) (Int 0)). generalize (num_or (sel_rating p) (Int 0)).
  generalize (sel_name p) (sel_price p) (sel_status p) (sel_id p) (sel_slug p).
  intros. vm_compute. reflexivity.
Qed.

Lemma pipeline_writes w key fields :
  In (Q_HSET key fields) (pipeline w) ->
  (exists p, In p (products w) /\ status p = lit "ACTIVE" /\ key = lit "product:" ++ id p)
  /\ (list_to_map fields : gmap jsstring value) !! lit "status" = Some (VStr (lit "ACTIVE")).
Proof.
  intros H. apply in_flat_map in H as (sp & Hsp & Hq).
  unfold selected_for_sync in Hsp. apply in_map_iff in Hsp as (p & <- & Hp).
  apply filter_In in Hp as [Hp Hst]. unfold str_eqb in Hst. apply bool_decide_eq_true_1 in Hst.
  apply sync_all_status in Hq as [-> Hf]. split.
  - exists p. repeat split; assumption.
  - rewrite Hf. cbn [select_for_sync sel_status]. rewrite Hst. reflexivity.
Qed.

Lemma suggested_origin cmds : forall l x,
  In x (fold_left suggested cmds l) ->
  In x l \/ exists k, In (Q_SUGADD k (fst (fst x)) (snd (fst x)) (snd x)) cmds.
Proof.
  induction cmds as [|q cmds IH]; intros l x H; [left; exact H|].
  cbn [fold_left] in H. apply IH in H as [H | (k & H)].
  - destruct q as [key fields | k text score payload]; cbn [suggested] in H.
    + left. exact H.
    + apply in_app_or in H as [H | [<- | []]].
      * left. apply filter_In in H. apply H.
      * right. exists k. left. reflexivity.
  - right. exists k. right. exact H.
Qed.

Lemma pipeline_suggests w k text score payload :
  In (Q_SUGADD k text score payload) (pipeline w) ->
  exists p, In p (products w) /\ status p = lit "ACTIVE" /\ text = name p.
Proof.
  intros H. apply in_flat_map in H as (sp & Hsp & Hq).
  unfold selected_for_sync in Hsp. apply in_map_iff in Hsp as (p & <- & Hp).
  apply filter_In in Hp as [Hp Hst]. unfold str_eqb in Hst. apply bool_decide_eq_true_1 in Hst.
  destruct Hq as [E | [E | []]]; [discriminate E|]. injection E as _ <- _ _.
  exists p. repeat split; assumption.
Qed.

Lemma written_status k cmds : forall e,
  (forall key fields, In (Q_HSET key fields) cmds ->
     (list_to_map fields : gmap jsstring value) !! lit "status" = Some (VStr (lit "ACTIVE"))) ->
  existsb (writes_to k) cmds = true ->
  fold_left (written k) cmds e !! lit "status" = Some (VStr (lit "ACTIVE")).
Proof.
  induction cmds as [|q cmds IH]; intros e Hall Hex; [discriminate Hex|].
  cbn [fold_left]. destruct (existsb (writes_to k) cmds) eqn:Er.
  - apply IH; [|reflexivity]. intros key fields Hin. apply (Hall key fields). right. exact Hin.
  - rewrite (fold_written_untouched _ _ _ Er).
    cbn in Hex. rewrite Er, orb_false_r in Hex.
    destruct q as [key fields|]; [|discriminate Hex]. cbn in Hex |- *. rewrite Hex.
    apply lookup_union_Some_l. apply (Hall key fields). left. reflexivity.
Qed.

(** X8: after Full Sync with both stores reachable, the index holds for
    every ACTIVE row of the source store an entry product:<id> whose status
    is ACTIVE; apart from the key of the suggestion dictionary, every key
    that no ACTIVE row writes keeps the entry it had: Full Sync does not
    remove or touch the entry of a row that was deleted or is no longer
    ACTIVE.  The suggestion dictionary is rebuilt: each of its entries is the
    name of an ACTIVE row. *)
Theorem full_sync_covers_active_rows (w : World)
    (Hup : redis_up w = true) (Hdb : db_up w = true) :
  let w' := world (run the_stores (syncAllProductsToRedis JSON_parse) w) in
  (forall p, In p (products w) -> status p = lit "ACTIVE" ->
     entry_status w' (lit "product:" ++ id p) = Some (VStr (lit "ACTIVE")))
  /\ (forall k, k <> SUGGESTION_KEY ->
        (forall p, In p (products w) -> status p = lit "ACTIVE" -> k <> lit "product:" ++ id p) ->
        hashes w' !! k = hashes w !! k)
  /\ (forall s, In s (suggestions w') ->
        exists p, In p (products w) /\ status p = lit "ACTIVE" /\ fst (fst s) = name p).
Proof.
  intros w'. subst w'. destruct (full_sync_run w Hup Hdb) as [Ew _]. cbv zeta in Ew.
  rewrite Ew. split; [|split].
  - intros p Hp Hst. unfold entry_status. rewrite fold_queued_hashes.
    assert (Hex : existsb (writes_to (lit "product:" ++ id p)) (pipeline w) = true).
    { apply existsb_exists. eexists. split.
      - apply in_flat_map. exists (select_for_sync p). split.
        + unfold selected_for_sync. apply in_map. apply filter_In. split; [exact Hp|].
          unfold str_eqb. apply bool_decide_eq_true_2. exact Hst.
        + left. reflexivity.
      - cbn. unfold str_eqb. apply bool_decide_eq_true_2. reflexivity. }
    rewrite Hex. cbn [mbind option_bind]. apply written_status; [|exact Hex].
    intros key fields Hin. apply (pipeline_writes w key fields Hin).
  - intros k Hk Hfree. rewrite fold_queued_hashes.
    destruct (existsb (writes_to k) (pipeline w)) eqn:Ex.
    + apply existsb_exists in Ex as (q & Hq & Hw).
      destruct q as [key fields|]; [|discriminate Hw].
      cbn in Hw. unfold str_eqb in Hw. apply bool_decide_eq_true_1 in Hw. subst key.
      destruct (pipeline_writes w k fields Hq) as [(p & Hp & Hst & E) _].
      destruct (Hfree p Hp Hst E).
    + cbn [del hashes]. apply lookup_delete_ne. congruence.
  - intros s Hs. rewrite fold_queued_suggestions in Hs. cbn [del suggestions] in Hs.
    unfold str_eqb in Hs. rewrite bool_decide_eq_true_2 in Hs by reflexivity.
    apply suggested_origin in Hs as [[] | (k & Hs)].
    eapply pipeline_suggests, Hs.
Qed.

End Stores.

Lemma full_sync_idempotent_witness :
  let once := run shop_stores (syncAllProductsToRedis no_json) shop_world in
  let twice := run shop_stores (syncAllProductsToRedis no_json) (world once) in
  world twice = world once /\ out twice = out once.
Proof.
  apply (full_sync_idempotent no_match all_rows count_rows no_json shop_world); reflexivity.
Defined.

Lemma full_sync_covers_active_rows_witness :
  let w' := world (run shop_stores (syncAllProductsToRedis no_json) stale_entry_world) in
  (forall p, In p (products stale_entry_world) -> status p = lit "ACTIVE" ->
     entry_status w' (lit "product:" ++ id p) = Some (VStr (lit "ACTIVE")))
  /\ (forall k, k <> SUGGESTION_KEY ->
        (forall p, In p (products stale_entry_world) -> status p = lit "ACTIVE" ->
           k <> lit "product:" ++ id p) ->
        hashes w' !! k = hashes stale_entry_world !! k)
  /\ (forall s, In s (suggestions w') ->
        exists p, In p (products stale_entry_world) /\ status p = lit "ACTIVE"
                  /\ fst (fst s) = name p).
Proof.
  apply (full_sync_covers_active_rows no_match all_rows count_rows no_json stale_entry_world);
    reflexivity.
Defined.

End FullSyncProofs.

(** ** What the query escapers keep *)

Module EscaperProofs.
Import ProductReadService JSFacts Observe.

Abbreviation escape_unit := (fun c : N => if allowed c then [c] else [92%N; c]).

Lemma allowed_space c : is_space c = true -> allowed c = true.
Proof. unfold allowed. intros ->. rewrite !orb_true_r. reflexivity. Qed.

Lemma escape_trimStart x :
  trimStart (flat_map escape_unit x) = flat_map escape_unit (trimStart x).
Proof.
  induction x as [|c x IH]; [reflexivity|].
  cbn [flat_map trimStart]. destruct (is_space c) eqn:Hc.
  - rewrite (allowed_space c Hc). cbn. rewrite Hc. exact IH.
  - cbn [flat_map]. destruct (allowed c); cbn; [rewrite Hc|]; reflexivity.
Qed.

Lemma trimEnd_snoc_space s c : is_space c = true -> trimEnd (s ++ [c]) = trimEnd s.
Proof.
  intros Hc. unfold trimEnd. rewrite rev_app_distr. simpl. rewrite Hc. reflexivity.
Qed.

Lemma trimEnd_snoc_other s c : is_space c = false -> trimEnd (s ++ [c]) = s ++ [c].
Proof.
  intros Hc. unfold trimEnd. rewrite rev_app_distr. simpl. rewrite Hc.
  simpl. rewrite rev_involutive. reflexivity.
Qed.

Lemma escape_trimEnd x :
  trimEnd (flat_map escape_unit x) = flat_map escape_unit (trimEnd x).
Proof.
  induction x as [|c x IH] using rev_ind; [reflexivity|].
  rewrite flat_map_app. cbn [flat_map]. rewrite app_nil_r.
  destruct (is_space c) eqn:Hc.
  - rewrite (allowed_space c Hc), !trimEnd_snoc_space by exact Hc. exact IH.
  - rewrite (trimEnd_snoc_other x c Hc), flat_map_app. cbn [flat_map]. rewrite app_nil_r.
    destruct (allowed c).
    + apply trimEnd_snoc_other, Hc.
    + change [92%N; c] with ([92%N] ++ [c]). rewrite app_assoc.
      apply trimEnd_snoc_other, Hc.
Qed.

Lemma unescape_escape x : unescape (flat_map escape_unit x) = x.
Proof.
  induction x as [|c x IH]; [reflexivity|].
  cbn [flat_map]. destruct (allowed c) eqn:Ha; cbn [app unescape].
  - destruct (N.eqb_spec c 92) as [-> |]; [discriminate Ha|]. rewrite IH. reflexivity.
  - rewrite IH. reflexivity.
Qed.

(** X9: escaping free text loses nothing but the white space around it: in
    the escaped text every code unit outside the allow-list (letters, digits,
    white space, U+00C0 to U+1EF9, the hyphen) follows a backslash, and taking
    the backslashes out again gives back the text, trimmed.  The escaped text
    is at most twice as long as the text. *)
Theorem escape_then_unescape_is_trim (x : jsstring) :
  unescape (escapeRediSearchText x) = trim x
  /\ escaped (escapeRediSearchText x)
  /\ (length (escapeRediSearchText x) <= 2 * length x)%nat.
Proof.
  unfold escapeRediSearchText. split; [|split].
  - unfold trim. rewrite escape_trimStart, escape_trimEnd. apply unescape_escape.
  - unfold trim, trimEnd.
    assert (Hs : forall s, escaped s -> escaped (trimStart s)).
    { induction 1 as [|c s Hc Hs IH|c s Hc Hs IH]; simpl.
      - constructor.
      - destruct (is_space c); [exact IH | constructor; assumption].
      - constructor; assumption. }
    rewrite escape_trimStart.
    change (rev (trimStart (rev ?s))) with (trimEnd s).
    rewrite escape_trimEnd.
    induction (trimEnd (trimStart x)) as [|c s IH]; simpl; [constructor|].
    destruct (allowed c) eqn:E; simpl; constructor; assumption.
  - unfold trim. rewrite escape_trimStart, escape_trimEnd.
    assert (Hl : forall s, (length (trimStart s) <= length s)%nat).
    { induction s as [|c s IH]; simpl; [lia|]. destruct (is_space c); simpl; lia. }
    assert (He : forall s, (length (flat_map escape_unit s) <= 2 * length s)%nat).
    { induction s as [|c s IH]; simpl; [lia|]. destruct (allowed c); simpl; lia. }
    etransitivity; [apply He|].
    unfold trimEnd. rewrite length_rev.
    pose proof (Hl (rev (trimStart x))) as H1. rewrite length_rev in H1.
    pose proof (Hl x). lia.
Qed.

Lemma single_spaced_collapse s :
  (forall b, single_spaced b (collapse_from true s) = true)
  /\ single_spaced false (collapse_from false s) = true.
Proof.
  induction s as [|c s [IH1 IH2]]; [split; reflexivity|].
  cbn [collapse_from]. destruct (is_space c) eqn:Hc.
  - split; [exact IH1|]. cbn [single_spaced].
    change (is_space 32) with true. cbn. apply IH1.
  - split; [intros b|]; cbn [single_spaced]; rewrite Hc; exact IH2.
Qed.

Lemma word_unit_space c : is_space c = true -> word_unit c = false.
Proof. unfold word_unit. intros ->. reflexivity. Qed.

Lemma words_blank_class s :
  List.filter word_unit (blank_class tag_meta s) = List.filter word_unit s.
Proof.
  unfold blank_class. induction s as [|c s IH]; [reflexivity|].
  cbn [map List.filter]. rewrite IH. destruct (mem_cu c tag_meta) eqn:E; [|reflexivity].
  assert (Hc : word_unit c = false) by (unfold word_unit; rewrite E, andb_false_r; reflexivity).
  rewrite Hc. reflexivity.
Qed.

Lemma words_trimStart s : List.filter word_unit (trimStart s) = List.filter word_unit s.
Proof.
  induction s as [|c s IH]; [reflexivity|].
  cbn [trimStart]. destruct (is_space c) eqn:Hc; [|reflexivity].
  cbn [List.filter]. rewrite (word_unit_space c Hc). exact IH.
Qed.

Lemma words_trim s : List.filter word_unit (trim s) = List.filter word_unit s.
Proof.
  unfold trim, trimEnd. rewrite filter_rev, words_trimStart, <- filter_rev, rev_involutive.
  apply words_trimStart.
Qed.

Lemma words_collapse s : forall b,
  List.filter word_unit (collapse_from b s) = List.filter word_unit s.
Proof.
  induction s as [|c s IH]; intros b; [reflexivity|].
  cbn [collapse_from]. destruct (is_space c) eqn:Hc.
  - cbn [List.filter]. rewrite (word_unit_space c Hc).
    destruct b; [apply IH|]. cbn [List.filter]. apply IH.
  - cbn [List.filter]. rewrite IH. reflexivity.
Qed.

(** X10: a sanitized tag keyword has none of the metacharacters of a tag
    clause, has no white space at either end, and its white space is single
    ASCII spaces; sanitizing changes separators only: the code units that are
    neither white space nor metacharacters are kept, all of them and in their
    order. *)
Theorem sanitized_keyword_normal_form (x : jsstring) :
  let s := sanitizeTagKeyword x in
  Forall (fun c => mem_cu c tag_meta = false) s
  /\ head_nonspace s /\ head_nonspace (rev s)
  /\ single_spaced false s = true
  /\ List.filter word_unit s = List.filter word_unit x.
Proof.
  intros s. subst s. unfold sanitizeTagKeyword. repeat split.
  - apply Forall_collapse_from; [reflexivity|].
    apply Forall_trim, blank_class_clean. reflexivity.
  - apply collapse_keeps_head, trim_head.
  - apply collapse_keeps_last, trim_last.
  - apply single_spaced_collapse.
  - unfold collapse_spaces. rewrite words_collapse, words_trim. apply words_blank_class.
Qed.

Lemma split_spaces_nonempty b s : exists x l, split_spaces_from b s = x :: l.
Proof.
  revert b. induction s as [|c s IH]; intros b; cbn [split_spaces_from]; [eauto|].
  destruct (is_space c).
  - destruct b; [apply IH | eauto].
  - destruct (IH false) as (x & l & ->). eauto.
Qed.

Lemma join_cons_unit sep c x (l : list jsstring) :
  join sep ((c :: x) :: l) = c :: join sep (x :: l).
Proof. destruct l; reflexivity. Qed.

Lemma join_split_spaces s : forall b,
  join (lit " ") (split_spaces_from b s) = collapse_from b s.
Proof.
  induction s as [|c s IH]; intros b; [reflexivity|].
  cbn [split_spaces_from collapse_from]. destruct (is_space c).
  - destruct b; [apply IH|].
    destruct (split_spaces_nonempty true s) as (x & l & E).
    rewrite <- (IH true), E. reflexivity.
  - destruct (split_spaces_nonempty false s) as (x & l & E).
    rewrite <- (IH false), E. apply join_cons_unit.
Qed.

Lemma split_spaces_tokens s :
  head_nonspace (rev s) -> s <> [] ->
  Forall word_token (split_spaces_from true s)
  /\ exists x l,
       split_spaces_from false s = x :: l
       /\ Forall word_token l
       /\ Forall (fun c => is_space c = false) x
       /\ (head_nonspace s -> x <> []).
Proof.
  induction s as [|c s IH]; intros Hlast Hne; [congruence|].
  assert (Hs : s <> [] -> head_nonspace (rev s)).
  { intros Hs. cbn [rev] in Hlast. destruct (rev s) as [|a r] eqn:Er; [|exact Hlast].
    apply (f_equal (@rev N)) in Er. rewrite rev_involutive in Er. contradiction. }
  cbn [split_spaces_from]. destruct (is_space c) eqn:Hc.
  - assert (Hn : s <> []).
    { intros ->. cbn in Hlast. congruence. }
    destruct (IH (Hs Hn) Hn) as [Ht _]. split; [exact Ht|].
    exists [], (split_spaces_from true s). repeat split; [exact Ht | constructor |].
    cbn. congruence.
  - destruct s as [|d s'].
    + cbn. split.
      * repeat constructor; [discriminate | exact Hc].
      * exists [c], []. repeat split; [constructor | repeat constructor; exact Hc | discriminate].
    + destruct (IH (Hs ltac:(discriminate)) ltac:(discriminate))
        as [_ (x & l & E & Hl & Hx & _)].
      rewrite E. split.
      * constructor; [|exact Hl]. split; [discriminate | constructor; assumption].
      * exists (c :: x), l. repeat split; [exact Hl | constructor; assumption | discriminate].
Qed.

Lemma escape_nonempty x : trim x <> [] -> escapeRediSearchText x <> [].
Proof.
  unfold escapeRediSearchText, trim. rewrite escape_trimStart, escape_trimEnd.
  destruct (trimEnd (trimStart x)) as [|c s]; [congruence|]. intros _.
  cbn [flat_map]. destruct (allowed c); discriminate.
Qed.

(** X19: a request whose trimmed search term is not empty always gets a
    text clause, and the name group of that clause is made of words: each
    token is a non-empty run of escaped text without white space, followed by
    a star, and the tokens are joined by single spaces; so the group holds no
    bare star.  A request without such a term gets no text clause. *)
Theorem name_clause_is_made_of_words (query : FindAllPublicDto) :
  match text_conditions query with
  | [] => searchKeyword query = []
  | clause :: more =>
      more = [] /\ searchKeyword query <> []
      /\ exists tokens,
           Forall word_token tokens /\ tokens <> []
           /\ join (lit " ") tokens = collapse_spaces (escapeRediSearchText (searchKeyword query))
           /\ clause = lit "(@name:(" ++ join (lit " ") (map (fun t => t ++ lit "*") tokens)
                       ++ lit ") | @systemTags:{" ++ sanitizeTagKeyword (searchKeyword query)
                       ++ lit "})"
  end.
Proof.
  unfold text_conditions.
  assert (Hk : trim (searchKeyword query) = searchKeyword query).
  { unfold searchKeyword. destruct (search query) as [s|]; [|reflexivity].
    destruct (nonempty s); [apply trim_idempotent | reflexivity]. }
  destruct (searchKeyword query) as [|c k] eqn:Ek; [reflexivity|].
  cbn [nonempty]. rewrite <- Ek in *.
  assert (Hne : escapeRediSearchText (searchKeyword query) <> []).
  { apply escape_nonempty. rewrite Hk, Ek. discriminate. }
  destruct (escapeRediSearchText (searchKeyword query)) as [|e es] eqn:Ee; [congruence|].
  cbn [nonempty]. rewrite <- Ee in *.
  split; [reflexivity|]. split; [rewrite Ek; discriminate|].
  exists (split_spaces (escapeRediSearchText (searchKeyword query))).
  assert (Hh : head_nonspace (escapeRediSearchText (searchKeyword query)))
    by apply trim_head.
  assert (Hl : head_nonspace (rev (escapeRediSearchText (searchKeyword query))))
    by apply trim_last.
  destruct (split_spaces_tokens _ Hl Hne) as [_ (x & l & E & Htl & Hx & Hx0)].
  unfold split_spaces. rewrite E. split; [|split; [discriminate|split; [|reflexivity]]].
  - constructor; [|exact Htl]. split; [exact (Hx0 Hh) | exact Hx].
  - rewrite <- E. apply (join_split_spaces _ false).
Qed.

End EscaperProofs.

(** ** The mapped product and the detail cache *)

Module MappingProofs.
Import ProductReadService RunFacts JSFacts Observe.

Lemma digits_value_acc (u : Decimal.uint) : forall acc : positive,
  digits_value (Z.pos acc) (uint_digits u) = Z.pos (Pos.of_uint_acc u acc).
Proof.
  induction u; intros acc; cbn [uint_digits Pos.of_uint_acc]; [reflexivity| ..];
    cbn [digits_value]; change (is_digit _) with true; cbv iota;
    rewrite <- IHu; f_equal; cbn [N.sub Z.of_N]; lia.
Qed.

Lemma digits_value_uint (u : Decimal.uint) :
  digits_value 0 (uint_digits u) = Z.of_N (Pos.of_uint u).
Proof.
  induction u; cbn [uint_digits Pos.of_uint]; [reflexivity| ..];
    cbn [digits_value]; change (is_digit _) with true; cbv iota;
    [exact IHu | ..]; cbn [Z.of_N]; rewrite <- digits_value_acc; f_equal.
Qed.

Lemma uint_digits_are_digits (u : Decimal.uint) : Forall (fun c => is_digit c = true) (uint_digits u).
Proof. induction u; cbn [uint_digits]; constructor; try reflexivity; assumption. Qed.

Lemma parseInt10_digits s :
  s <> [] -> Forall (fun c => is_digit c = true) s ->
  parseInt10 s = Int (digits_value 0 s)
  /\ parseInt10 (45%N :: s) = Int (- digits_value 0 s).
Proof.
  intros Hs Hd. destruct s as [|c s]; [congruence|].
  inversion Hd as [|? ? Hc _]; subst.
  assert (Hcases : (c = 48 \/ c = 49 \/ c = 50 \/ c = 51 \/ c = 52 \/ c = 53 \/ c = 54
                    \/ c = 55 \/ c = 56 \/ c = 57)%N).
  { unfold is_digit in Hc. apply andb_true_iff in Hc as [H1 H2].
    apply N.leb_le in H1. apply N.leb_le in H2. lia. }
  assert (E : parseInt10 (c :: s) = Int (1 * digits_value 0 (c :: s))
              /\ parseInt10 (45%N :: c :: s) = Int (-1 * digits_value 0 (c :: s))).
  { repeat (destruct Hcases as [-> | Hcases]; [split; reflexivity|]).
    subst c. split; reflexivity. }
  destruct E as [E1 E2]. rewrite E1, E2. split; f_equal; lia.
Qed.

Lemma digits_of_positive p :
  uint_digits (Pos.to_uint p) <> []
  /\ digits_value 0 (uint_digits (Pos.to_uint p)) = Z.pos p.
Proof.
  assert (E : digits_value 0 (uint_digits (Pos.to_uint p)) = Z.pos p).
  { rewrite digits_value_uint, DecimalPos.Unsigned.of_to. reflexivity. }
  split; [|exact E]. intros E0. rewrite E0 in E. discriminate E.
Qed.

Lemma parseInt10_show_int z : parseInt10 (show_int z) = Int z.
Proof.
  destruct z as [|p|p]; cbn [show_int].
  - reflexivity.
  - destruct (digits_of_positive p) as [Hn Hv].
    destruct (parseInt10_digits _ Hn (uint_digits_are_digits _)) as [E _].
    rewrite E, Hv. reflexivity.
  - destruct (digits_of_positive p) as [Hn Hv].
    destruct (parseInt10_digits _ Hn (uint_digits_are_digits _)) as [_ E].
    rewrite E, Hv. reflexivity.
Qed.

Lemma show_int_nonempty z : show_int z <> [].
Proof.
  destruct z as [|p|p]; cbn [show_int]; [discriminate | | discriminate].
  apply digits_of_positive.
Qed.

Lemma show_int_no_comma z : 44%N ∉ show_int z.
Proof.
  assert (Hd : forall u, 44%N ∉ uint_digits u).
  { intros u Hin. pose proof (uint_digits_are_digits u) as Hf.
    rewrite Forall_forall in Hf. apply Hf in Hin. discriminate Hin. }
  destruct z as [|p|p]; cbn [show_int].
  - intros H. apply list_elem_of_singleton in H. discriminate H.
  - apply Hd.
  - intros H. apply elem_of_cons in H as [H | H]; [discriminate H | exact (Hd _ H)].
Qed.

Lemma safeTierIndex_of_integers (zs : list Z) :
  safeTierIndex (VStr (join (lit ",") (map show_int zs))) = map (fun z => VNum (Int z)) zs.
Proof.
  destruct zs as [|z zs]; [reflexivity|].
  unfold safeTierIndex.
  assert (Hne : nonempty (join (lit ",") (map show_int (z :: zs))) = true).
  { cbn [map]. pose proof (show_int_nonempty z) as Hz.
    destruct (show_int z); [congruence|]. destruct (map show_int zs); reflexivity. }
  rewrite Hne. change (lit ",") with [44%N].
  rewrite split_join_inverse.
  - rewrite map_map. apply map_ext. intros a. rewrite parseInt10_show_int. reflexivity.
  - apply Forall_forall. intros t Ht. apply list_elem_of_fmap in Ht as (a & -> & _).
    apply show_int_no_comma.
  - discriminate.
Qed.


Section DetailCache.
Context (ft_search : World -> jsstring -> number -> number -> jsstring -> jsstring -> settled reply).
Context (db_findMany : list Product -> ProductWhereInput -> number -> number -> OrderBy -> list Product).
Context (db_count : list Product -> ProductWhereInput -> number).

Abbreviation the_stores := (stores ft_search db_findMany db_count).

Lemma cache_hit k m w :
  redis_up w = true -> details w !! k = Some m -> is_ACTIVE (mapped_status m) = true ->
  run the_stores (findOnePublic k) w = served_from_cache k m w.
Proof.
  intros Hup Hk Ha. unfold findOnePublic, served_from_cache. cbn.
  unfold on_redis. rewrite Hup, Hk. cbn. rewrite Ha. reflexivity.
Qed.

Lemma first_call k w m :
  out (run the_stores (findOnePublic k) w) = Returned m ->
  (world (run the_stores (findOnePublic k) w) = w
   /\ redis_up w = true /\ details w !! k = Some m /\ is_ACTIVE (mapped_status m) = true
   /\ detail_writes (trace (run the_stores (findOnePublic k) w)) = [])
  \/ (exists p,
        m = map_detail p
        /\ world (run the_stores (findOnePublic k) w)
           = set_detail (id (product p)) (slug (product p)) (map_detail p) w
        /\ redis_up w = true /\ is_ACTIVE (status (product p)) = true
        /\ (k = id (product p) \/ k = slug (product p))).
Proof.
  unfold findOnePublic.
  cbn. unfold on_redis. destruct (redis_up w) eqn:Hup; cbn; [|discriminate].
  destruct (active_entry (details w !! k)) as [c|] eqn:Ea; cbn.
  - intros [= ->]. left.
    unfold active_entry in Ea. destruct (details w !! k) as [c|] eqn:Ek; [|discriminate].
    destruct (is_ACTIVE (mapped_status c)) eqn:Ha; [|discriminate]. injection Ea as ->.
    repeat split; assumption || reflexivity.
  - unfold on_db. destruct (db_up w); cbn; [|discriminate].
    destruct (List.find (by_id_or_slug k) (product_details w)) as [p|] eqn:Ef; cbn;
      [|discriminate].
    destruct (is_ACTIVE (status (product p))) eqn:Ha; cbn; [|discriminate].
    unfold on_redis. rewrite Hup. cbn. intros [= <-]. right. exists p.
    repeat split; try reflexivity; try exact Ha.
    apply find_some in Ef as [_ Ef]. unfold by_id_or_slug in Ef.
    apply orb_true_iff in Ef as [Ef | Ef]; unfold str_eqb in Ef;
      apply bool_decide_eq_true_1 in Ef; [left | right]; congruence.
Qed.


End DetailCache.


End MappingProofs.

(** ** Suggestions, bought-together and the feed *)

Module OtherReadsProofs.
Import ProductReadService OtherReads.

#[local] Arguments lit : simpl never.
#[local] Arguments SUGGET_OPTIONS : simpl never.
#[local] Arguments bought_together_key : simpl never.
#[local] Arguments in_stock : simpl never.
#[local] Arguments feed_start : simpl never.
#[local] Arguments feed_stop : simpl never.

Section Reads.
Context (JSON_parse : jsstring -> option value).
Context {W : Type} (o : oracle W).

Lemma collect_suggestions_names (n : nat) : forall l items,
  (length l <= n)%nat ->
  collect_suggestions JSON_parse l = inr items ->
  sublist (map sg_name items) (names_of l) /\ (2 * length items <= length l)%nat.
Proof.
  induction n as [|n IH]; intros l items Hn H.
  - destruct l; [injection H as <-; split; [constructor | simpl; lia] | simpl in Hn; lia].
  - destruct l as [|name [|payloadStr rest]]; cbn [collect_suggestions] in H.
    + injection H as <-. split; [constructor | simpl; lia].
    + injection H as <-. split; [constructor | simpl; lia].
    + cbn [names_of].
      assert (Hrest : forall its, collect_suggestions JSON_parse rest = inr its ->
                sublist (map sg_name its) (names_of rest)
                /\ (2 * length its <= length rest)%nat).
      { intros its. apply IH. simpl in Hn. lia. }
      destruct (reply_truthy payloadStr).
      * destruct (JSON_parse (reply_toString payloadStr)) as [data|]; [|discriminate].
        destruct (suggestion_of name data) as [e | s] eqn:Es; [discriminate|].
        destruct (collect_suggestions JSON_parse rest) as [e | more]; [discriminate|].
        injection H as <-. destruct (Hrest more eq_refl) as [Hs Hb].
        assert (En : sg_name s = reply_value name).
        { unfold suggestion_of in Es. destruct data; try discriminate Es;
            injection Es as <-; reflexivity. }
        cbn [map]. rewrite En. split; [constructor; exact Hs | simpl; lia].
      * destruct (Hrest items H) as [Hs Hb]. split; [constructor; exact Hs | simpl; lia].
Qed.


Lemma filter_in_stock (rows : list StockedProduct) :
  Forall (fun p => in_stock p = true) (List.filter in_stock rows).
Proof.
  induction rows as [|p rows IH]; cbn [List.filter]; [constructor|].
  destruct (in_stock p) eqn:E; [constructor; assumption | exact IH].
Qed.



End Reads.

End OtherReadsProofs.
